(** * geo2ruleset: rule parser, wildcard translator, renderers and caches

    A shallow embedding of the Go sources of the converter
    ([internal/converter]), of the regex-to-wildcard translator
    ([internal/wildcard]), of the caches ([internal/cache]) and of the
    fetcher ([internal/fetcher]), with the properties the specification
    states about them.

    Go strings are byte strings: they are modelled as [string] (a list of
    8-bit [ascii]).  Time is a number of nanoseconds in [Z]. *)

From Stdlib Require Import ZArith NArith Ascii String List Bool Lia.
From stdpp Require Import base option list gmap strings.

Set Default Proof Using "Type".
#[global] Arguments String.append !_ _ : simpl nomatch.
Local Open Scope Z_scope.

(* ===================================================================== *)
(** ** The functions of Go's [strings] package the sources call *)
(* ===================================================================== *)

Module GoStrings.

(** The numeric value of a byte. *)
Definition byte (c : ascii) : N := N_of_ascii c.

(** [strings.HasPrefix(s, prefix)]. *)
Fixpoint HasPrefix (s prefix : string) {struct prefix} : bool :=
  match prefix, s with
  | EmptyString, _ => true
  | String p prefix', String c s' => Ascii.eqb p c && HasPrefix s' prefix'
  | String _ _, EmptyString => false
  end.

(** [s[n:]]. *)
Fixpoint skip (n : nat) (s : string) : string :=
  match n, s with
  | O, _ => s
  | S n', String _ s' => skip n' s'
  | S _, EmptyString => EmptyString
  end.

(** [strings.TrimPrefix(s, prefix)]. *)
Definition TrimPrefix (s prefix : string) : string :=
  if HasPrefix s prefix then skip (String.length prefix) s else s.

Definition rev_string (s : string) : string :=
  string_of_list_ascii (rev (list_ascii_of_string s)).

(** [strings.HasSuffix(s, suffix)] and [strings.TrimSuffix(s, suffix)]. *)
Definition HasSuffix (s suffix : string) : bool :=
  HasPrefix (rev_string s) (rev_string suffix).

Definition TrimSuffix (s suffix : string) : string :=
  if HasSuffix s suffix
  then rev_string (skip (String.length suffix) (rev_string s))
  else s.

(** [strings.Index(s, substr)]: the byte index of the first occurrence
    of [substr] in [s], or [-1]. *)
Fixpoint Index (s substr : string) : Z :=
  if HasPrefix s substr then 0
  else match s with
       | EmptyString => -1
       | String _ s' =>
           let i := Index s' substr in
           if i =? -1 then -1 else i + 1
       end.

(** [strings.Split(s, sep)] for the one-byte separator the parser uses. *)
Fixpoint Split (s : string) (sep : ascii) : list string :=
  match s with
  | EmptyString => [EmptyString]
  | String c s' =>
      if Ascii.eqb c sep then EmptyString :: Split s' sep
      else match Split s' sep with
           | [] => [String c EmptyString]
           | hd :: tl => String c hd :: tl
           end
  end.

(** [strings.SplitN(s, sep, 2)] for a one-byte separator: the text
    before the first separator and, when there is one, the text after
    it. *)
Fixpoint SplitN2 (s : string) (sep : ascii) : list string :=
  match s with
  | EmptyString => [EmptyString]
  | String c s' =>
      if Ascii.eqb c sep then [EmptyString; s']
      else match SplitN2 s' sep with
           | [] => [String c EmptyString]
           | hd :: tl => String c hd :: tl
           end
  end.

(** [strings.Join(elems, sep)]. *)
Fixpoint Join (elems : list string) (sep : string) : string :=
  match elems with
  | [] => EmptyString
  | [e] => e
  | e :: rest => e +:+ sep +:+ Join rest sep
  end.

(** *** [strings.TrimSpace]

    Go trims every leading and trailing rune for which
    [unicode.IsSpace] holds.  On the UTF-8 bytes of the string these are
    the six ASCII spaces, U+0085 and U+00A0 (two bytes each) and the
    three-byte spaces U+1680, U+2000..U+200A, U+2028, U+2029, U+202F,
    U+205F and U+3000.  A byte sequence that is not valid UTF-8 decodes
    to the error rune, which is not a space. *)

Definition asciiSpace (c : ascii) : bool :=
  match byte c with
  | 9 | 10 | 11 | 12 | 13 | 32 => true
  | _ => false
  end%N.

(** U+0085 is [C2 85], U+00A0 is [C2 A0]. *)
Definition space2 (c0 c1 : ascii) : bool :=
  (byte c0 =? 194)%N && ((byte c1 =? 133)%N || (byte c1 =? 160)%N).

(** The three-byte spaces. *)
Definition space3 (c0 c1 c2 : ascii) : bool :=
  match byte c0, byte c1 with
  | 225, 154 => (byte c2 =? 128)%N                        (* U+1680 *)
  | 226, 128 =>
      ((128 <=? byte c2)%N && (byte c2 <=? 138)%N)        (* U+2000..200A *)
      || (byte c2 =? 168)%N || (byte c2 =? 169)%N         (* U+2028, U+2029 *)
      || (byte c2 =? 175)%N                               (* U+202F *)
  | 226, 129 => (byte c2 =? 159)%N                        (* U+205F *)
  | 227, 128 => (byte c2 =? 128)%N                        (* U+3000 *)
  | _, _ => false
  end%N.

(** Leading spaces, on the bytes in their order. *)
Fixpoint trimLeft (s : list ascii) : list ascii :=
  match s with
  | [] => []
  | c0 :: r0 =>
      if asciiSpace c0 then trimLeft r0
      else match r0 with
           | [] => s
           | c1 :: r1 =>
               if space2 c0 c1 then trimLeft r1
               else match r1 with
                    | [] => s
                    | c2 :: r2 => if space3 c0 c1 c2 then trimLeft r2 else s
                    end
           end
  end.

(** Trailing spaces, on the bytes in reverse order: the last rune is
    decoded from its last byte backwards. *)
Fixpoint trimLeftRev (s : list ascii) : list ascii :=
  match s with
  | [] => []
  | c0 :: r0 =>
      if asciiSpace c0 then trimLeftRev r0
      else match r0 with
           | [] => s
           | c1 :: r1 =>
               if space2 c1 c0 then trimLeftRev r1
               else match r1 with
                    | [] => s
                    | c2 :: r2 => if space3 c2 c1 c0 then trimLeftRev r2 else s
                    end
           end
  end.

Definition TrimSpace (s : string) : string :=
  string_of_list_ascii
    (rev (trimLeftRev (rev (trimLeft (list_ascii_of_string s))))).

(** An ASCII byte that is not a space: it starts no rune that
    [TrimSpace] removes. *)
Definition plainByte (c : ascii) : bool :=
  (byte c <? 128)%N && negb (asciiSpace c).

(** Membership of a byte in a string. *)
Definition occurs (c : ascii) (s : string) : Prop :=
  In c (list_ascii_of_string s).

End GoStrings.

(* ===================================================================== *)
(** ** The converter's data model ([internal/converter], types) *)
(* ===================================================================== *)

(** A Go [error], by its message. *)
Definition error := string.

(** The outcome of a call that may recurse without bound: it returns a
    value, returns an error, or has not returned within the recursion
    depth allowed. *)
Inductive result (A : Type) : Type :=
| Ok (a : A)
| Err (e : error)
| OutOfFuel.
Arguments Ok {A} a.
Arguments Err {A} e.
Arguments OutOfFuel {A}.

(** [r2] is [r1] with at least as much fuel: they agree unless [r1] ran
    out of fuel. *)
Definition refines {A} (r1 r2 : result A) : Prop := r1 = OutOfFuel \/ r1 = r2.

Inductive ItemKind := ItemRule | ItemComment.
Inductive RuleKind := RuleDomainSuffix | RuleDomain | RuleDomainKeyword | RuleDomainRegex.

Record Rule := mkRule {
  Rule_Kind : RuleKind;
  Rule_Value : string;
  Rule_Comment : string
}.

(** [Item.Rule] is a pointer: [None] is [nil]. *)
Record Item := mkItem {
  Item_Kind : ItemKind;
  Item_Rule : option Rule;
  Item_Comment : string
}.

Definition ItemKind_eqb (a b : ItemKind) : bool :=
  match a, b with
  | ItemRule, ItemRule | ItemComment, ItemComment => true
  | _, _ => false
  end.

(** [Item{Kind: ItemComment, Comment: c}] and [Item{Kind: ItemRule, Rule: &r}]. *)
Definition commentItem (c : string) : Item := mkItem ItemComment None c.
Definition ruleItem (r : Rule) : Item := mkItem ItemRule (Some r) EmptyString.

(* ===================================================================== *)
(** ** The rule parser ([Converter.Parse] and its helpers) *)
(* ===================================================================== *)

Module Parser.
Import GoStrings.

Definition newline : ascii := "010"%char.
Definition space : ascii := " "%char.

(** The text after the first space of a line, the empty string when there is
    none: [rest] in [parseRuleLine]. *)
Definition restOf (parts : list string) : string :=
  match parts with
  | _ :: r :: _ => r
  | _ => EmptyString
  end.

Definition matchesFilter (rest filter : string) : bool :=
  if String.eqb filter EmptyString then true
  else
    let trimmedRest := TrimSpace rest in
    let filterString := "@" +:+ filter in
    if negb (HasPrefix trimmedRest "@") then false
    else
      let commentIndex := Index trimmedRest "#" in
      let filterIndex := Index trimmedRest filterString in
      if (filterIndex =? -1)
         || (negb (commentIndex =? -1) && (commentIndex <? filterIndex))
      then false
      else true.

Definition parseRuleLine (line fromPrefix : string) (kind : RuleKind)
    (filter : string) : Rule * bool :=
  let parts := SplitN2 line space in
  let value := hd EmptyString parts in
  let value :=
    if negb (String.eqb fromPrefix EmptyString) then TrimPrefix value fromPrefix
    else value in
  let rest := restOf parts in
  if negb (matchesFilter rest filter)
  then (mkRule RuleDomainSuffix EmptyString EmptyString, false)
  else (mkRule kind value rest, true).

Definition hasRules (items : list Item) : bool :=
  existsb (fun item => ItemKind_eqb (Item_Kind item) ItemRule) items.

Section WithArchive.
(** The archive handle and the injected content accessor of a
    [Converter]. *)
Context {Reader : Type}.

Record Converter := NewConverter {
  zipReader : Reader;
  fileGetter : Reader -> string -> string * option error
}.

Section Body.
Variable c : Converter.
(** [subConverter.Parse], one include level down. *)
Variable subParse : string -> string -> result (list Item).

Definition parseInclude (line filter : string) : result (list Item) :=
  let parts := SplitN2 line space in
  let subContentName := TrimPrefix (hd EmptyString parts) "include:" in
  match fileGetter c (zipReader c) subContentName with
  | (_, Some err) =>
      Err ("failed to fetch sub-upstream content: " +:+ err)
  | (subContent, None) =>
      match subParse subContent filter with
      | Ok subItems =>
          if negb (hasRules subItems) then Ok []
          else Ok (commentItem ("# " +:+ line) :: subItems)
      | Err e => Err e
      | OutOfFuel => OutOfFuel
      end
  end.

(** What [parseRuleLine] appends to [items]. *)
Definition appendRule (items : list Item) (r : Rule * bool) : list Item :=
  if snd r then items ++ [ruleItem (fst r)] else items.

(** The loop of [Parse] over the lines, [items] being what has been
    appended so far. *)
Fixpoint parseLines (lines : list string) (filter : string)
    (items : list Item) : result (list Item) :=
  match lines with
  | [] => Ok items
  | raw :: lines' =>
      let line := TrimSpace raw in
      if String.eqb line EmptyString then parseLines lines' filter items
      else if HasPrefix line "#" then
        parseLines lines' filter (items ++ [commentItem line])
      else if HasPrefix line "domain:" then
        parseLines lines' filter
          (appendRule items (parseRuleLine line "domain:" RuleDomainSuffix filter))
      else if HasPrefix line "full:" then
        parseLines lines' filter
          (appendRule items (parseRuleLine line "full:" RuleDomain filter))
      else if HasPrefix line "keyword:" then
        parseLines lines' filter
          (appendRule items (parseRuleLine line "keyword:" RuleDomainKeyword filter))
      else if HasPrefix line "regexp:" then
        parseLines lines' filter
          (appendRule items (parseRuleLine line "regexp:" RuleDomainRegex filter))
      else if HasPrefix line "include:" then
        match parseInclude line filter with
        | Ok subItems => parseLines lines' filter (items ++ subItems)
        | Err e => Err e
        | OutOfFuel => OutOfFuel
        end
      else
        parseLines lines' filter
          (appendRule items (parseRuleLine line EmptyString RuleDomainSuffix filter))
  end.
End Body.

(** [Parse]: [fuel] bounds the depth of nested includes, which the
    source does not bound.  The sub-converter of [parseInclude] has
    the fields of [c]. *)
Fixpoint Parse (fuel : nat) (c : Converter) (upstreamContent filter : string)
    : result (list Item) :=
  parseLines c
    (match fuel with
     | O => fun _ _ => OutOfFuel
     | S fuel' => Parse fuel' (NewConverter (zipReader c) (fileGetter c))
     end)
    (Split upstreamContent newline) filter [].

(** What one line of the input appends to [items]: the loop of [Parse]
    run on that line alone. *)
Definition lineItems (c : Converter) (subParse : string -> string -> result (list Item))
    (filter raw : string) : result (list Item) :=
  parseLines c subParse [raw] filter [].

End WithArchive.
Arguments Converter : clear implicits.

(** *** Vocabulary of the specification *)

(** The number of Rule items of a sequence. *)
Definition ruleCount (items : list Item) : nat :=
  List.length (List.filter (fun item => ItemKind_eqb (Item_Kind item) ItemRule) items).

(** The recognised type prefixes and the kind each stands for. *)
Definition typePrefixes : list (string * RuleKind) :=
  [("domain:", RuleDomainSuffix); ("full:", RuleDomain);
   ("keyword:", RuleDomainKeyword); ("regexp:", RuleDomainRegex)].

(** The items of a rule line that states [value] and is followed by the
    region [rest]: the rule when the filter lets it pass, nothing
    otherwise. *)
Definition ruleLineItems (kind : RuleKind) (value rest filter : string) : list Item :=
  if matchesFilter rest filter then [ruleItem (mkRule kind value rest)] else [].

(** The first space-delimited token of the trimmed line is a type prefix
    with nothing after it. *)
Definition bareTypePrefix (raw : string) : bool :=
  let tok := hd EmptyString (SplitN2 (TrimSpace raw) space) in
  existsb (fun pk => String.eqb tok (fst pk)) typePrefixes.

(** No line of the text is a bare type prefix. *)
Definition noBarePrefix (content : string) : bool :=
  forallb (fun raw => negb (bareTypePrefix raw)) (Split content newline).

(** The member that the include directive of a line names, as
    [parseInclude] reads it off the trimmed line. *)
Definition includedName (raw : string) : string :=
  TrimPrefix (hd EmptyString (SplitN2 (TrimSpace raw) space)) "include:".

(** The texts a parse of [content] can read: [content] itself, and the
    text of every member that an include directive of such a text names
    and the content accessor returns. *)
Inductive included {Reader : Type} (c : Converter Reader) (content : string)
    : string -> Prop :=
| included_input : included c content content
| included_member (text raw sub : string) :
    included c content text ->
    In raw (Split text newline) ->
    HasPrefix (TrimSpace raw) "include:" = true ->
    fileGetter c (zipReader c) (includedName raw) = (sub, None) ->
    included c content sub.

(** The filter condition in the specification's words: the region
    contains the literal [@TAG], at a place with no [#] before it. *)
Definition spec_containsTag (region filter : string) : Prop :=
  exists pre post,
    region = pre +:+ ("@" +:+ filter) +:+ post /\ ~ occurs "#"%char pre.

(** A rule item has a rule, whose value is not empty. *)
Definition hasValue (item : Item) : Prop :=
  Item_Kind item = ItemRule ->
  exists r, Item_Rule item = Some r /\ Rule_Value r <> EmptyString.

(** An archive without members, and one with a few. *)
Definition emptyArchive : Converter unit :=
  NewConverter tt (fun _ name => (EmptyString, Some ("file not found: " +:+ name))).

Definition sampleArchive : Converter unit :=
  NewConverter tt (fun _ name =>
    if String.eqb name "google" then
      ("domain:google.com" +:+ String newline "full:www.google.cn @cn", None)
    else if String.eqb name "notes" then
      ("# nothing but a comment", None)
    else (EmptyString, Some ("file not found: " +:+ name))).

(** The members of [sampleArchive], and one more that no text includes
    and that holds a bare type prefix. *)
Definition strayArchive : Converter unit :=
  NewConverter tt (fun _ name =>
    if String.eqb name "stray" then ("domain:", None)
    else fileGetter sampleArchive tt name).

(** *** Shapes of parsed items *)

(** What [Parse] makes of an item under a filter: a Rule item has a rule
    whose trailing region passes the filter, and no comment text; a
    Comment item has no rule and a text that starts with [#]. *)
Definition wellFormed (filter : string) (item : Item) : Prop :=
  match Item_Kind item with
  | ItemRule =>
      exists r, Item_Rule item = Some r
                /\ matchesFilter (Rule_Comment r) filter = true
                /\ Item_Comment item = EmptyString
  | ItemComment =>
      Item_Rule item = None /\ HasPrefix (Item_Comment item) "#" = true
  end.

(** A text without a line break. *)
Definition oneLine (s : string) : Prop := ~ occurs newline s.

(** The texts of an item have no line break, and the value of its rule
    has no space. *)
Definition oneLineItem (item : Item) : Prop :=
  oneLine (Item_Comment item)
  /\ forall r, Item_Rule item = Some r ->
       oneLine (Rule_Value r) /\ oneLine (Rule_Comment r)
       /\ ~ occurs space (Rule_Value r).

(** The items a line can contribute, apart from those of an included
    member, all satisfy [P]. *)
Definition admits (P : Item -> Prop) (filter raw : string) : Prop :=
  let line := TrimSpace raw in
  (HasPrefix line "#" = true -> P (commentItem line))
  /\ (forall p kind,
        snd (parseRuleLine line p kind filter) = true ->
        P (ruleItem (fst (parseRuleLine line p kind filter))))
  /\ P (commentItem ("# " +:+ line)).

(** The rules of the Rule items of a sequence, in order. *)
Definition rulesOf (items : list Item) : list Rule :=
  omap (fun item =>
          match Item_Kind item with
          | ItemRule => Item_Rule item
          | ItemComment => None
          end) items.

End Parser.


(* ===================================================================== *)
(** ** The regex-to-wildcard translator ([internal/wildcard]) *)
(* ===================================================================== *)

Module Wildcard.
Import GoStrings.

(** The operators of [regexp/syntax]; [OpOther] stands for every other
    value of the type, which the [default] branches receive. *)
Inductive Op :=
| OpNoMatch | OpEmptyMatch | OpLiteral | OpCharClass | OpAnyCharNotNL
| OpAnyChar | OpBeginLine | OpEndLine | OpBeginText | OpEndText
| OpWordBoundary | OpNoWordBoundary | OpCapture | OpStar | OpPlus
| OpQuest | OpRepeat | OpConcat | OpAlternate | OpOther.

(** [syntax.Regexp], with the fields the translator reads: the operator,
    the sub-expressions and the runes of a literal. *)
#[warnings="-register-all"]
Inductive Regexp :=
| Re (op : Op) (sub : list Regexp) (rune : list Z).

(** Induction on syntax trees, with the hypothesis for every
    sub-expression. *)
Fixpoint Regexp_tree_ind (P : Regexp -> Prop)
    (step : forall op sub rune, List.Forall P sub -> P (Re op sub rune))
    (re : Regexp) : P re :=
  match re with
  | Re op sub rune =>
      step op sub rune
        ((fix all (l : list Regexp) : List.Forall P l :=
            match l with
            | [] => @List.Forall_nil _ P
            | s :: l' => @List.Forall_cons _ P s l' (Regexp_tree_ind P step s) (all l')
            end) sub)
  end.

Definition Regexp_Op (re : Regexp) : Op := let 'Re op _ _ := re in op.
Definition Regexp_Sub (re : Regexp) : list Regexp := let 'Re _ sub _ := re in sub.
Definition Regexp_Rune (re : Regexp) : list Z := let 'Re _ _ rune := re in rune.

Definition chr (z : Z) : ascii := ascii_of_N (Z.to_N z).

(** The UTF-8 encoding of one rune; a rune that is not a Unicode scalar
    value is encoded as U+FFFD. *)
Definition encodeRune (r : Z) : string :=
  if (r <? 0) || (1114111 <? r) || ((55296 <=? r) && (r <=? 57343)) then
    String (chr 239) (String (chr 191) (String (chr 189) EmptyString))
  else if r <? 128 then String (chr r) EmptyString
  else if r <? 2048 then
    String (chr (Z.lor 192 (Z.shiftr r 6)))
      (String (chr (Z.lor 128 (Z.land r 63))) EmptyString)
  else if r <? 65536 then
    String (chr (Z.lor 224 (Z.shiftr r 12)))
      (String (chr (Z.lor 128 (Z.land (Z.shiftr r 6) 63)))
         (String (chr (Z.lor 128 (Z.land r 63))) EmptyString))
  else
    String (chr (Z.lor 240 (Z.shiftr r 18)))
      (String (chr (Z.lor 128 (Z.land (Z.shiftr r 12) 63)))
         (String (chr (Z.lor 128 (Z.land (Z.shiftr r 6) 63)))
            (String (chr (Z.lor 128 (Z.land r 63))) EmptyString))).

(** [string(re.Rune)]. *)
Definition string_of_runes (rs : list Z) : string :=
  fold_right (fun r acc => encodeRune r +:+ acc) EmptyString rs.

(** What a [strings.Builder] holds after the pieces were written. *)
Definition concatStrings (pieces : list string) : string :=
  fold_right String.append EmptyString pieces.

(** [convertNode]: the wildcard pattern of a syntax tree. *)
Fixpoint convertNode (re : Regexp) : string :=
  let 'Re op sub rune := re in
  match op with
  | OpNoMatch => EmptyString
  | OpEmptyMatch => EmptyString
  | OpLiteral => string_of_runes rune
  | OpCharClass => "?"
  | OpAnyCharNotNL | OpAnyChar => "?"
  | OpBeginLine | OpEndLine | OpBeginText | OpEndText => EmptyString
  | OpWordBoundary | OpNoWordBoundary => EmptyString
  | OpCapture => concatStrings (map convertNode sub)
  | OpStar | OpPlus | OpQuest => "*"
  | OpRepeat => "*"
  | OpConcat => concatStrings (map convertNode sub)
  | OpAlternate => "*"
  | OpOther => "?"
  end.

(** [containsDangerousNode]: the constructs that lose precision. *)
Fixpoint containsDangerousNode (re : Regexp) : bool :=
  let 'Re op sub _ := re in
  match op with
  | OpCharClass => true
  | OpAlternate => true
  | OpRepeat => true
  | OpStar | OpPlus => existsb containsDangerousNode sub
  | OpCapture | OpConcat => existsb containsDangerousNode sub
  | _ => false
  end.

(** The state of the loop of [isBroadPattern]. *)
Record broadState := mkBroad { wildcardOnly : bool; questionCount : Z }.

(** One turn of the loop.  The loop ranges over the runes of the pattern;
    the bytes of a rune outside ASCII are all above 127 and such a rune
    is none of the three characters singled out, so ranging over the
    bytes leaves the same state. *)
Definition broadStep (st : broadState) (c : ascii) : broadState :=
  if Ascii.eqb c "*" then st
  else if Ascii.eqb c "?" then mkBroad (wildcardOnly st) (questionCount st + 1)
  else if Ascii.eqb c "." then mkBroad false (questionCount st)
  else mkBroad false (questionCount st).

Definition isBroadPattern (pattern : string) : bool :=
  let st := fold_left broadStep (list_ascii_of_string pattern) (mkBroad true 0) in
  if wildcardOnly st && (0 <? Z.of_nat (String.length pattern)) then true
  else if 3 <=? questionCount st then true
  else false.

Section WithRegexParser.
(** [syntax.Parse(regex, syntax.Perl)] of Go's standard library; [None]
    is a parse error. *)
Variable syntaxParse : string -> option Regexp.

Definition IsDangerousRegex (regex : string) : bool :=
  let regex := TrimPrefix regex "/" in
  let regex := TrimSuffix regex "/" in
  match syntaxParse regex with
  | None => true
  | Some re =>
      if containsDangerousNode re then true
      else
        let converted := convertNode re in
        isBroadPattern converted
  end.

Definition RegexToWildcard (regex : string) : string :=
  let regex := TrimPrefix regex "/" in
  let regex := TrimSuffix regex "/" in
  match syntaxParse regex with
  | None => EmptyString
  | Some re => convertNode re
  end.
End WithRegexParser.

(** *** The specification's wording of the danger classification *)

Definition isLossyOp (op : Op) : bool :=
  match op with
  | OpCharClass | OpAlternate | OpRepeat => true
  | _ => false
  end.

Definition isQuantifierOp (op : Op) : bool :=
  match op with
  | OpStar | OpPlus | OpQuest => true
  | _ => false
  end.

(** (b) of the specification: the tree contains a char-class, an
    alternation, a bounded repeat, or a quantifier directly wrapping one
    of those. *)
Fixpoint spec_containsLossy (re : Regexp) : bool :=
  let 'Re op sub _ := re in
  isLossyOp op
  || (isQuantifierOp op && existsb (fun s => isLossyOp (Regexp_Op s)) sub)
  || existsb spec_containsLossy sub.

Definition isWildcardOrDot (c : ascii) : bool :=
  Ascii.eqb c "*" || Ascii.eqb c "?" || Ascii.eqb c ".".

Definition countQuestion (w : string) : nat :=
  List.length (List.filter (fun c => Ascii.eqb c "?") (list_ascii_of_string w)).

(** (c) of the specification: the translated string is composed entirely
    of wildcard characters and dots, or contains three or more [?]. *)
Definition spec_broad (w : string) : bool :=
  forallb isWildcardOrDot (list_ascii_of_string w) || (3 <=? countQuestion w)%nat.

(** The pattern handed to the parser: the regex without one leading and
    one trailing slash. *)
Definition unslashed (regex : string) : string :=
  TrimSuffix (TrimPrefix regex "/") "/".

(** [IsDangerous] as the specification words it: (a) or (b) or (c). *)
Definition spec_IsDangerous (syntaxParse : string -> option Regexp)
    (pattern : string) : bool :=
  match syntaxParse (unslashed pattern) with
  | None => true
  | Some re => spec_containsLossy re || spec_broad (convertNode re)
  end.

(** *** The constructs the structural check reaches *)

(** A char-class, an alternation or a bounded repeat, at a place reached
    from the root through capture groups, concatenations and the
    quantifiers [*] and [+] only. *)
Inductive reachesLossy : Regexp -> Prop :=
| reaches_here op sub rune :
    isLossyOp op = true -> reachesLossy (Re op sub rune)
| reaches_below op sub rune s :
    (op = OpStar \/ op = OpPlus \/ op = OpCapture \/ op = OpConcat) ->
    In s sub -> reachesLossy s -> reachesLossy (Re op sub rune).

Definition isWildcard (c : ascii) : bool :=
  Ascii.eqb c "*" || Ascii.eqb c "?".

(** *** Trees of example patterns *)

(** The literal node of a text in ASCII. *)
Definition literal (text : string) : Regexp :=
  Re OpLiteral [] (map (fun ch => Z.of_N (byte ch)) (list_ascii_of_string text)).

(** The char-class node of one range. *)
Definition charRange (lo hi : ascii) : Regexp :=
  Re OpCharClass [] [Z.of_N (byte lo); Z.of_N (byte hi)].

(** The trees [syntax.Parse] builds for a few patterns; every other
    pattern is left unparsed here. *)
Definition sampleParse (regex : string) : option Regexp :=
  if String.eqb regex "[a-z]+\.example\.com" then
    Some (Re OpConcat [Re OpPlus [charRange "a" "z"] []; literal ".example.com"] [])
  else if String.eqb regex "a[b-z]?c" then
    Some (Re OpConcat [literal "a"; Re OpQuest [charRange "b" "z"] []; literal "c"] [])
  else if String.eqb regex ".*\." then
    Some (Re OpConcat [Re OpStar [Re OpAnyCharNotNL [] []] []; literal "."] [])
  else if String.eqb regex "^$" then
    Some (Re OpConcat [Re OpBeginText [] []; Re OpEndText [] []] [])
  else if String.eqb regex ".+" then
    Some (Re OpPlus [Re OpAnyCharNotNL [] []] [])
  else if String.eqb regex "^ab\.com$" then
    Some (Re OpConcat [Re OpBeginText [] []; literal "ab.com"; Re OpEndText [] []] [])
  else None.

End Wildcard.


(* ===================================================================== *)
(** ** The renderers ([RenderSurge], [RenderMihomo]) *)
(* ===================================================================== *)

Module Render.
Import GoStrings.

Definition appendComment (line comment : string) : string :=
  if String.eqb comment EmptyString then line
  else if HasPrefix comment "#" then line +:+ " " +:+ comment
  else line +:+ " # " +:+ comment.

(** [skipPattern.MatchString], for the pattern [^[\?\*]+$]: a non-empty
    string of [?] and [*] only. *)
Definition skipPattern_MatchString (s : string) : bool :=
  negb (String.eqb s EmptyString)
  && forallb (fun c => Ascii.eqb c "?" || Ascii.eqb c "*") (list_ascii_of_string s).

Definition renderMihomoRule (rule : Rule) : string :=
  match Rule_Kind rule with
  | RuleDomainSuffix => appendComment ("DOMAIN-SUFFIX," +:+ Rule_Value rule) (Rule_Comment rule)
  | RuleDomain => appendComment ("DOMAIN," +:+ Rule_Value rule) (Rule_Comment rule)
  | RuleDomainKeyword => appendComment ("DOMAIN-KEYWORD," +:+ Rule_Value rule) (Rule_Comment rule)
  | RuleDomainRegex => appendComment ("DOMAIN-REGEX," +:+ Rule_Value rule) (Rule_Comment rule)
  end.

(** The three local variables of the rendering loops. *)
Record renderState := mkRenderState {
  result_lines : list string;
  pendingIncludeComments : list string;
  pendingComment : string
}.

Definition renderInit : renderState := mkRenderState [] [] EmptyString.

(** One turn of the loop of [RenderSurge] and of [RenderMihomo], which
    differ in [renderRule] only. *)
Definition renderStep (renderRule : Rule -> string) (st : renderState)
    (item : Item) : renderState :=
  match Item_Kind item with
  | ItemComment =>
      let trimmed := TrimSpace (Item_Comment item) in
      if HasPrefix trimmed "# include:" then
        mkRenderState (result_lines st)
          (pendingIncludeComments st ++ [Item_Comment item]) (pendingComment st)
      else
        mkRenderState (result_lines st) (pendingIncludeComments st) (Item_Comment item)
  | ItemRule =>
      match Item_Rule item with
      | None => st
      | Some rule =>
          let line := renderRule rule in
          let trimmed := TrimSpace line in
          if HasPrefix trimmed "#" then
            mkRenderState (result_lines st) (pendingIncludeComments st) line
          else
            let result := result_lines st in
            let result :=
              if (0 <? Z.of_nat (List.length (pendingIncludeComments st)))
              then result ++ pendingIncludeComments st else result in
            let result :=
              if negb (String.eqb (pendingComment st) EmptyString)
              then result ++ [pendingComment st] else result in
            mkRenderState (result ++ [line]) [] EmptyString
      end
  end.

Definition renderLoop (renderRule : Rule -> string) (items : list Item)
    (st : renderState) : renderState :=
  fold_left (renderStep renderRule) items st.

Definition RenderMihomo (items : list Item) : string :=
  Join (result_lines (renderLoop renderMihomoRule items renderInit)) (String Parser.newline EmptyString).

Section WithRegexParser.
Variable syntaxParse : string -> option Wildcard.Regexp.

Definition renderSurgeRule (rule : Rule) : string :=
  match Rule_Kind rule with
  | RuleDomainSuffix => appendComment ("DOMAIN-SUFFIX," +:+ Rule_Value rule) (Rule_Comment rule)
  | RuleDomain => appendComment ("DOMAIN," +:+ Rule_Value rule) (Rule_Comment rule)
  | RuleDomainKeyword => appendComment ("DOMAIN-KEYWORD," +:+ Rule_Value rule) (Rule_Comment rule)
  | RuleDomainRegex =>
      if Wildcard.IsDangerousRegex syntaxParse (Rule_Value rule) then
        appendComment ("# DANGEROUS-REGEX," +:+ Rule_Value rule) (Rule_Comment rule)
      else
        let wildcardPattern := Wildcard.RegexToWildcard syntaxParse (Rule_Value rule) in
        let prefix :=
          if skipPattern_MatchString wildcardPattern
          then "# SKIPPED-DOMAIN-WILDCARD," else "DOMAIN-WILDCARD," in
        appendComment (prefix +:+ wildcardPattern) (Rule_Comment rule)
  end.

Definition RenderSurge (items : list Item) : string :=
  Join (result_lines (renderLoop renderSurgeRule items renderInit)) (String Parser.newline EmptyString).
End WithRegexParser.

(** Whether the loops treat a comment as the echo of an include. *)
Definition isIncludeEcho (comment : string) : bool :=
  HasPrefix (TrimSpace comment) "# include:".

(** Whether the loops take a rendered rule line for a comment. *)
Definition isCommentedOut (line : string) : bool :=
  HasPrefix (TrimSpace line) "#".

(** A Comment item that is not the echo of an include. *)
Definition ordinaryComment (item : Item) : Prop :=
  Item_Kind item = ItemComment /\ isIncludeEcho (Item_Comment item) = false.

(** The lines written so far when the loop has gone through [items]. *)
Definition linesOf (renderRule : Rule -> string) (items : list Item) : list string :=
  result_lines (renderLoop renderRule items renderInit).

(** *** [RenderEgern] *)

(** [strings.TrimRight(s, cutset)] for a cutset of one byte. *)
Fixpoint dropLeading (c : ascii) (l : list ascii) : list ascii :=
  match l with
  | [] => []
  | d :: l' => if Ascii.eqb d c then dropLeading c l' else l
  end.

Definition TrimRight (s : string) (c : ascii) : string :=
  string_of_list_ascii (rev (dropLeading c (rev (list_ascii_of_string s)))).

(** The four sequences [RenderEgern] collects. *)
Record egernSets := mkEgernSets {
  domainSet : list string;
  domainSuffixSet : list string;
  domainKeywordSet : list string;
  domainRegexSet : list string
}.

(** One turn of the first loop of [RenderEgern]. *)
Definition egernStep (sets : egernSets) (item : Item) : egernSets :=
  match Item_Kind item, Item_Rule item with
  | ItemRule, Some rule =>
      match Rule_Kind rule with
      | RuleDomain =>
          mkEgernSets (domainSet sets ++ [Rule_Value rule]) (domainSuffixSet sets)
            (domainKeywordSet sets) (domainRegexSet sets)
      | RuleDomainSuffix =>
          mkEgernSets (domainSet sets) (domainSuffixSet sets ++ [Rule_Value rule])
            (domainKeywordSet sets) (domainRegexSet sets)
      | RuleDomainKeyword =>
          mkEgernSets (domainSet sets) (domainSuffixSet sets)
            (domainKeywordSet sets ++ [Rule_Value rule]) (domainRegexSet sets)
      | RuleDomainRegex =>
          mkEgernSets (domainSet sets) (domainSuffixSet sets)
            (domainKeywordSet sets) (domainRegexSet sets ++ [Rule_Value rule])
      end
  | _, _ => sets
  end.

Section WithQuote.
(** [strconv.Quote] of Go's standard library. *)
Variable Quote : string -> string.

Definition lf : string := String Parser.newline EmptyString.

(** The closure [appendSet], [b] being what the builder holds. *)
Definition appendSet (b name : string) (values : list string) : string :=
  if (Z.of_nat (List.length values) =? 0) then b
  else
    fold_left (fun b value => ((b +:+ "  - ") +:+ Quote value) +:+ lf)
      values ((b +:+ name) +:+ (":" +:+ lf)).

Definition RenderEgern (items : list Item) : string :=
  let sets := fold_left egernStep items (mkEgernSets [] [] [] []) in
  let b := EmptyString in
  let b := appendSet b "domain_set" (domainSet sets) in
  let b := appendSet b "domain_suffix_set" (domainSuffixSet sets) in
  let b := appendSet b "domain_keyword_set" (domainKeywordSet sets) in
  let b := appendSet b "domain_regex_set" (domainRegexSet sets) in
  TrimRight b Parser.newline.
End WithQuote.

(** The values of the rules of one kind, in order. *)
Definition RuleKind_eqb (a b : RuleKind) : bool :=
  match a, b with
  | RuleDomainSuffix, RuleDomainSuffix | RuleDomain, RuleDomain
  | RuleDomainKeyword, RuleDomainKeyword | RuleDomainRegex, RuleDomainRegex => true
  | _, _ => false
  end.

Definition valuesOf (kind : RuleKind) (items : list Item) : list string :=
  map Rule_Value
    (List.filter (fun r => RuleKind_eqb (Rule_Kind r) kind) (Parser.rulesOf items)).

(** The lines of the rules that the loop does not take for comments. *)
Definition enabledLines (renderRule : Rule -> string) (items : list Item)
    : list string :=
  List.filter (fun line => negb (isCommentedOut line))
    (map renderRule (Parser.rulesOf items)).

(** Whether a text starts with the first letter of the set names. *)
Definition startsWithD (b : string) : Prop := exists b', b = String "d" b'.

(** The loop holds no text with a line break. *)
Definition oneLineState (st : renderState) : Prop :=
  Forall Parser.oneLine (result_lines st)
  /\ Forall Parser.oneLine (pendingIncludeComments st)
  /\ Parser.oneLine (pendingComment st).

End Render.

(* ===================================================================== *)
(** ** The caches ([internal/cache]) *)
(* ===================================================================== *)

Module Cache.

(** [time.Duration] is a signed 64-bit count of nanoseconds; [Time.Sub]
    saturates at its bounds. *)
Definition maxDuration : Z := 9223372036854775807.
Definition minDuration : Z := -9223372036854775808.

Definition Sub (t u : Z) : Z :=
  let d := t - u in
  if maxDuration <? d then maxDuration
  else if d <? minDuration then minDuration
  else d.

(** [time.Since(t)], [now] being the reading of the clock. *)
Definition Since (now t : Z) : Z := Sub now t.

Record cacheEntry := mkCacheEntry {
  value : string;
  timestamp : Z;
  etag : string
}.

Record ResultCache := mkResultCache {
  results : gmap string cacheEntry;
  ttl : Z
}.

Definition NewResultCache (ttl : Z) : ResultCache := mkResultCache ∅ ttl.

Definition ResultCache_Get (c : ResultCache) (key etag_ : string) (now : Z) : string * bool :=
  match results c !! key with
  | None => (EmptyString, false)
  | Some entry =>
      if negb (String.eqb (etag entry) etag_) || (ttl c <? Since now (timestamp entry))
      then (EmptyString, false)
      else (value entry, true)
  end.

Definition ResultCache_Set (c : ResultCache) (key value_ etag_ : string) (now : Z) : ResultCache :=
  mkResultCache (<[key := mkCacheEntry value_ now etag_]> (results c)) (ttl c).

Definition ResultCache_Cleanup (c : ResultCache) (now : Z) : ResultCache :=
  mkResultCache
    (filter (fun kv => negb (ttl c <? Sub now (timestamp (snd kv)))) (results c))
    (ttl c).

(** The operations that write to a [ResultCache], and a sequence of them
    applied in order. *)
Inductive cacheOp :=
| DoSet (key value_ etag_ : string) (now : Z)
| DoCleanup (now : Z).

Definition applyOp (c : ResultCache) (op : cacheOp) : ResultCache :=
  match op with
  | DoSet key value_ etag_ now => ResultCache_Set c key value_ etag_ now
  | DoCleanup now => ResultCache_Cleanup c now
  end.

Definition applyOps (ops : list cacheOp) (c : ResultCache) : ResultCache :=
  fold_left applyOp ops c.

Section Zip.
(** [*zip.Reader], and [zip.NewReader] on the bytes of an archive. *)
Context {Reader : Type}.
Variable zipNewReader : string -> Reader + error.

Record ZipCache := mkZipCache {
  zc_data : string;
  zc_reader : option Reader;
  zc_etag : string;
  zc_timestamp : Z;
  zc_ttl : Z;
  zc_persistPath : string
}.

(** [persistToFileLocked] writes to the file system; its outcome is an
    input of the model. *)
Variable persistToFileLocked : ZipCache -> option error.

Definition NewZipCache (ttl : Z) : ZipCache :=
  mkZipCache EmptyString None EmptyString 0 ttl EmptyString.

Definition ZipCache_Get (c : ZipCache) (now : Z) : option Reader * string * bool :=
  match zc_reader c with
  | None => (None, EmptyString, false)
  | Some r =>
      if zc_ttl c <? Since now (zc_timestamp c) then (None, zc_etag c, false)
      else (Some r, zc_etag c, true)
  end.

Definition ZipCache_GetAny (c : ZipCache) : option Reader * string * bool :=
  match zc_reader c with
  | None => (None, EmptyString, false)
  | Some r => (Some r, zc_etag c, true)
  end.

Definition ZipCache_Set (c : ZipCache) (data etag_ : string) (now : Z)
    : ZipCache * option error :=
  match zipNewReader data with
  | inr err => (c, Some err)
  | inl reader =>
      let c' := mkZipCache data (Some reader) etag_ now (zc_ttl c) (zc_persistPath c) in
      if String.eqb (zc_persistPath c') EmptyString then (c', None)
      else (c', persistToFileLocked c')
  end.

Definition ZipCache_GetETag (c : ZipCache) : string := zc_etag c.
End Zip.
Arguments ZipCache : clear implicits.

End Cache.

(* ===================================================================== *)
(** ** The fetcher ([internal/fetcher]) *)
(* ===================================================================== *)

Module Fetcher.
Import Cache.

(** The requests a call sends upstream. *)
Inductive request := HeadRequest | DownloadRequest.

(** What upstream answers during one call: the outcome of [GetETag] and
    of [downloadZip]. *)
Record upstream := mkUpstream {
  GetETag : string * option error;
  downloadZip : string * option error
}.

(** The readings of the clock during one call: at the first
    [zipCache.Get], at [zipCache.Set] and at the last [zipCache.Get]. *)
Record clock := mkClock { t_get : Z; t_set : Z; t_reget : Z }.

Section WithArchive.
Context {Reader : Type}.
Variable zipNewReader : string -> Reader + error.
Variable persistToFileLocked : ZipCache Reader -> option error.

(** The result of a call: the cache afterwards, the requests sent, and
    the three values returned. *)
Record outcome := mkOutcome {
  cache_after : ZipCache Reader;
  sent : list request;
  ret_reader : option Reader;
  ret_etag : string;
  ret_err : option error
}.

Definition GetZipReader (c : ZipCache Reader) (up : upstream) (clk : clock) : outcome :=
  let '(reader, etag_, ok) := ZipCache_Get c (t_get clk) in
  if ok then mkOutcome c [] reader etag_ None
  else
    match GetETag up with
    | (_, Some err) =>
        match reader with
        | Some r => mkOutcome c [HeadRequest] (Some r) etag_ None
        | None =>
            mkOutcome c [HeadRequest] None EmptyString
              (Some ("failed to get ETag: " +:+ err))
        end
    | (newETag, None) =>
        if String.eqb etag_ newETag && bool_decide (is_Some reader) then
          mkOutcome c [HeadRequest] reader etag_ None
        else
          match downloadZip up with
          | (_, Some err) =>
              mkOutcome c [HeadRequest; DownloadRequest] None EmptyString (Some err)
          | (data, None) =>
              match ZipCache_Set zipNewReader persistToFileLocked c data newETag (t_set clk) with
              | (c', Some err) =>
                  mkOutcome c' [HeadRequest; DownloadRequest] None EmptyString
                    (Some ("failed to set cache: " +:+ err))
              | (c', None) =>
                  let '(reader, _, _) := ZipCache_Get c' (t_reget clk) in
                  mkOutcome c' [HeadRequest; DownloadRequest] reader newETag None
              end
          end
    end.

Definition RefreshZipReader (c : ZipCache Reader) (up : upstream) (clk : clock) : outcome :=
  let '(reader, etag_, _) := ZipCache_GetAny c in
  match GetETag up with
  | (_, Some err) =>
      match reader with
      | Some r => mkOutcome c [HeadRequest] (Some r) etag_ None
      | None =>
          mkOutcome c [HeadRequest] None EmptyString
            (Some ("failed to get ETag: " +:+ err))
      end
  | (newETag, None) =>
      if String.eqb etag_ newETag && bool_decide (is_Some reader) then
        mkOutcome c [HeadRequest] reader etag_ None
      else
        match downloadZip up with
        | (_, Some err) =>
            mkOutcome c [HeadRequest; DownloadRequest] None EmptyString (Some err)
        | (data, None) =>
            match ZipCache_Set zipNewReader persistToFileLocked c data newETag (t_set clk) with
            | (c', Some err) =>
                mkOutcome c' [HeadRequest; DownloadRequest] None EmptyString
                  (Some ("failed to set cache: " +:+ err))
            | (c', None) =>
                let '(reader, _, _) := ZipCache_GetAny c' in
                mkOutcome c' [HeadRequest; DownloadRequest] reader newETag None
            end
        end
  end.
(** The state [Set] installs for downloaded bytes. *)
Definition installed (c : ZipCache Reader) (data f : string) (r : Reader)
    (t : Z) : ZipCache Reader :=
  mkZipCache data (Some r) f t (zc_ttl c) (zc_persistPath c).

End WithArchive.

(** *** An example state

    A cache holding an archive fetched at time 0 with a TTL of 10, and a
    clock that reads 20 when the cache is looked up.  Archives are
    numbered; no download is accepted as an archive and nothing is
    persisted. *)
Definition staleCache : ZipCache nat :=
  mkZipCache "PK" (Some 1%nat) "etag-1" 0 10 EmptyString.
Definition lateClock : clock := mkClock 20 21 22.
Definition noReader : string -> nat + error := fun _ => inr "zip: not a valid zip file".
Definition noPersist : ZipCache nat -> option error := fun _ => None.

(** An archive reader that accepts every download. *)
Definition anyReader : string -> nat + error := fun _ => inl 2%nat.

End Fetcher.


(* ===================================================================== *)
(** ** The request handler ([internal/server]) *)
(* ===================================================================== *)

Module Server.
Import GoStrings Cache Fetcher Parser Render.

(** A [zip.File]: its name, and what opening and reading it gives. *)
Record zipFile := mkZipFile {
  zf_Name : string;
  zf_Read : string * option error
}.

(** A [zip.Reader] that is not nil: its [File] slice. *)
Record zipArchive := mkZipArchive { File : list zipFile }.

(** The loop of [Fetcher.GetFileContent] over the files. *)
Fixpoint findFile (files : list zipFile) (filePath : string) : string * option error :=
  match files with
  | [] => (EmptyString, Some ("file not found: " +:+ filePath))
  | file :: files' =>
      if String.eqb (zf_Name file) filePath then
        match zf_Read file with
        | (_, Some err) => (EmptyString, Some err)
        | (content, None) => (content, None)
        end
      else findFile files' filePath
  end.

Definition GetFileContent (reader : zipArchive) (name : string)
    : string * option error :=
  let filePath := "domain-list-community-master/data/" +:+ name in
  findFile (File reader) filePath.

(** What a request is answered with: a response with its status, content
    type and body; the nil dereference of [GetFileContent] on a nil
    archive; or no answer within the include depth allowed. *)
Inductive reply :=
| Response (status : Z) (contentType body : string)
| NilDereference
| NoReply.

(** [http.Error]. *)
Definition httpError (msg : string) (code : Z) : reply :=
  Response code "text/plain; charset=utf-8" (msg +:+ lf).

Definition writeRulesetResponse (format body : string) : reply :=
  let contentType :=
    if String.eqb format "egern" then "text/yaml; charset=utf-8"
    else "text/plain; charset=utf-8" in
  Response 200 contentType body.

(** The server: its fetcher's archive cache and its result cache. *)
Record server := mkServer {
  zipCache : ZipCache zipArchive;
  resultCache : ResultCache
}.

(** The readings of the clock while a request is handled: those of
    [GetZipReader], that of [resultCache.Get] and that of
    [resultCache.Set]. *)
Record times := mkTimes { t_fetch : clock; t_lookup : Z; t_store : Z }.

Section WithLibraries.
(** [strings.ToLower], [zip.NewReader], the outcome of persisting,
    [syntax.Parse] and [strconv.Quote]. *)
Variable ToLower : string -> string.
Variable zipNewReader : string -> zipArchive + error.
Variable persistToFileLocked : ZipCache zipArchive -> option error.
Variable syntaxParse : string -> option Wildcard.Regexp.
Variable Quote : string -> string.

(** [Converter.Convert], [ConvertMihomo] and [ConvertEgern]; [fuel]
    bounds the include depth of [Parse]. *)
Definition Convert (fuel : nat) (c : Converter zipArchive)
    (upstreamContent filter : string) : result string :=
  match Parse fuel c upstreamContent filter with
  | Ok items => Ok (RenderSurge syntaxParse items)
  | Err e => Err e
  | OutOfFuel => OutOfFuel
  end.

Definition ConvertMihomo (fuel : nat) (c : Converter zipArchive)
    (upstreamContent filter : string) : result string :=
  match Parse fuel c upstreamContent filter with
  | Ok items => Ok (RenderMihomo items)
  | Err e => Err e
  | OutOfFuel => OutOfFuel
  end.

Definition ConvertEgern (fuel : nat) (c : Converter zipArchive)
    (upstreamContent filter : string) : result string :=
  match Parse fuel c upstreamContent filter with
  | Ok items => Ok (RenderEgern Quote items)
  | Err e => Err e
  | OutOfFuel => OutOfFuel
  end.

(** The name with its filter, as [handleRuleset] reads it off the path. *)
Definition nameWithFilterOf (urlPath prefix : string) : string :=
  ToLower (TrimSpace (TrimPrefix urlPath prefix)).

(** The key under which [handleRuleset] caches the result of a
    request. *)
Definition cacheKeyOf (urlPath prefix format : string) : string :=
  format +:+ ":" +:+ nameWithFilterOf urlPath prefix.

(** Whether [handleRuleset] finds a name in the path: the text is not
    empty and does not start with [@]. *)
Definition hasName (urlPath prefix : string) : bool :=
  negb (String.eqb (nameWithFilterOf urlPath prefix) EmptyString)
  && negb (HasPrefix (nameWithFilterOf urlPath prefix) "@").

(** [handleRuleset]: the server afterwards and the answer.  The log lines
    are left out. *)
Definition handleRuleset (s : server) (up : upstream) (tm : times) (fuel : nat)
    (urlPath prefix format : string) : server * reply :=
  let nameWithFilter := nameWithFilterOf urlPath prefix in
  if String.eqb nameWithFilter EmptyString then
    (s, httpError "Invalid name parameter" 400)
  else
    let '(name, filter) :=
      if negb (Index nameWithFilter "@" =? -1) then
        let parts := SplitN2 nameWithFilter "@" in
        (nth 0 parts EmptyString, nth 1 parts EmptyString)
      else (nameWithFilter, EmptyString) in
    if String.eqb name EmptyString then
      (s, httpError "Invalid name parameter" 400)
    else
      let o := GetZipReader zipNewReader persistToFileLocked (zipCache s) up (t_fetch tm) in
      let s := mkServer (cache_after o) (resultCache s) in
      match ret_err o with
      | Some err => (s, httpError ("Failed to fetch upstream: " +:+ err) 500)
      | None =>
          let etag_ := ret_etag o in
          let cacheKey := format +:+ ":" +:+ nameWithFilter in
          match ResultCache_Get (resultCache s) cacheKey etag_ (t_lookup tm) with
          | (result, true) => (s, writeRulesetResponse format result)
          | (_, false) =>
              match ret_reader o with
              | None => (s, NilDereference)
              | Some zipReader_ =>
                  match GetFileContent zipReader_ name with
                  | (_, Some err) =>
                      (s, httpError ("Failed to get upstream content: " +:+ err) 500)
                  | (upstreamContent, None) =>
                      let conv := NewConverter zipReader_ GetFileContent in
                      let converted :=
                        if String.eqb format "mihomo" then
                          ConvertMihomo fuel conv upstreamContent filter
                        else if String.eqb format "egern" then
                          ConvertEgern fuel conv upstreamContent filter
                        else Convert fuel conv upstreamContent filter in
                      match converted with
                      | Err err => (s, httpError ("Failed to convert: " +:+ err) 500)
                      | OutOfFuel => (s, NoReply)
                      | Ok output =>
                          (mkServer (zipCache s)
                             (ResultCache_Set (resultCache s) cacheKey output etag_
                                (t_store tm)),
                           writeRulesetResponse format output)
                      end
                  end
              end
          end
      end.
End WithLibraries.

(** *** An example server

    An archive with two members, a lower-casing that leaves lower-case
    ASCII as it is, and a server whose caches are empty. *)
Definition sampleZip : zipArchive :=
  mkZipArchive
    [mkZipFile "domain-list-community-master/data/google"
       ("domain:google.com" +:+ String newline "full:www.google.cn @cn", None);
     mkZipFile "domain-list-community-master/data/cn"
       ("include:google" +:+ String newline "domain:qq.com @cn", None)].
Definition idLower : string -> string := fun s => s.
Definition sampleReader : string -> zipArchive + error := fun _ => inl sampleZip.
Definition neverPersist : ZipCache zipArchive -> option error := fun _ => None.
Definition neverParse : string -> option Wildcard.Regexp := fun _ => None.
Definition idQuote : string -> string := fun s => s.
Definition emptyServer (zipTTL resultTTL : Z) : server :=
  mkServer (NewZipCache zipTTL) (NewResultCache resultTTL).
Definition sampleUpstream : upstream := mkUpstream ("etag-1", None) ("PK", None).
Definition firstTimes : times := mkTimes (mkClock 1 2 3) 4 5.
Definition secondTimes : times := mkTimes (mkClock 6 7 8) 9 10.

End Server.

(* ===================================================================== *)
(** ** The address rules of the monitored servers ([internal/komari]) *)
(* ===================================================================== *)

Module Komari.
Import GoStrings.

Definition ThresholdHK : Z := 60.
Definition ThresholdJP : Z := 100.
Definition ThresholdUS : Z := 160.

Definition FilterNone : string := EmptyString.
Definition FilterDirect : string := "DIRECT".
Definition FilterProxy : string := "PROXY".

Record KomariClient := mkKomariClient {
  UUID : string;
  Name : string;
  IPv4 : string;
  IPv6 : string;
  Region : string;
  Group : string
}.

Record IPCIDR := mkIPCIDR {
  IP : string;
  IsIPv6 : bool;
  Comment : string
}.

(** The regions are flags, each a pair of regional indicator symbols. *)
Definition regionHK : string := Wildcard.string_of_runes [127469; 127472].
Definition regionJP : string := Wildcard.string_of_runes [127471; 127477].
Definition regionUS : string := Wildcard.string_of_runes [127482; 127480].
Definition regionCN : string := Wildcard.string_of_runes [127464; 127475].

Definition getThreshold (region : string) : Z :=
  if String.eqb region regionHK then ThresholdHK
  else if String.eqb region regionJP then ThresholdJP
  else if String.eqb region regionUS then ThresholdUS
  else 0.

Definition isChinaRegion (region : string) : bool := String.eqb region regionCN.

Definition Contains (s substr : string) : bool := negb (Index s substr =? -1).

(** The loop of [normalizeIPv6] over [parts], [len] being [len(parts)],
    [i] the index of the head of [rest]. *)
Fixpoint expandLoop (len i : Z) (rest expanded : list string) : list string :=
  match rest with
  | [] => expanded
  | part :: rest' =>
      let expanded :=
        if String.eqb part EmptyString && (0 <? i) && (i <? len - 1) then
          let missing := 8 - len + 1 in
          expanded ++ repeat "0" (Z.to_nat missing)
        else if negb (String.eqb part EmptyString) then expanded ++ [part]
        else if (i =? 0) || (i =? len - 1) then expanded ++ ["0"]
        else expanded in
      expandLoop len (i + 1) rest' expanded
  end.

Definition normalizeIPv6 (ipv6 : string) : string :=
  let idx := Index ipv6 "/" in
  let ipv6 := if negb (idx =? -1) then substring 0 (Z.to_nat idx) ipv6 else ipv6 in
  let parts := Split ipv6 ":" in
  let parts :=
    if Contains ipv6 "::" then expandLoop (Z.of_nat (List.length parts)) 0 parts []
    else parts in
  if 4 <=? Z.of_nat (List.length parts) then Join (firstn 4 parts) ":" +:+ "::"
  else ipv6.

(** Whether [GenerateIPCIDR] passes over a client; [getPing] is [None]
    for a nil function. *)
Definition skipsClient (filter : string) (getPing : option (string -> Z))
    (client : KomariClient) : bool :=
  if isChinaRegion (Region client) then true
  else if String.eqb (IPv4 client) EmptyString && String.eqb (IPv6 client) EmptyString
  then true
  else
    match getPing with
    | Some getPing =>
        if negb (String.eqb filter FilterNone) then
          let threshold := getThreshold (Region client) in
          let avgPing := getPing (UUID client) in
          let meetThreshold :=
            (0 <? threshold) && (0 <? avgPing) && (avgPing <=? threshold) in
          if String.eqb filter FilterDirect && negb meetThreshold then true
          else if String.eqb filter FilterProxy && meetThreshold then true
          else false
        else false
    | None => false
    end.

(** One turn of the loop of [GenerateIPCIDR]. *)
Definition generateStep (filter : string) (getPing : option (string -> Z))
    (result : list IPCIDR) (client : KomariClient) : list IPCIDR :=
  if skipsClient filter getPing client then result
  else
    let result :=
      if negb (String.eqb (IPv4 client) EmptyString) then
        result ++ [mkIPCIDR (IPv4 client +:+ "/32") false (Name client)]
      else result in
    if negb (String.eqb (IPv6 client) EmptyString) then
      result ++ [mkIPCIDR (normalizeIPv6 (IPv6 client) +:+ "/64") true (Name client)]
    else result.

Definition GenerateIPCIDR (clients : list KomariClient) (filter : string)
    (getPing : option (string -> Z)) : list IPCIDR :=
  fold_left (generateStep filter getPing) clients [].

Definition surgeLine (cidr : IPCIDR) : string :=
  if IsIPv6 cidr then "IP-CIDR6," +:+ IP cidr else "IP-CIDR," +:+ IP cidr.

Definition RenderSurge (cidrs : list IPCIDR) : string :=
  let builder :=
    fold_left (fun b cidr => b +:+ (surgeLine cidr +:+ Render.lf)) cidrs EmptyString in
  Render.TrimRight builder Parser.newline.

Definition RenderMihomo (cidrs : list IPCIDR) : string := RenderSurge cidrs.

(** The two sequences [RenderEgern] collects. *)
Definition egernStep (lists : list string * list string) (cidr : IPCIDR)
    : list string * list string :=
  if IsIPv6 cidr then (fst lists, snd lists ++ [IP cidr])
  else (fst lists ++ [IP cidr], snd lists).

Definition writeList (b name : string) (ips : list string) : string :=
  if (0 <? Z.of_nat (List.length ips)) then
    fold_left (fun b ip => ((b +:+ "  - ") +:+ ip) +:+ Render.lf) ips (b +:+ name)
  else b.

Definition RenderEgern (cidrs : list IPCIDR) : string :=
  let lists := fold_left egernStep cidrs ([], []) in
  let b := EmptyString in
  let b := writeList b ("ip_cidr_set:" +:+ Render.lf) (fst lists) in
  let b := writeList b ("ip_cidr6_set:" +:+ Render.lf) (snd lists) in
  Render.TrimRight b Parser.newline.

(** *** Vocabulary of the properties *)

(** What one client contributes when it is not passed over. *)
Definition rulesOfClient (client : KomariClient) : list IPCIDR :=
  (if String.eqb (IPv4 client) EmptyString then []
   else [mkIPCIDR (IPv4 client +:+ "/32") false (Name client)])
  ++ (if String.eqb (IPv6 client) EmptyString then []
      else [mkIPCIDR (normalizeIPv6 (IPv6 client) +:+ "/64") true (Name client)]).

(** The latency of a client is within the threshold of its region. *)
Definition lowLatency (getPing : string -> Z) (client : KomariClient) : Prop :=
  0 < getPing (UUID client) <= getThreshold (Region client).

(** The addresses of one family, in order. *)
Definition addressesOf (v6 : bool) (cidrs : list IPCIDR) : list string :=
  map IP (List.filter (fun cidr => Bool.eqb (IsIPv6 cidr) v6) cidrs).

(** The lines of a set of the Egern output. *)
Definition setLines (name : string) (ips : list string) : list string :=
  match ips with
  | [] => []
  | _ => name :: map (fun ip => "  - " +:+ ip) ips
  end.

(** The filter and the latencies admit a client. *)
Definition admitted (filter : string) (getPing : option (string -> Z))
    (client : KomariClient) : Prop :=
  match getPing with
  | Some getPing =>
      (filter = FilterDirect -> lowLatency getPing client)
      /\ (filter = FilterProxy -> ~ lowLatency getPing client)
  | None => True
  end.

(** What a builder holds after the lines were written, each followed by
    a line break. *)
Definition linesText (lines : list string) : string :=
  fold_right (fun line rest => (line +:+ Render.lf) +:+ rest) EmptyString lines.

(** A text whose last byte is not a line break. *)
Definition endsWithText (s : string) : Prop :=
  exists s' ch, s = s' +:+ String ch EmptyString /\ ch <> Parser.newline.

Definition sampleClients : list KomariClient :=
  [mkKomariClient "u1" "tokyo" "192.0.2.1" "2001:db8::1/128" regionJP "JP";
   mkKomariClient "u2" "beijing" "192.0.2.2" EmptyString regionCN "CN";
   mkKomariClient "u3" "berlin" "192.0.2.3" EmptyString "DE" "DE";
   mkKomariClient "u4" "osaka" "192.0.2.4" EmptyString regionJP "JP"].
Definition samplePing (uuid : string) : Z :=
  if String.eqb uuid "u1" then 40 else if String.eqb uuid "u3" then 20 else 250.

End Komari.


(* ===================================================================== *)
(** * Properties *)
(* ===================================================================== *)

(** ** Go's string functions *)

Module GoStringsFacts.
Import GoStrings.

Lemma append_nil_r (s : string) : s +:+ EmptyString = s.
Proof. induction s as [|c s IH]; simpl; [reflexivity|now rewrite IH]. Qed.

Lemma append_assoc (a b c : string) : (a +:+ b) +:+ c = a +:+ b +:+ c.
Proof. induction a as [|x a IH]; simpl; [reflexivity|now rewrite IH]. Qed.

Lemma length_append (a b : string) :
  String.length (a +:+ b) = (String.length a + String.length b)%nat.
Proof. induction a as [|x a IH]; simpl; [reflexivity|now rewrite IH]. Qed.

Lemma HasPrefix_append (p s : string) : HasPrefix (p +:+ s) p = true.
Proof.
  induction p as [|c p IH]; simpl; [reflexivity|].
  now rewrite Ascii.eqb_refl, IH.
Qed.

Lemma HasPrefix_split (s p : string) :
  HasPrefix s p = true -> s = p +:+ skip (String.length p) s.
Proof.
  revert s. induction p as [|c p IH]; intros s H; simpl in *; [reflexivity|].
  destruct s as [|d s]; [discriminate|].
  apply andb_prop in H as [Hc Hp]. apply Ascii.eqb_eq in Hc. subst d.
  simpl. f_equal. now apply IH.
Qed.

Lemma skip_append (p s : string) : skip (String.length p) (p +:+ s) = s.
Proof. induction p as [|c p IH]; simpl; [reflexivity|exact IH]. Qed.

Lemma TrimPrefix_append (p s : string) : TrimPrefix (p +:+ s) p = s.
Proof. unfold TrimPrefix. now rewrite HasPrefix_append, skip_append. Qed.

(** Two decompositions of one string: the shorter left part is a prefix
    of the longer one. *)
Lemma append_eq_append (a x b y : string) :
  a +:+ x = b +:+ y ->
  (String.length a <= String.length b)%nat ->
  exists m, b = a +:+ m /\ x = m +:+ y.
Proof.
  revert b. induction a as [|c a IH]; intros b H Hlen; simpl in *.
  - exists b. now split.
  - destruct b as [|d b]; simpl in *; [lia|].
    injection H as -> H. apply IH in H as (m & -> & ->); [|lia].
    now exists m.
Qed.

Lemma occurs_split (c : ascii) (s : string) :
  occurs c s -> exists a b, s = a +:+ String c b.
Proof.
  unfold occurs. induction s as [|d s IH]; simpl; [tauto|].
  intros [->|H].
  - now exists EmptyString, s.
  - destruct (IH H) as (a & b & ->). now exists (String d a), b.
Qed.

Lemma occurs_append (c : ascii) (a b : string) :
  occurs c (a +:+ b) <-> occurs c a \/ occurs c b.
Proof.
  unfold occurs. induction a as [|d a IH]; simpl; [tauto|]. rewrite IH. tauto.
Qed.

(** *** [Index] *)

Lemma Index_lower (s sub : string) : -1 <= Index s sub.
Proof.
  induction s as [|c s IH]; simpl.
  - destruct sub; simpl; lia.
  - destruct (HasPrefix (String c s) sub); [lia|].
    destruct (Index s sub =? -1) eqn:E; lia.
Qed.

Lemma Index_found (s sub : string) :
  Index s sub <> -1 ->
  exists pre post,
    s = pre +:+ sub +:+ post
    /\ Index s sub = Z.of_nat (String.length pre)
    /\ forall pre' post', s = pre' +:+ sub +:+ post' ->
         (String.length pre <= String.length pre')%nat.
Proof.
  induction s as [|c s IH]; intros Hfound.
  - simpl in Hfound. destruct sub as [|d sub]; simpl in Hfound; [|lia].
    exists EmptyString, EmptyString. simpl. repeat split. intros; lia.
  - cbn [Index] in *. destruct (HasPrefix (String c s) sub) eqn:Hp.
    + exists EmptyString, (skip (String.length sub) (String c s)).
      split; [now apply HasPrefix_split|]. split; [reflexivity|]. simpl. intros; lia.
    + destruct (Index s sub =? -1) eqn:E; [lia|]. apply Z.eqb_neq in E.
      destruct (IH E) as (pre & post & Hs & Hi & Hmin).
      exists (String c pre), post. split; [simpl; now rewrite <- Hs|].
      split; [rewrite Hi; simpl String.length; lia|].
      intros pre' post' Heq. destruct pre' as [|d pre'].
      * simpl in Heq. rewrite Heq, HasPrefix_append in Hp. discriminate.
      * simpl in Heq. injection Heq as -> Heq. apply Hmin in Heq. simpl. lia.
Qed.

Lemma Index_absent (s sub : string) :
  Index s sub = -1 -> forall pre post, s <> pre +:+ sub +:+ post.
Proof.
  induction s as [|c s IH]; intros Habs pre post Heq.
  - simpl in Habs. destruct sub as [|d sub]; simpl in Habs; [lia|].
    destruct pre; discriminate.
  - cbn [Index] in Habs. destruct (HasPrefix (String c s) sub) eqn:Hp; [lia|].
    destruct (Index s sub =? -1) eqn:E.
    + apply Z.eqb_eq in E. destruct pre as [|d pre].
      * simpl in Heq. rewrite Heq, HasPrefix_append in Hp. discriminate.
      * simpl in Heq. injection Heq as -> Heq. exact (IH E _ _ Heq).
    + pose proof (Index_lower s sub). apply Z.eqb_neq in E. lia.
Qed.

(** *** [SplitN2] *)

Lemma SplitN2_no_sep (s : string) (sep : ascii) :
  ~ occurs sep s -> SplitN2 s sep = [s].
Proof.
  unfold occurs. induction s as [|c s IH]; simpl; intros H; [reflexivity|].
  destruct (Ascii.eqb c sep) eqn:E.
  - apply Ascii.eqb_eq in E. tauto.
  - rewrite IH by tauto. reflexivity.
Qed.

Lemma SplitN2_sep (a b : string) (sep : ascii) :
  ~ occurs sep a -> SplitN2 (a +:+ String sep b) sep = [a; b].
Proof.
  unfold occurs. induction a as [|c a IH]; simpl; intros H.
  - now rewrite Ascii.eqb_refl.
  - destruct (Ascii.eqb c sep) eqn:E.
    + apply Ascii.eqb_eq in E. tauto.
    + rewrite IH by tauto. reflexivity.
Qed.

Lemma SplitN2_head_nonempty (c : ascii) (s : string) (sep : ascii) :
  c <> sep -> hd EmptyString (SplitN2 (String c s) sep) <> EmptyString.
Proof.
  intros Hc. simpl. apply Ascii.eqb_neq in Hc. rewrite Hc.
  destruct (SplitN2 s sep); simpl; discriminate.
Qed.

(** *** [TrimSpace] *)

Lemma trimLeft_head_aux (n : nat) :
  forall l c r, (List.length l <= n)%nat ->
    trimLeft l = c :: r -> asciiSpace c = false.
Proof.
  induction n as [|n IH]; intros l c r Hlen H.
  - destruct l; simpl in *; [discriminate|lia].
  - destruct l as [|c0 r0]; [discriminate|]. simpl in H, Hlen.
    destruct (asciiSpace c0) eqn:E0; [apply (IH r0 c r); [lia|exact H]|].
    destruct r0 as [|c1 r1]; [now injection H as <- _|].
    simpl in Hlen.
    destruct (space2 c0 c1); [apply (IH r1 c r); [lia|exact H]|].
    destruct r1 as [|c2 r2]; [now injection H as <- _|].
    simpl in Hlen.
    destruct (space3 c0 c1 c2); [apply (IH r2 c r); [lia|exact H]|].
    now injection H as <- _.
Qed.

Lemma trimLeft_head (l : list ascii) (c : ascii) (r : list ascii) :
  trimLeft l = c :: r -> asciiSpace c = false.
Proof. now apply (trimLeft_head_aux (List.length l)). Qed.

Lemma trimLeftRev_suffix_aux (n : nat) :
  forall l, (List.length l <= n)%nat -> exists p, l = p ++ trimLeftRev l.
Proof.
  induction n as [|n IH]; intros l Hlen.
  - destruct l; simpl in *; [now exists []|lia].
  - destruct l as [|c0 r0]; [now exists []|]. simpl in Hlen. simpl.
    destruct (asciiSpace c0).
    { destruct (IH r0) as [p Hp]; [lia|]. exists (c0 :: p). simpl. now f_equal. }
    destruct r0 as [|c1 r1]; [now exists []|]. simpl in Hlen.
    destruct (space2 c1 c0).
    { destruct (IH r1) as [p Hp]; [lia|]. exists (c0 :: c1 :: p). simpl. now do 2 f_equal. }
    destruct r1 as [|c2 r2]; [now exists []|]. simpl in Hlen.
    destruct (space3 c2 c1 c0).
    { destruct (IH r2) as [p Hp]; [lia|]. exists (c0 :: c1 :: c2 :: p). simpl. now do 3 f_equal. }
    now exists [].
Qed.

(** A trimmed string does not start with an ASCII space. *)
Lemma TrimSpace_head (s : string) (c : ascii) (r : string) :
  TrimSpace s = String c r -> asciiSpace c = false.
Proof.
  unfold TrimSpace. intros H.
  set (t := trimLeft (list_ascii_of_string s)) in *.
  destruct (trimLeftRev_suffix_aux _ (rev t) (le_n _)) as [p Hp].
  apply (f_equal (@rev ascii)) in Hp. rewrite rev_involutive, rev_app_distr in Hp.
  apply (f_equal list_ascii_of_string) in H.
  rewrite list_ascii_of_string_of_list_ascii in H. simpl in H.
  rewrite H in Hp. simpl in Hp. exact (trimLeft_head _ _ _ Hp).
Qed.

Lemma TrimSpace_head_not_space (s : string) (c : ascii) (r : string) :
  TrimSpace s = String c r -> c <> " "%char.
Proof. intros H ->. apply TrimSpace_head in H. discriminate. Qed.

End GoStringsFacts.

(** ** The result cache *)

Module CacheFacts.
Import Cache.

Lemma Get_hit_entry (c : ResultCache) (key f : string) (now : Z) (v : string) :
  ResultCache_Get c key f now = (v, true) <->
  exists e, results c !! key = Some e /\ etag e = f
            /\ Since now (timestamp e) <= ttl c /\ value e = v.
Proof.
  unfold ResultCache_Get. split.
  - destruct (results c !! key) as [e|] eqn:He; [|discriminate].
    destruct (String.eqb (etag e) f) eqn:Hf; simpl; [|discriminate].
    destruct (ttl c <? Since now (timestamp e)) eqn:Ht; [discriminate|].
    intros [= <-]. exists e. apply String.eqb_eq in Hf. apply Z.ltb_ge in Ht.
    auto.
  - intros (e & -> & Hf & Ht & <-).
    apply String.eqb_eq in Hf. rewrite Hf. simpl.
    apply Z.ltb_ge in Ht. now rewrite Ht.
Qed.

Lemma Get_after_Set_other_etag (c : ResultCache) (key value_ f1 f2 : string)
    (t now : Z) :
  f1 <> f2 ->
  ResultCache_Get (ResultCache_Set c key value_ f1 t) key f2 now = (EmptyString, false).
Proof.
  intros Hne. unfold ResultCache_Get, ResultCache_Set. simpl.
  rewrite lookup_insert_eq. simpl.
  apply String.eqb_neq in Hne. now rewrite Hne.
Qed.

(** An entry found under a key after a sequence of writes was either
    there before or was stored by one of the writes. *)
Lemma applyOps_entry_origin (ops : list cacheOp) (c : ResultCache)
    (key : string) (e : cacheEntry) :
  results (applyOps ops c) !! key = Some e ->
  results c !! key = Some e
  \/ In (DoSet key (value e) (etag e) (timestamp e)) ops.
Proof.
  revert c. induction ops as [|op ops IH]; intros c H; simpl in *.
  - now left.
  - apply IH in H as [H|H]; [|now right; right].
    destruct op as [k v f t|t]; simpl in H.
    + destruct (decide (k = key)) as [->|Hk].
      * rewrite lookup_insert_eq in H. injection H as <-. right. now left.
      * rewrite lookup_insert_ne in H by exact Hk. now left.
    + apply map_lookup_filter_Some in H as [H _]. now left.
Qed.

Lemma applyOps_ttl (ops : list cacheOp) (c : ResultCache) :
  ttl (applyOps ops c) = ttl c.
Proof.
  revert c. induction ops as [|op ops IH]; intros c; simpl; [reflexivity|].
  rewrite IH. now destruct op.
Qed.

(** C1. A result stored with [Set(key, value, f1)] is not returned by
    [Get(key, f2)] when [f1] and [f2] differ: the lookup that follows the
    store misses, and whatever further stores and sweeps happen, a hit of
    [Get(key, f2)] returns a value that one of them stored under [key]
    with the fingerprint [f2].  In every state, [Get] hits exactly when
    the key has an entry whose fingerprint is the queried one and whose
    age does not exceed the TTL, and then returns that entry's value. *)
Theorem C1_stale_fingerprint_never_returned
    (c : ResultCache) (key value_ f1 f2 : string) (t now : Z)
    (ops : list cacheOp) :
  f1 <> f2 ->
  ResultCache_Get (ResultCache_Set c key value_ f1 t) key f2 now
    = (EmptyString, false)
  /\ (forall v,
        ResultCache_Get (applyOps ops (ResultCache_Set c key value_ f1 t)) key f2 now
          = (v, true) ->
        exists t', In (DoSet key v f2 t') ops)
  /\ (forall (c' : ResultCache) k f n v,
        ResultCache_Get c' k f n = (v, true) <->
        exists e, results c' !! k = Some e /\ etag e = f
                  /\ Since n (timestamp e) <= ttl c' /\ value e = v).
Proof.
  intros Hne. split; [now apply Get_after_Set_other_etag|]. split.
  - intros v Hhit. apply Get_hit_entry in Hhit as (e & He & Hf & _ & Hv).
    apply applyOps_entry_origin in He as [He|He].
    + simpl in He. rewrite lookup_insert_eq in He. injection He as <-.
      simpl in Hf. contradiction.
    + exists (timestamp e). now rewrite <- Hv, <- Hf.
  - intros. apply Get_hit_entry.
Qed.

Lemma C1_stale_fingerprint_never_returned_witness :
  ResultCache_Get
    (ResultCache_Set (NewResultCache 100) "geosite:cn" "DOMAIN,a.cn" "etag-1" 5)
    "geosite:cn" "etag-2" 7 = (EmptyString, false).
Proof.
  apply (C1_stale_fingerprint_never_returned (NewResultCache 100)
           "geosite:cn" "DOMAIN,a.cn" "etag-1" "etag-2" 5 7 []).
  discriminate.
Defined.

End CacheFacts.

(** ** The fetcher *)

Module FetcherFacts.
Import Cache Fetcher.

Section WithArchive.
Context {Reader : Type}.
Variable zipNewReader : string -> Reader + error.
Variable persistToFileLocked : ZipCache Reader -> option error.

(** Once the TTL has elapsed, [Get] hands out the fingerprint but not the
    archive. *)
Lemma Get_expired (c : ZipCache Reader) (r : Reader) (now : Z) :
  zc_reader c = Some r ->
  zc_ttl c < Since now (zc_timestamp c) ->
  ZipCache_Get c now = (None, zc_etag c, false).
Proof.
  intros Hr Hexp. unfold ZipCache_Get. rewrite Hr.
  apply Z.ltb_lt in Hexp. now rewrite Hexp.
Qed.

(** C2. With an archive in the cache whose TTL has elapsed, a failing
    probe makes [GetZipReader] return the probe's error, with no archive
    and an empty fingerprint; [RefreshZipReader], which reads the cache
    with [GetAny], returns the stale archive and its fingerprint in the
    same state. *)
Theorem C2_expired_archive_probe_failure
    (c : ZipCache Reader) (r : Reader) (up : upstream) (clk : clock)
    (e : error) :
  zc_reader c = Some r ->
  zc_ttl c < Since (t_get clk) (zc_timestamp c) ->
  snd (GetETag up) = Some e ->
  GetZipReader zipNewReader persistToFileLocked c up clk
    = mkOutcome c [HeadRequest] None EmptyString
        (Some ("failed to get ETag: " +:+ e))
  /\ RefreshZipReader zipNewReader persistToFileLocked c up clk
    = mkOutcome c [HeadRequest] (Some r) (zc_etag c) None.
Proof.
  intros Hr Hexp Hprobe. split.
  - unfold GetZipReader. rewrite (Get_expired c r _ Hr Hexp).
    destruct (GetETag up) as [tag [e'|]]; simpl in Hprobe; [|discriminate].
    now injection Hprobe as ->.
  - unfold RefreshZipReader, ZipCache_GetAny. rewrite Hr.
    destruct (GetETag up) as [tag [e'|]]; simpl in Hprobe; [|discriminate].
    reflexivity.
Qed.

(** C7. With an archive in the cache whose TTL has elapsed, a probe that
    answers the cached fingerprint does not stop [GetZipReader] from
    downloading: both requests are sent, and when the download fails its
    error is returned instead of the cached archive.  [RefreshZipReader]
    sends the probe only and returns the cached archive. *)
Theorem C7_expired_archive_same_fingerprint
    (c : ZipCache Reader) (r : Reader) (up : upstream) (clk : clock) :
  zc_reader c = Some r ->
  zc_ttl c < Since (t_get clk) (zc_timestamp c) ->
  GetETag up = (zc_etag c, None) ->
  sent (GetZipReader zipNewReader persistToFileLocked c up clk)
    = [HeadRequest; DownloadRequest]
  /\ (forall e, snd (downloadZip up) = Some e ->
        GetZipReader zipNewReader persistToFileLocked c up clk
          = mkOutcome c [HeadRequest; DownloadRequest] None EmptyString (Some e))
  /\ RefreshZipReader zipNewReader persistToFileLocked c up clk
    = mkOutcome c [HeadRequest] (Some r) (zc_etag c) None.
Proof.
  intros Hr Hexp Hprobe.
  assert (Hget : GetZipReader zipNewReader persistToFileLocked c up clk
    = match downloadZip up with
      | (_, Some err) =>
          mkOutcome c [HeadRequest; DownloadRequest] None EmptyString (Some err)
      | (data, None) =>
          match ZipCache_Set zipNewReader persistToFileLocked c data (zc_etag c) (t_set clk) with
          | (c', Some err) =>
              mkOutcome c' [HeadRequest; DownloadRequest] None EmptyString
                (Some ("failed to set cache: " +:+ err))
          | (c', None) =>
              let '(reader, _, _) := ZipCache_Get c' (t_reget clk) in
              mkOutcome c' [HeadRequest; DownloadRequest] reader (zc_etag c) None
          end
      end).
  { unfold GetZipReader. rewrite (Get_expired c r _ Hr Hexp), Hprobe.
    rewrite String.eqb_refl. reflexivity. }
  split; [|split].
  - rewrite Hget. destruct (downloadZip up) as [data [err|]]; [reflexivity|].
    destruct (ZipCache_Set _ _ c data (zc_etag c) (t_set clk)) as [c' [err|]];
      [reflexivity|].
    now destruct (ZipCache_Get c' (t_reget clk)) as [[rd tg] ok].
  - intros e He. rewrite Hget.
    destruct (downloadZip up) as [data [err|]]; simpl in He; [|discriminate].
    now injection He as ->.
  - unfold RefreshZipReader, ZipCache_GetAny. rewrite Hr, Hprobe.
    rewrite String.eqb_refl. reflexivity.
Qed.

End WithArchive.

Lemma C2_expired_archive_probe_failure_witness :
  GetZipReader noReader noPersist staleCache
    (mkUpstream (EmptyString, Some "dial tcp: timeout") (EmptyString, None)) lateClock
  = mkOutcome staleCache [HeadRequest] None EmptyString
      (Some "failed to get ETag: dial tcp: timeout").
Proof.
  apply (C2_expired_archive_probe_failure noReader noPersist staleCache 1%nat
           (mkUpstream (EmptyString, Some "dial tcp: timeout") (EmptyString, None))
           lateClock "dial tcp: timeout");
    [reflexivity | vm_compute; reflexivity | reflexivity].
Defined.

Lemma C7_expired_archive_same_fingerprint_witness :
  sent (GetZipReader noReader noPersist staleCache
          (mkUpstream ("etag-1", None) (EmptyString, Some "download failed: 503"))
          lateClock)
  = [HeadRequest; DownloadRequest].
Proof.
  apply (C7_expired_archive_same_fingerprint noReader noPersist staleCache 1%nat
           (mkUpstream ("etag-1", None) (EmptyString, Some "download failed: 503"))
           lateClock);
    [reflexivity | vm_compute; reflexivity | reflexivity].
Defined.

End FetcherFacts.

(** ** The rule parser *)

Module ParserFacts.
Import GoStrings GoStringsFacts Parser.

Lemma hasRules_ruleCount (items : list Item) :
  hasRules items = false <-> ruleCount items = 0%nat.
Proof.
  unfold hasRules, ruleCount. induction items as [|i items IH]; simpl; [tauto|].
  destruct (ItemKind_eqb (Item_Kind i) ItemRule); simpl; [split; discriminate|exact IH].
Qed.

Lemma matchesFilter_empty (rest : string) : matchesFilter rest EmptyString = true.
Proof. reflexivity. Qed.

Section WithArchive.
Context {Reader : Type}.
Variable c : Converter Reader.

Lemma Parse_sub_converter (fuel : nat) :
  Parse fuel (NewConverter (zipReader c) (fileGetter c)) = Parse fuel c.
Proof. now destruct c. Qed.

Lemma Parse_succ (fuel : nat) (content filter : string) :
  Parse (S fuel) c content filter
  = parseLines c (Parse fuel c) (Split content newline) filter [].
Proof. simpl. now rewrite Parse_sub_converter. Qed.

Section Loop.
Variable subParse : string -> string -> result (list Item).
Variable filter : string.

(** The loop appends to [items] what the first line contributes and goes
    on with the other lines. *)
Lemma parseLines_cons (raw : string) (lines : list string) (items : list Item) :
  parseLines c subParse (raw :: lines) filter items
  = match lineItems c subParse filter raw with
    | Ok its => parseLines c subParse lines filter (items ++ its)
    | Err e => Err e
    | OutOfFuel => OutOfFuel
    end.
Proof.
  unfold lineItems. simpl. unfold appendRule.
  repeat match goal with
         | |- context [if ?b then _ else _] => destruct b; simpl
         end;
    rewrite ?app_nil_r; try reflexivity.
  destruct (parseInclude c subParse (TrimSpace raw) filter); reflexivity.
Qed.

Lemma parseLines_items (lines : list string) (items : list Item) :
  parseLines c subParse lines filter items
  = match parseLines c subParse lines filter [] with
    | Ok its => Ok (items ++ its)
    | Err e => Err e
    | OutOfFuel => OutOfFuel
    end.
Proof.
  revert items. induction lines as [|raw lines IH]; intros items.
  - simpl. now rewrite app_nil_r.
  - rewrite !parseLines_cons. destruct (lineItems c subParse filter raw) as [its| |];
      try reflexivity.
    rewrite (IH (items ++ its)), (IH ([] ++ its)). simpl.
    destruct (parseLines c subParse lines filter []); try reflexivity.
    now rewrite app_assoc.
Qed.

Lemma parseLines_app (l1 l2 : list string) (items : list Item) :
  parseLines c subParse (l1 ++ l2) filter items
  = match parseLines c subParse l1 filter items with
    | Ok its => parseLines c subParse l2 filter its
    | Err e => Err e
    | OutOfFuel => OutOfFuel
    end.
Proof.
  revert items. induction l1 as [|raw l1 IH]; intros items; [reflexivity|].
  simpl app. rewrite !parseLines_cons.
  destruct (lineItems c subParse filter raw); try reflexivity. apply IH.
Qed.

(** The items of a text are the items of its lines, in order. *)
Lemma parseLines_concat (lines : list string) (items : list Item) :
  parseLines c subParse lines filter [] = Ok items <->
  exists chunks,
    Forall2 (fun raw its => lineItems c subParse filter raw = Ok its) lines chunks
    /\ items = concat chunks.
Proof.
  revert items. induction lines as [|raw lines IH]; intros items.
  - simpl. split.
    + intros [= <-]. exists []. split; [constructor|reflexivity].
    + intros (chunks & HF & ->). inversion HF. reflexivity.
  - rewrite parseLines_cons. split.
    + destruct (lineItems c subParse filter raw) as [its| |] eqn:Hl; try discriminate.
      rewrite parseLines_items. simpl.
      destruct (parseLines c subParse lines filter []) as [rest| |] eqn:Hr; try discriminate.
      intros [= <-]. destruct (proj1 (IH rest) eq_refl) as (chunks & HF & ->).
      exists (its :: chunks). split; [now constructor|reflexivity].
    + intros (chunks & HF & ->). inversion HF as [|? its ? chunks' Hl HF']; subst.
      rewrite Hl, parseLines_items. simpl.
      rewrite (proj2 (IH (concat chunks'))); [reflexivity|].
      now exists chunks'.
Qed.

(** A line in the middle of a text contributes its items between those
    of the lines before it and those of the lines after it. *)
Lemma parseLines_middle (before after : list string) (raw : string)
    (i1 its i2 : list Item) :
  parseLines c subParse before filter [] = Ok i1 ->
  lineItems c subParse filter raw = Ok its ->
  parseLines c subParse after filter [] = Ok i2 ->
  parseLines c subParse (before ++ raw :: after) filter [] = Ok (i1 ++ its ++ i2).
Proof.
  intros H1 Hl H2. rewrite parseLines_app, H1, parseLines_cons, Hl.
  rewrite parseLines_items, H2. now rewrite app_assoc.
Qed.

End Loop.

(** More fuel does not change an outcome that was reached. *)
Lemma lineItems_refines (sub1 sub2 : string -> string -> result (list Item))
    (filter raw : string) :
  (forall s f, refines (sub1 s f) (sub2 s f)) ->
  refines (lineItems c sub1 filter raw) (lineItems c sub2 filter raw).
Proof.
  intros Hsub. unfold lineItems. simpl.
  repeat match goal with
         | |- context [if ?b then _ else _] => destruct b; simpl
         end; try (right; reflexivity).
  unfold parseInclude.
  destruct (fileGetter c (zipReader c) _) as [content [err|]];
    [right; reflexivity|].
  destruct (Hsub content filter) as [-> | ->]; [left; reflexivity|right; reflexivity].
Qed.

Lemma parseLines_refines (sub1 sub2 : string -> string -> result (list Item))
    (filter : string) (lines : list string) (items : list Item) :
  (forall s f, refines (sub1 s f) (sub2 s f)) ->
  refines (parseLines c sub1 lines filter items) (parseLines c sub2 lines filter items).
Proof.
  intros Hsub. revert items. induction lines as [|raw lines IH]; intros items.
  - right. reflexivity.
  - rewrite !parseLines_cons.
    destruct (lineItems_refines sub1 sub2 filter raw Hsub) as [-> | ->];
      [left; reflexivity|].
    destruct (lineItems c sub2 filter raw); try (right; reflexivity). apply IH.
Qed.

Lemma Parse_fuel_succ (fuel : nat) (content filter : string) :
  refines (Parse fuel c content filter) (Parse (S fuel) c content filter).
Proof.
  revert content filter. induction fuel as [|fuel IH]; intros content filter.
  - rewrite Parse_succ. simpl. apply parseLines_refines. intros; now left.
  - rewrite !Parse_succ. apply parseLines_refines. exact IH.
Qed.

Lemma Parse_fuel_mono (fuel fuel' : nat) (content filter : string)
    (items : list Item) :
  (fuel <= fuel')%nat ->
  Parse fuel c content filter = Ok items ->
  Parse fuel' c content filter = Ok items.
Proof.
  induction 1 as [|fuel' _ IH]; intros H; [exact H|].
  destruct (Parse_fuel_succ fuel' content filter) as [E|E].
  - rewrite (IH H) in E. discriminate.
  - rewrite <- E. exact (IH H).
Qed.

(** A text without include lines is parsed within any fuel. *)
Lemma parseLines_without_include (subParse : string -> string -> result (list Item))
    (filter : string) (lines : list string) (items : list Item) :
  forallb (fun raw => negb (HasPrefix (TrimSpace raw) "include:")) lines = true ->
  exists its, parseLines c subParse lines filter items = Ok its.
Proof.
  revert items. induction lines as [|raw lines IH]; intros items Hno.
  - now exists items.
  - cbn [forallb] in Hno. apply andb_prop in Hno as [Hraw Hno].
    apply negb_true_iff in Hraw. cbn [parseLines]. rewrite Hraw.
    repeat match goal with
           | |- context [if ?b then _ else _] => destruct b
           end; now apply IH.
Qed.

Lemma Parse_without_include (fuel : nat) (content filter : string) :
  forallb (fun raw => negb (HasPrefix (TrimSpace raw) "include:"))
    (Split content newline) = true ->
  exists items, Parse fuel c content filter = Ok items.
Proof.
  intros Hno. destruct fuel; simpl; now apply parseLines_without_include.
Qed.

(** *** Rule values *)

Lemma TrimPrefix_nonempty (tok p : string) :
  tok <> EmptyString -> tok <> p -> TrimPrefix tok p <> EmptyString.
Proof.
  intros Hne Hp. unfold TrimPrefix. destruct (HasPrefix tok p) eqn:E; [|exact Hne].
  intros Hskip. apply HasPrefix_split in E. rewrite Hskip, append_nil_r in E.
  contradiction.
Qed.

Lemma parseRuleLine_value (line p : string) (kind : RuleKind) (filter : string) :
  line <> EmptyString ->
  (forall ch r, line = String ch r -> ch <> space) ->
  hd EmptyString (SplitN2 line space) <> p ->
  snd (parseRuleLine line p kind filter) = true ->
  Rule_Value (fst (parseRuleLine line p kind filter)) <> EmptyString.
Proof.
  intros Hne Hhead Htok. unfold parseRuleLine.
  destruct (matchesFilter _ filter); simpl; [|discriminate]. intros _.
  assert (Hnz : hd EmptyString (SplitN2 line space) <> EmptyString).
  { destruct line as [|ch r]; [contradiction|].
    apply SplitN2_head_nonempty. now apply (Hhead ch r). }
  destruct (String.eqb p EmptyString); simpl; [exact Hnz|].
  now apply TrimPrefix_nonempty.
Qed.

Lemma bareTypePrefix_false (raw p : string) (kind : RuleKind) :
  bareTypePrefix raw = false -> In (p, kind) typePrefixes ->
  hd EmptyString (SplitN2 (TrimSpace raw) space) <> p.
Proof.
  unfold bareTypePrefix. intros H Hin Heq.
  apply not_true_iff_false in H. apply H. apply existsb_exists.
  exists (p, kind). split; [exact Hin|]. simpl. now apply String.eqb_eq.
Qed.

Lemma hasValue_comment (text : string) : hasValue (commentItem text).
Proof. intros H. discriminate. Qed.

Lemma hasValue_appendRule (items : list Item) (r : Rule * bool) :
  Forall hasValue items ->
  (snd r = true -> Rule_Value (fst r) <> EmptyString) ->
  Forall hasValue (appendRule items r).
Proof.
  intros Hitems Hr. unfold appendRule. destruct (snd r); [|exact Hitems].
  apply Forall_app. split; [exact Hitems|]. constructor; [|constructor].
  intros _. exists (fst r). split; [reflexivity|now apply Hr].
Qed.

(** The loop keeps the rule values non-empty when no line is a bare type
    prefix and the members that the include directives of the lines name
    yield non-empty values. *)
Lemma parseLines_values (subParse : string -> string -> result (list Item))
    (filter : string) (lines : list string) :
  (forall raw content its,
      In raw lines ->
      HasPrefix (TrimSpace raw) "include:" = true ->
      fileGetter c (zipReader c) (includedName raw) = (content, None) ->
      subParse content filter = Ok its -> Forall hasValue its) ->
  forallb (fun raw => negb (bareTypePrefix raw)) lines = true ->
  forall items its,
    Forall hasValue items ->
    parseLines c subParse lines filter items = Ok its ->
    Forall hasValue its.
Proof.
  induction lines as [|raw lines IH]; intros Hsub Hclean items its Hitems H.
  - simpl in H. now injection H as <-.
  - simpl in Hclean. apply andb_prop in Hclean as [Hraw Hclean].
    apply negb_true_iff in Hraw.
    specialize (IH (fun raw' content its' Hin =>
                      Hsub raw' content its' (or_intror Hin)) Hclean).
    cbn [parseLines] in H. set (line := TrimSpace raw) in *.
    destruct (String.eqb line EmptyString) eqn:Hblank; [exact (IH _ _ Hitems H)|].
    apply String.eqb_neq in Hblank.
    assert (Hhead : forall ch r, line = String ch r -> ch <> space)
      by (intros ch r E; exact (TrimSpace_head_not_space raw ch r E)).
    assert (Hrule : forall p kind,
               hd EmptyString (SplitN2 line space) <> p ->
               Forall hasValue (appendRule items (parseRuleLine line p kind filter))).
    { intros p kind Hp. apply hasValue_appendRule; [exact Hitems|].
      now apply parseRuleLine_value. }
    assert (Hpk : forall p kind, In (p, kind) typePrefixes ->
               Forall hasValue (appendRule items (parseRuleLine line p kind filter))).
    { intros p kind Hin. apply Hrule. exact (bareTypePrefix_false raw p kind Hraw Hin). }
    assert (Hnz : hd EmptyString (SplitN2 line space) <> EmptyString).
    { destruct line as [|ch r]; [contradiction|].
      apply SplitN2_head_nonempty. now apply (Hhead ch r). }
    destruct (HasPrefix line "#").
    { refine (IH _ _ _ H). apply Forall_app. split; [exact Hitems|].
      constructor; [apply hasValue_comment|constructor]. }
    destruct (HasPrefix line "domain:");
      [apply (IH _ _ (Hpk "domain:" RuleDomainSuffix ltac:(simpl; tauto)) H)|].
    destruct (HasPrefix line "full:");
      [apply (IH _ _ (Hpk "full:" RuleDomain ltac:(simpl; tauto)) H)|].
    destruct (HasPrefix line "keyword:");
      [apply (IH _ _ (Hpk "keyword:" RuleDomainKeyword ltac:(simpl; tauto)) H)|].
    destruct (HasPrefix line "regexp:");
      [apply (IH _ _ (Hpk "regexp:" RuleDomainRegex ltac:(simpl; tauto)) H)|].
    destruct (HasPrefix line "include:") eqn:Hinc.
    + unfold parseInclude in H.
      destruct (fileGetter c (zipReader c) _) as [content [err|]] eqn:Hget;
        [discriminate|].
      destruct (subParse content filter) as [subItems| |] eqn:Hp; try discriminate.
      pose proof (Hsub raw content subItems (or_introl eq_refl) Hinc Hget Hp)
        as HsubItems.
      destruct (negb (hasRules subItems)).
      * rewrite app_nil_r in H. exact (IH _ _ Hitems H).
      * refine (IH _ _ _ H). apply Forall_app. split; [exact Hitems|].
        constructor; [apply hasValue_comment|exact HsubItems].
    + apply (IH _ _ (Hrule _ _ Hnz) H).
Qed.

(** *** Lines *)

Lemma parseRuleLine_token (p value : string) (kind : RuleKind) (filter : string) :
  ~ occurs space (p +:+ value) ->
  parseRuleLine (p +:+ value) p kind filter
  = if matchesFilter EmptyString filter
    then (mkRule kind value EmptyString, true)
    else (mkRule RuleDomainSuffix EmptyString EmptyString, false).
Proof.
  intros Hsp. unfold parseRuleLine. rewrite (SplitN2_no_sep _ _ Hsp). simpl.
  destruct (matchesFilter EmptyString filter); simpl; [|reflexivity].
  destruct (String.eqb p EmptyString) eqn:E; simpl.
  - apply String.eqb_eq in E. now subst p.
  - now rewrite TrimPrefix_append.
Qed.

Lemma parseRuleLine_token_rest (p value rest : string) (kind : RuleKind)
    (filter : string) :
  ~ occurs space (p +:+ value) ->
  parseRuleLine (p +:+ value +:+ String space rest) p kind filter
  = if matchesFilter rest filter
    then (mkRule kind value rest, true)
    else (mkRule RuleDomainSuffix EmptyString EmptyString, false).
Proof.
  intros Hsp. unfold parseRuleLine.
  rewrite <- append_assoc, (SplitN2_sep _ _ _ Hsp). simpl.
  destruct (matchesFilter rest filter); simpl; [|reflexivity].
  destruct (String.eqb p EmptyString) eqn:E; simpl.
  - apply String.eqb_eq in E. now subst p.
  - now rewrite TrimPrefix_append.
Qed.

Lemma appendRule_nil (m : bool) (r : Rule) (r' : Rule) :
  appendRule [] (if m then (r, true) else (r', false))
  = if m then [ruleItem r] else [].
Proof. now destruct m. Qed.

Lemma typePrefix_no_space (p : string) (kind : RuleKind) (value : string) :
  In (p, kind) typePrefixes -> ~ occurs space value -> ~ occurs space (p +:+ value).
Proof.
  intros Hin Hv Hocc. apply occurs_append in Hocc as [Hocc|Hocc]; [|now apply Hv].
  unfold occurs in Hocc. simpl in Hin.
  destruct Hin as [[= <- <-]|[[= <- <-]|[[= <- <-]|[[= <- <-]|[]]]]];
    simpl in Hocc; intuition discriminate.
Qed.

(** Settles the tests the loop makes on a line that starts with known
    characters. *)
Ltac decide_prefixes :=
  repeat match goal with
         | |- context [String.eqb ?l EmptyString] =>
             replace (String.eqb l EmptyString) with false by reflexivity
         | |- context [HasPrefix ?l ?q] =>
             first [ replace (HasPrefix l q) with true by reflexivity
                   | replace (HasPrefix l q) with false by reflexivity ]
         end;
  cbv iota.

(** The items of a line whose trimmed text is a type prefix followed by
    a token, and possibly by a space and more text. *)
Lemma lineItems_typed (subParse : string -> string -> result (list Item))
    (filter raw p : string) (kind : RuleKind) (value : string) :
  In (p, kind) typePrefixes -> ~ occurs space value ->
  (TrimSpace raw = p +:+ value ->
   lineItems c subParse filter raw = Ok (ruleLineItems kind value EmptyString filter))
  /\ (forall rest, TrimSpace raw = p +:+ value +:+ String space rest ->
      lineItems c subParse filter raw = Ok (ruleLineItems kind value rest filter)).
Proof.
  intros Hin Hv. pose proof (typePrefix_no_space p kind value Hin Hv) as Hsp.
  unfold lineItems, ruleLineItems. cbn [parseLines].
  simpl in Hin.
  destruct Hin as [[= <- <-]|[[= <- <-]|[[= <- <-]|[[= <- <-]|[]]]]];
    (split; [intros Hline|intros rest Hline]; rewrite Hline;
     decide_prefixes;
     rewrite ?parseRuleLine_token, ?parseRuleLine_token_rest by exact Hsp;
     now rewrite appendRule_nil).
Qed.

(** The items of a line that is no comment, has no type prefix and is no
    include: a bare domain. *)
Lemma lineItems_bare (subParse : string -> string -> result (list Item))
    (filter raw value : string) :
  TrimSpace raw <> EmptyString ->
  HasPrefix (TrimSpace raw) "#" = false ->
  (forall p kind, In (p, kind) typePrefixes -> HasPrefix (TrimSpace raw) p = false) ->
  HasPrefix (TrimSpace raw) "include:" = false ->
  ~ occurs space value ->
  (TrimSpace raw = value ->
   lineItems c subParse filter raw
   = Ok (ruleLineItems RuleDomainSuffix value EmptyString filter))
  /\ (forall rest, TrimSpace raw = value +:+ String space rest ->
      lineItems c subParse filter raw
      = Ok (ruleLineItems RuleDomainSuffix value rest filter)).
Proof.
  intros Hne Hhash Hpk Hinc Hv.
  unfold lineItems, ruleLineItems. cbn [parseLines].
  apply String.eqb_neq in Hne. rewrite Hne, Hhash, Hinc.
  rewrite (Hpk "domain:" RuleDomainSuffix), (Hpk "full:" RuleDomain),
    (Hpk "keyword:" RuleDomainKeyword), (Hpk "regexp:" RuleDomainRegex)
    by (simpl; tauto).
  split; [intros Hline|intros rest Hline]; rewrite Hline.
  - rewrite (parseRuleLine_token EmptyString value) by exact Hv.
    now rewrite appendRule_nil.
  - rewrite (parseRuleLine_token_rest EmptyString value rest) by exact Hv.
    now rewrite appendRule_nil.
Qed.

Lemma lineItems_comment (subParse : string -> string -> result (list Item))
    (filter raw : string) :
  HasPrefix (TrimSpace raw) "#" = true ->
  lineItems c subParse filter raw = Ok [commentItem (TrimSpace raw)].
Proof.
  intros Hhash. unfold lineItems. cbn [parseLines]. rewrite Hhash.
  destruct (TrimSpace raw); [discriminate|reflexivity].
Qed.

Lemma lineItems_blank (subParse : string -> string -> result (list Item))
    (filter raw : string) :
  TrimSpace raw = EmptyString -> lineItems c subParse filter raw = Ok [].
Proof. intros Hb. unfold lineItems. cbn [parseLines]. now rewrite Hb. Qed.

(** *** Includes *)

Lemma parseInclude_named (subParse : string -> string -> result (list Item))
    (filter line name : string) :
  ~ occurs space name ->
  (line = "include:" +:+ name
   \/ exists rest, line = "include:" +:+ name +:+ String space rest) ->
  parseInclude c subParse line filter
  = match fileGetter c (zipReader c) name with
    | (_, Some err) => Err ("failed to fetch sub-upstream content: " +:+ err)
    | (subContent, None) =>
        match subParse subContent filter with
        | Ok subItems =>
            Ok (if (ruleCount subItems =? 0)%nat then []
                else commentItem ("# " +:+ line) :: subItems)
        | Err e => Err e
        | OutOfFuel => OutOfFuel
        end
    end.
Proof.
  intros Hname Hline.
  assert (Hsp : ~ occurs space ("include:" +:+ name)).
  { intros Hocc. apply occurs_append in Hocc as [Hocc|Hocc]; [|now apply Hname].
    unfold occurs in Hocc. simpl in Hocc. intuition discriminate. }
  assert (Htok : TrimPrefix (hd EmptyString (SplitN2 line space)) "include:" = name).
  { destruct Hline as [->|[rest ->]].
    - rewrite (SplitN2_no_sep _ _ Hsp). exact (TrimPrefix_append "include:" name).
    - rewrite <- append_assoc, (SplitN2_sep _ _ _ Hsp).
      exact (TrimPrefix_append "include:" name). }
  unfold parseInclude. rewrite Htok.
  destruct (fileGetter c (zipReader c) name) as [subContent [err|]]; [reflexivity|].
  destruct (subParse subContent filter) as [subItems| |]; try reflexivity.
  destruct (hasRules subItems) eqn:Hr; simpl.
  - destruct (ruleCount subItems =? 0)%nat eqn:Hc; [|reflexivity].
    apply Nat.eqb_eq, hasRules_ruleCount in Hc. congruence.
  - apply hasRules_ruleCount in Hr. now rewrite Hr.
Qed.

Lemma lineItems_include (subParse : string -> string -> result (list Item))
    (filter raw : string) :
  HasPrefix (TrimSpace raw) "include:" = true ->
  lineItems c subParse filter raw = parseInclude c subParse (TrimSpace raw) filter.
Proof.
  intros Hinc. unfold lineItems. cbn [parseLines].
  destruct (TrimSpace raw) as [|ch line] eqn:Hline; [discriminate|].
  assert (Hch : ch = "i"%char).
  { cbn [HasPrefix] in Hinc. apply andb_prop in Hinc as [E _].
    symmetry. now apply Ascii.eqb_eq in E. }
  subst ch.
  replace (String.eqb (String "i" line) EmptyString) with false by reflexivity.
  replace (HasPrefix (String "i" line) "#") with false by reflexivity.
  replace (HasPrefix (String "i" line) "domain:") with false by reflexivity.
  replace (HasPrefix (String "i" line) "full:") with false by reflexivity.
  replace (HasPrefix (String "i" line) "keyword:") with false by reflexivity.
  replace (HasPrefix (String "i" line) "regexp:") with false by reflexivity.
  rewrite Hinc.
  destruct (parseInclude c subParse (String "i" line) filter); reflexivity.
Qed.

(** C5. An [include:] line names a member.  When the content accessor
    fails, the parse fails with its error.  Otherwise the member's text is
    parsed with the same filter, one include level down; an error of that
    parse is the error of the whole, and when it returns, the line
    contributes nothing when that parse yields no Rule item, and else the
    comment echoing the directive followed by the sub-items in their
    order; the contribution stands in the output between the items of the
    lines before and those of the lines after. *)
Theorem C5_include_contribution (fuel : nat) (filter raw name : string) :
  ~ occurs space name ->
  (TrimSpace raw = "include:" +:+ name
   \/ exists rest, TrimSpace raw = "include:" +:+ name +:+ String space rest) ->
  (forall text err,
      fileGetter c (zipReader c) name = (text, Some err) ->
      lineItems c (Parse fuel c) filter raw
      = Err ("failed to fetch sub-upstream content: " +:+ err))
  /\ (forall subContent err,
        fileGetter c (zipReader c) name = (subContent, None) ->
        Parse fuel c subContent filter = Err err ->
        lineItems c (Parse fuel c) filter raw = Err err)
  /\ (forall subContent subItems,
        fileGetter c (zipReader c) name = (subContent, None) ->
        Parse fuel c subContent filter = Ok subItems ->
        let contributed :=
          if (ruleCount subItems =? 0)%nat then []
          else commentItem ("# " +:+ TrimSpace raw) :: subItems in
        lineItems c (Parse fuel c) filter raw = Ok contributed
        /\ forall content before after i1 i2,
             Split content newline = before ++ raw :: after ->
             parseLines c (Parse fuel c) before filter [] = Ok i1 ->
             parseLines c (Parse fuel c) after filter [] = Ok i2 ->
             Parse (S fuel) c content filter = Ok (i1 ++ contributed ++ i2)).
Proof.
  intros Hname Hline.
  assert (Hinc : HasPrefix (TrimSpace raw) "include:" = true)
    by (destruct Hline as [->|[rest ->]]; reflexivity).
  pose proof (lineItems_include (Parse fuel c) filter raw Hinc) as Hitems.
  rewrite (parseInclude_named _ filter _ name Hname Hline) in Hitems.
  split; [|split].
  - intros text err Hget. now rewrite Hitems, Hget.
  - intros subContent err Hget Hsub. now rewrite Hitems, Hget, Hsub.
  - intros subContent subItems Hget Hsub contributed.
    rewrite Hget, Hsub in Hitems. split; [exact Hitems|].
    intros content before after i1 i2 Hsplit H1 H2.
    rewrite Parse_succ, Hsplit. now apply parseLines_middle.
Qed.

(** *** Rule values, for a whole parse *)

(** C9, as the code has it.  When no line of the text, and no line of a
    member that the text includes, directly or through the include
    directives of included members, has as its first token a type
    prefix with nothing after it, every Rule item that [Parse] produces
    has a rule whose value is not empty.  Nothing is asked of the
    members that no include directive reaches. *)
Theorem C9_rule_values_nonempty (fuel : nat) (content filter : string)
    (items : list Item) :
  (forall text, included c content text -> noBarePrefix text = true) ->
  Parse fuel c content filter = Ok items ->
  Forall hasValue items.
Proof.
  intros Hclean.
  enough (Hall : forall text its,
             included c content text ->
             Parse fuel c text filter = Ok its -> Forall hasValue its)
    by exact (Hall content items (included_input c content)).
  induction fuel as [|fuel IH]; intros text its Hinc H.
  - simpl in H.
    refine (parseLines_values _ filter _ _ (Hclean _ Hinc) [] its
              (List.Forall_nil _) H).
    intros; discriminate.
  - rewrite Parse_succ in H.
    refine (parseLines_values _ filter _ _ (Hclean _ Hinc) [] its
              (List.Forall_nil _) H).
    intros raw sub subItems Hin Hpre Hget Hp.
    exact (IH sub subItems (included_member c content text raw sub Hinc Hin Hpre Hget) Hp).
Qed.

(** C8. Every line of the input is classified by its trimmed text: a
    blank line gives nothing; a line starting with [#] gives a Comment
    item holding the trimmed line; a line made of a type prefix, a token
    and possibly a space and more text gives, when the filter lets it
    pass, the Rule of the prefix's kind whose value is the token and whose
    trailing region is the text after the space; a line that is none of
    these and no include is read the same way as a domain-suffix rule.
    With the empty filter every rule line passes.  The items of a text
    are those of its lines, in order.  From [domain:example.com] the
    Surge dialect renders [DOMAIN-SUFFIX,example.com], and from
    [full:example.com] it renders [DOMAIN,example.com]. *)
Theorem C8_parse_classifies_lines (subParse : string -> string -> result (list Item))
    (filter raw : string) :
  (TrimSpace raw = EmptyString -> lineItems c subParse filter raw = Ok [])
  /\ (HasPrefix (TrimSpace raw) "#" = true ->
      lineItems c subParse filter raw = Ok [commentItem (TrimSpace raw)])
  /\ (forall p kind value,
        In (p, kind) typePrefixes -> ~ occurs space value ->
        (TrimSpace raw = p +:+ value ->
         lineItems c subParse filter raw
         = Ok (ruleLineItems kind value EmptyString filter))
        /\ (forall rest,
              TrimSpace raw = p +:+ value +:+ String space rest ->
              lineItems c subParse filter raw
              = Ok (ruleLineItems kind value rest filter)))
  /\ (TrimSpace raw <> EmptyString ->
      HasPrefix (TrimSpace raw) "#" = false ->
      (forall p kind, In (p, kind) typePrefixes -> HasPrefix (TrimSpace raw) p = false) ->
      HasPrefix (TrimSpace raw) "include:" = false ->
      forall value, ~ occurs space value ->
        (TrimSpace raw = value ->
         lineItems c subParse filter raw
         = Ok (ruleLineItems RuleDomainSuffix value EmptyString filter))
        /\ (forall rest,
              TrimSpace raw = value +:+ String space rest ->
              lineItems c subParse filter raw
              = Ok (ruleLineItems RuleDomainSuffix value rest filter)))
  /\ (forall kind value rest,
        ruleLineItems kind value rest EmptyString = [ruleItem (mkRule kind value rest)])
  /\ (forall content items,
        Parse 0 c content filter = Ok items <->
        exists chunks,
          Forall2 (fun line its => lineItems c (fun _ _ => OutOfFuel) filter line = Ok its)
            (Split content newline) chunks
          /\ items = concat chunks)
  /\ (forall fuel content items,
        Parse (S fuel) c content filter = Ok items <->
        exists chunks,
          Forall2 (fun line its => lineItems c (Parse fuel c) filter line = Ok its)
            (Split content newline) chunks
          /\ items = concat chunks)
  /\ (forall syntaxParse fuel,
        exists items,
          Parse fuel c "domain:example.com" EmptyString = Ok items
          /\ Render.RenderSurge syntaxParse items = "DOMAIN-SUFFIX,example.com")
  /\ (forall syntaxParse fuel,
        exists items,
          Parse fuel c "full:example.com" EmptyString = Ok items
          /\ Render.RenderSurge syntaxParse items = "DOMAIN,example.com").
Proof.
  split; [apply lineItems_blank|].
  split; [apply lineItems_comment|].
  split; [intros p kind value; apply lineItems_typed|].
  split; [intros Hne Hhash Hpk Hinc value; now apply lineItems_bare|].
  split; [reflexivity|].
  split; [intros content items; apply parseLines_concat|].
  split; [intros fuel content items; rewrite Parse_succ; apply parseLines_concat|].
  split; intros syntaxParse fuel.
  - exists [ruleItem (mkRule RuleDomainSuffix "example.com" EmptyString)].
    split; [destruct fuel; reflexivity|reflexivity].
  - exists [ruleItem (mkRule RuleDomain "example.com" EmptyString)].
    split; [destruct fuel; reflexivity|reflexivity].
Qed.

End WithArchive.

Lemma C5_include_contribution_witness :
  lineItems sampleArchive (Parse 0 sampleArchive) EmptyString "include:google"
  = Ok [commentItem "# include:google";
        ruleItem (mkRule RuleDomainSuffix "google.com" EmptyString);
        ruleItem (mkRule RuleDomain "www.google.cn" "@cn")].
Proof.
  refine (proj1 (proj2 (proj2 (C5_include_contribution sampleArchive 0 EmptyString
                          "include:google" "google" _ _)) _ _ eq_refl eq_refl)).
  - unfold occurs. simpl. intuition discriminate.
  - left. reflexivity.
Defined.

Lemma C8_parse_classifies_lines_witness :
  lineItems emptyArchive (fun _ _ => OutOfFuel) "cn" "  domain:example.com @cn"
  = Ok [ruleItem (mkRule RuleDomainSuffix "example.com" "@cn")].
Proof.
  refine (proj2 (proj1 (proj2 (proj2 (C8_parse_classifies_lines emptyArchive
            (fun _ _ => OutOfFuel) "cn" "  domain:example.com @cn")))
            "domain:" RuleDomainSuffix "example.com" _ _) "@cn" eq_refl).
  - simpl. tauto.
  - unfold occurs. simpl. intuition discriminate.
Defined.

(** The texts that a parse of the sample input reads from
    [strayArchive]: the input and the member it includes; the member
    with the bare type prefix is not among them. *)
Lemma strayArchive_included (text : string) :
  included strayArchive ("plain.org" +:+ String newline "include:google") text ->
  text = "plain.org" +:+ String newline "include:google"
  \/ text = "domain:google.com" +:+ String newline "full:www.google.cn @cn".
Proof.
  induction 1 as [|text raw sub _ IH Hin Hpre Hget]; [now left|].
  destruct IH as [-> | ->]; simpl in Hin.
  - destruct Hin as [<-|[<-|[]]]; [discriminate|].
    injection Hget as <-. now right.
  - destruct Hin as [<-|[<-|[]]]; discriminate.
Qed.

Lemma C9_rule_values_nonempty_witness :
  Forall hasValue
    [ruleItem (mkRule RuleDomainSuffix "plain.org" EmptyString);
     commentItem "# include:google";
     ruleItem (mkRule RuleDomainSuffix "google.com" EmptyString);
     ruleItem (mkRule RuleDomain "www.google.cn" "@cn")].
Proof.
  refine (C9_rule_values_nonempty strayArchive 1
            ("plain.org" +:+ String newline "include:google") EmptyString _
            _ eq_refl).
  intros text Hinc.
  destruct (strayArchive_included text Hinc) as [-> | ->]; reflexivity.
Defined.

(** C9, as the specification states it, fails: a line that is a type
    prefix with nothing after it yields a Rule item whose value is
    empty. *)
Lemma C9_bare_prefix_counterexample :
  Parse 0 emptyArchive "domain:" EmptyString
  = Ok [ruleItem (mkRule RuleDomainSuffix EmptyString EmptyString)]
  /\ ~ (forall fuel content filter items,
          Parse fuel emptyArchive content filter = Ok items ->
          Forall hasValue items).
Proof.
  split; [reflexivity|]. intros H.
  specialize (H 0%nat "domain:" EmptyString _ eq_refl).
  apply Forall_inv in H. destruct (H eq_refl) as (r & [= <-] & Hv).
  now apply Hv.
Qed.

(** *** The filter *)

Lemma Index_byte_found (t : string) (ch : ascii) :
  Index t (String ch EmptyString) <> -1 ->
  exists a b, t = a +:+ String ch b
              /\ Index t (String ch EmptyString) = Z.of_nat (String.length a).
Proof.
  intros H. destruct (Index_found _ _ H) as (a & b & Ht & Hi & _).
  now exists a, b.
Qed.

Lemma Index_byte_min (t : string) (ch : ascii) (a b : string) :
  t = a +:+ String ch b ->
  Index t (String ch EmptyString) <> -1
  /\ Index t (String ch EmptyString) <= Z.of_nat (String.length a).
Proof.
  intros Ht.
  assert (Hfound : Index t (String ch EmptyString) <> -1).
  { intros Habs. exact (Index_absent _ _ Habs a b Ht). }
  split; [exact Hfound|].
  destruct (Index_found _ _ Hfound) as (a' & b' & _ & Hi & Hmin).
  rewrite Hi. apply Nat2Z.inj_le. exact (Hmin a b Ht).
Qed.

(** [matchesFilter], in terms of what the trailing region contains. *)
Lemma matchesFilter_spec (rest filter : string) :
  matchesFilter rest filter = true <->
  filter = EmptyString
  \/ (HasPrefix (TrimSpace rest) "@" = true
      /\ spec_containsTag (TrimSpace rest) filter).
Proof.
  unfold matchesFilter, spec_containsTag.
  destruct (String.eqb filter EmptyString) eqn:Hf.
  { apply String.eqb_eq in Hf. tauto. }
  apply String.eqb_neq in Hf. set (t := TrimSpace rest).
  destruct (HasPrefix t "@") eqn:Hat; cbn [negb];
    [|split; [discriminate|intros [?|[? _]]; [contradiction|discriminate]]].
  destruct (Index t ("@" +:+ filter) =? -1) eqn:Hfi; cbn [orb].
  { apply Z.eqb_eq in Hfi. split; [discriminate|].
    intros [?|[_ (pre & post & Ht & _)]]; [contradiction|].
    exfalso. exact (Index_absent _ _ Hfi pre post Ht). }
  apply Z.eqb_neq in Hfi.
  destruct (Index_found _ _ Hfi) as (pre & post & Ht & Hi & Hmin).
  destruct (Index t "#" =? -1) eqn:Hci; cbn [negb andb].
  { apply Z.eqb_eq in Hci. split; [|reflexivity]. intros _. right.
    split; [reflexivity|]. exists pre, post. split; [exact Ht|].
    intros Hocc. apply occurs_split in Hocc as (a & b & ->).
    rewrite append_assoc in Ht. exact (Index_absent _ _ Hci a _ Ht). }
  apply Z.eqb_neq in Hci.
  destruct (Index_byte_found t "#" Hci) as (a & b & Ha & Hia).
  destruct (Index t "#" <? Index t ("@" +:+ filter)) eqn:Hlt.
  - apply Z.ltb_lt in Hlt. split; [discriminate|].
    intros [?|[_ (pre' & post' & Ht' & Hno)]]; [contradiction|]. exfalso.
    pose proof (Hmin pre' post' Ht') as Hle.
    assert (Hlen : (String.length a < String.length pre')%nat) by lia.
    rewrite Ha in Ht'.
    destruct (append_eq_append a (String "#" b) pre' _ Ht' ltac:(lia))
      as (m & Hpre & Hm).
    destruct m as [|ch m].
    + rewrite Hpre, append_nil_r in Hlen. lia.
    + simpl in Hm. injection Hm as <- _. apply Hno. rewrite Hpre.
      apply occurs_append. right. left. reflexivity.
  - apply Z.ltb_ge in Hlt. split; [|reflexivity]. intros _. right.
    split; [reflexivity|]. exists pre, post. split; [exact Ht|].
    intros Hocc. apply occurs_split in Hocc as (a' & b' & Hpre).
    assert (Ht2 : t = a' +:+ String "#" (b' +:+ ("@" +:+ filter) +:+ post)).
    { rewrite Ht, Hpre, append_assoc. reflexivity. }
    destruct (Index_byte_min t "#" _ _ Ht2) as [_ Hle].
    rewrite Hpre, length_append in Hi. cbn [String.length] in Hi. lia.
Qed.

(** C4, as the code has it.  A rule line passes the filter when the
    filter tag is empty; with a non-empty tag it passes exactly when its
    trailing region, trimmed, starts with [@] and contains the literal
    [@TAG] at a place with no [#] before it.  [domain:example.com @cn] is
    included for the tag [cn] and for the empty tag, and excluded for the
    tag [us]; the text [@TAG] need not be a whole word of the region: the
    line is included for the tag [c] too. *)
Theorem C4_filter_semantics (line fromPrefix : string) (kind : RuleKind)
    (filter : string) :
  let rest := restOf (SplitN2 line space) in
  snd (parseRuleLine line fromPrefix kind EmptyString) = true
  /\ (snd (parseRuleLine line fromPrefix kind filter) = true <->
      filter = EmptyString
      \/ (HasPrefix (TrimSpace rest) "@" = true
          /\ spec_containsTag (TrimSpace rest) filter))
  /\ Parse 0 emptyArchive "domain:example.com @cn" "cn"
     = Ok [ruleItem (mkRule RuleDomainSuffix "example.com" "@cn")]
  /\ Parse 0 emptyArchive "domain:example.com @cn" "us" = Ok []
  /\ Parse 0 emptyArchive "domain:example.com @cn" EmptyString
     = Ok [ruleItem (mkRule RuleDomainSuffix "example.com" "@cn")]
  /\ Parse 0 emptyArchive "domain:example.com @cn" "c"
     = Ok [ruleItem (mkRule RuleDomainSuffix "example.com" "@cn")].
Proof.
  intros rest.
  assert (Hflag : snd (parseRuleLine line fromPrefix kind filter)
                  = matchesFilter rest filter).
  { unfold parseRuleLine. fold rest. now destruct (matchesFilter rest filter). }
  split; [reflexivity|].
  split; [rewrite Hflag; apply matchesFilter_spec|].
  repeat split; reflexivity.
Qed.

(** C4, as the specification states it, fails: a trailing region that
    contains [@cn] with no [#] before it, but does not start with [@], is
    excluded. *)
Lemma C4_tag_not_leading_counterexample :
  spec_containsTag (restOf (SplitN2 "domain:example.com x @cn" space)) "cn"
  /\ snd (parseRuleLine "domain:example.com x @cn" "domain:" RuleDomainSuffix "cn")
     = false
  /\ Parse 0 emptyArchive "domain:example.com x @cn" "cn" = Ok [].
Proof.
  split; [|split; reflexivity].
  exists "x ", EmptyString. split; [reflexivity|].
  unfold occurs. simpl. intuition discriminate.
Qed.

End ParserFacts.

(** ** The wildcard translator *)

Module WildcardFacts.
Import GoStrings GoStringsFacts Wildcard.

Lemma containsDangerousNode_reaches (re : Regexp) :
  containsDangerousNode re = true <-> reachesLossy re.
Proof.
  induction re as [op sub rune IH] using Regexp_tree_ind.
  assert (Hsub : existsb containsDangerousNode sub = true <->
                 exists s, In s sub /\ reachesLossy s).
  { rewrite existsb_exists. rewrite List.Forall_forall in IH.
    split; intros (s & Hin & Hs); exists s; (split; [exact Hin|]);
      now apply (IH s Hin). }
  split.
  - intros H. destruct op; simpl in H; try discriminate;
      try (now apply reaches_here);
      apply Hsub in H as (s & Hin & Hs);
      apply (reaches_below _ _ _ s); auto.
  - intros H. inversion H as [? ? ? Hl|? ? ? s Hop Hin Hs]; subst.
    + destruct op; try discriminate; reflexivity.
    + assert (He : existsb containsDangerousNode sub = true)
        by (apply Hsub; now exists s).
      destruct Hop as [ -> | [ -> | [ -> | -> ] ] ]; exact He.
Qed.

Lemma containsDangerousNode_spec (re : Regexp) :
  containsDangerousNode re = true -> spec_containsLossy re = true.
Proof.
  induction re as [op sub rune IH] using Regexp_tree_ind. intros H.
  cbn [spec_containsLossy].
  destruct (isLossyOp op) eqn:Hl; [reflexivity|].
  apply orb_true_iff. right.
  assert (He : existsb containsDangerousNode sub = true)
    by (destruct op; simpl in H, Hl; try discriminate; exact H).
  apply existsb_exists in He as (s & Hin & Hs). apply existsb_exists.
  exists s. split; [exact Hin|]. rewrite List.Forall_forall in IH. now apply IH.
Qed.

(** *** The loop of [isBroadPattern] *)

Lemma broadStep_fold (l : list ascii) (st : broadState) :
  wildcardOnly (fold_left broadStep l st) = wildcardOnly st && forallb isWildcard l
  /\ questionCount (fold_left broadStep l st)
     = questionCount st
       + Z.of_nat (List.length (List.filter (fun c => Ascii.eqb c "?") l)).
Proof.
  revert st. induction l as [|c l IH]; intros st; simpl.
  - rewrite andb_true_r. split; [reflexivity|lia].
  - destruct (IH (broadStep st c)) as [Hw Hq]. rewrite Hw, Hq.
    unfold broadStep, isWildcard.
    destruct (Ascii.eqb c "*") eqn:Estar.
    + apply Ascii.eqb_eq in Estar. subst c. simpl. split; [reflexivity|lia].
    + destruct (Ascii.eqb c "?") eqn:Equest; simpl.
      * split; [reflexivity|]. rewrite Nat2Z.inj_succ. lia.
      * destruct (Ascii.eqb c "."); simpl; rewrite andb_false_r; split;
          reflexivity.
Qed.

Lemma length_list_ascii (w : string) :
  List.length (list_ascii_of_string w) = String.length w.
Proof. induction w as [|c w IH]; simpl; [reflexivity|now rewrite IH]. Qed.

(** [isBroadPattern] by what the pattern is made of. *)
Lemma isBroadPattern_spec (w : string) :
  isBroadPattern w
  = (negb (String.eqb w EmptyString) && forallb isWildcard (list_ascii_of_string w))
    || (3 <=? countQuestion w)%nat.
Proof.
  unfold isBroadPattern, countQuestion.
  destruct (broadStep_fold (list_ascii_of_string w) (mkBroad true 0)) as [Hw Hq].
  rewrite Hw, Hq. simpl wildcardOnly. simpl questionCount.
  set (n := List.length (List.filter _ _)).
  assert (Hlen : (0 <? Z.of_nat (String.length w)) = negb (String.eqb w EmptyString))
    by (destruct w; reflexivity).
  rewrite Hlen.
  assert (Hq3 : (3 <=? 0 + Z.of_nat n) = (3 <=? n)%nat).
  { destruct (3 <=? n)%nat eqn:E.
    - apply Nat.leb_le in E. apply Z.leb_le. lia.
    - apply Nat.leb_gt in E. apply Z.leb_gt. lia. }
  rewrite Hq3.
  destruct (negb (String.eqb w EmptyString));
    destruct (forallb isWildcard (list_ascii_of_string w));
    destruct (3 <=? n)%nat; reflexivity.
Qed.

Lemma isBroadPattern_spec_broad (w : string) :
  isBroadPattern w = true -> spec_broad w = true.
Proof.
  rewrite isBroadPattern_spec. unfold spec_broad. intros H.
  apply orb_true_iff in H as [H|H]; apply orb_true_iff; [left|now right].
  apply andb_prop in H as [_ H]. rewrite forallb_forall in *.
  intros c Hc. specialize (H c Hc). unfold isWildcard in H.
  unfold isWildcardOrDot. now rewrite H.
Qed.

(** Without a dot, being made of wildcard characters and dots is being
    made of wildcard characters. *)
Lemma no_dot_wildcards (w : string) :
  ~ occurs "."%char w ->
  forallb isWildcardOrDot (list_ascii_of_string w)
  = forallb isWildcard (list_ascii_of_string w).
Proof.
  unfold occurs. induction (list_ascii_of_string w) as [|c l IH]; simpl;
    [reflexivity|].
  intros H. rewrite IH by tauto. f_equal.
  unfold isWildcardOrDot, isWildcard.
  destruct (Ascii.eqb c ".") eqn:E; [|now rewrite orb_false_r].
  apply Ascii.eqb_eq in E. subst c. tauto.
Qed.

Section WithRegexParser.
Variable syntaxParse : string -> option Regexp.

(** C3, as the code has it.  [IsDangerousRegex] returns true only if (a)
    the pattern does not parse, (b) its tree contains a char-class, an
    alternation or a bounded repeat, or (c) the translation is made of
    wildcard characters and dots only or has three or more [?].  It
    returns true when the pattern does not parse; when such a construct
    is reached from the root through capture groups, concatenations and
    the quantifiers [*] and [+]; when the translation is not empty and is
    made of [*] and [?] only; and when the translation has three or more
    [?].  An empty translation is not broad.  For a tree whose constructs
    of (b) are all reached in that way and whose translation has no dot,
    it returns true exactly when (a), (b) or (c) holds, with the
    translation of (c) not empty.  The structural check and the check of
    the translation are both made, and either suffices. *)
Theorem C3_dangerous_classification (regex : string) :
  (IsDangerousRegex syntaxParse regex = true ->
   spec_IsDangerous syntaxParse regex = true)
  /\ (syntaxParse (unslashed regex) = None ->
      IsDangerousRegex syntaxParse regex = true)
  /\ isBroadPattern EmptyString = false
  /\ (forall re,
        syntaxParse (unslashed regex) = Some re ->
        let w := convertNode re in
        (IsDangerousRegex syntaxParse regex
         = containsDangerousNode re || isBroadPattern w)
        /\ (reachesLossy re -> IsDangerousRegex syntaxParse regex = true)
        /\ (w <> EmptyString ->
            forallb isWildcard (list_ascii_of_string w) = true ->
            IsDangerousRegex syntaxParse regex = true)
        /\ ((3 <= countQuestion w)%nat ->
            IsDangerousRegex syntaxParse regex = true)
        /\ (~ occurs "."%char w ->
            (spec_containsLossy re = true -> reachesLossy re) ->
            (IsDangerousRegex syntaxParse regex = true <->
             spec_containsLossy re = true
             \/ (w <> EmptyString
                 /\ forallb isWildcardOrDot (list_ascii_of_string w) = true)
             \/ (3 <= countQuestion w)%nat))).
Proof.
  unfold IsDangerousRegex, spec_IsDangerous. fold (unslashed regex).
  destruct (syntaxParse (unslashed regex)) as [re|].
  2:{ repeat (split; [reflexivity|]). intros re [=]. }
  split.
  { destruct (containsDangerousNode re) eqn:Hc.
    - intros _. now rewrite (containsDangerousNode_spec re Hc).
    - intros Hb. rewrite (isBroadPattern_spec_broad _ Hb). apply orb_true_r. }
  split; [discriminate|]. split; [reflexivity|].
  intros re' [= <-]. set (w := convertNode re).
  assert (Heq : (if containsDangerousNode re then true else isBroadPattern w)
                = containsDangerousNode re || isBroadPattern w)
    by now destruct (containsDangerousNode re).
  rewrite Heq. split; [reflexivity|].
  split; [intros Hr; apply containsDangerousNode_reaches in Hr; now rewrite Hr|].
  split.
  { intros Hne Hall. rewrite isBroadPattern_spec, Hall.
    apply String.eqb_neq in Hne. rewrite Hne. simpl. apply orb_true_r. }
  split.
  { intros Hq. rewrite isBroadPattern_spec. apply Nat.leb_le in Hq. rewrite Hq.
    rewrite !orb_true_r. reflexivity. }
  intros Hdot Hreach.
  assert (Hb : spec_containsLossy re = true <-> reachesLossy re).
  { split; [exact Hreach|]. intros Hr. apply containsDangerousNode_spec.
    now apply containsDangerousNode_reaches. }
  rewrite (no_dot_wildcards w Hdot), isBroadPattern_spec, Hb.
  rewrite !orb_true_iff, andb_true_iff, negb_true_iff, String.eqb_neq,
    Nat.leb_le, containsDangerousNode_reaches.
  tauto.
Qed.

End WithRegexParser.

Lemma C3_dangerous_classification_witness :
  IsDangerousRegex sampleParse "/[a-z]+\.example\.com/" = true.
Proof.
  refine (proj1 (proj2 (proj2 (proj2 (proj2 (C3_dangerous_classification sampleParse
            "/[a-z]+\.example\.com/"))) _ eq_refl)) _).
  apply (reaches_below _ _ _ (Re OpPlus [charRange "a" "z"] []));
    [tauto|simpl; tauto|].
  apply (reaches_below _ _ _ (charRange "a" "z")); [tauto|simpl; tauto|].
  now apply reaches_here.
Defined.

(** C3, as the specification states it, fails: a translation that is
    empty has no literal text at all and is made of wildcard characters
    and dots only, yet the regex is not judged dangerous. *)
Lemma C3_empty_translation_counterexample :
  RegexToWildcard sampleParse "^$" = EmptyString
  /\ spec_IsDangerous sampleParse "^$" = true
  /\ IsDangerousRegex sampleParse "^$" = false.
Proof. repeat split; reflexivity. Qed.

(** A char-class beneath a [?] quantifier is not found by
    [containsDangerousNode], which descends through [*] and [+] only. *)
Lemma containsDangerousNode_skips_optional :
  spec_IsDangerous sampleParse "a[b-z]?c" = true
  /\ RegexToWildcard sampleParse "a[b-z]?c" = "a*c"
  /\ IsDangerousRegex sampleParse "a[b-z]?c" = false.
Proof. repeat split; reflexivity. Qed.

(** A translation made of a wildcard and a dot is not judged broad,
    although the comment of [isBroadPattern] counts the dot as no
    literal. *)
Lemma isBroadPattern_wildcard_and_dot :
  RegexToWildcard sampleParse ".*\." = "*."
  /\ IsDangerousRegex sampleParse ".*\." = false
  /\ spec_IsDangerous sampleParse ".*\." = true.
Proof. repeat split; reflexivity. Qed.

End WildcardFacts.

(** ** The renderers *)

Module RenderFacts.
Import GoStrings GoStringsFacts Wildcard Render.

(** *** Trimming a line that starts with a plain byte *)

Lemma plainByte_no_space2 (x c : ascii) : plainByte x = true -> space2 x c = false.
Proof.
  unfold plainByte, space2. intros H. apply andb_prop in H as [H _].
  apply N.ltb_lt in H. destruct (byte x =? 194)%N eqn:E; [|reflexivity].
  apply N.eqb_eq in E. lia.
Qed.

Lemma plainByte_no_space3 (x c d : ascii) : plainByte x = true -> space3 x c d = false.
Proof.
  unfold plainByte, space3. intros H. apply andb_prop in H as [H _].
  apply N.ltb_lt in H.
  destruct (byte x) as [|p] eqn:E; [reflexivity|].
  do 8 (destruct p as [p|p|]; try reflexivity); exfalso; lia.
Qed.

Lemma trimLeft_plain (x : ascii) (l : list ascii) :
  plainByte x = true -> trimLeft (x :: l) = x :: l.
Proof.
  intros Hx. pose proof Hx as Hx'. unfold plainByte in Hx'.
  apply andb_prop in Hx' as [_ Hsp]. apply negb_true_iff in Hsp.
  simpl. rewrite Hsp. destruct l as [|c l]; [reflexivity|].
  rewrite (plainByte_no_space2 x c Hx). destruct l as [|d l]; [reflexivity|].
  now rewrite (plainByte_no_space3 x c d Hx).
Qed.

Lemma trimLeftRev_plain_aux (x : ascii) (n : nat) :
  plainByte x = true ->
  forall l, (List.length l <= n)%nat -> exists p, trimLeftRev (l ++ [x]) = p ++ [x].
Proof.
  intros Hx. pose proof Hx as Hx'. unfold plainByte in Hx'.
  apply andb_prop in Hx' as [_ Hsp]. apply negb_true_iff in Hsp.
  induction n as [|n IH]; intros l Hlen.
  - destruct l; simpl in Hlen; [|lia]. exists []. simpl. now rewrite Hsp.
  - destruct l as [|c0 r0]; [exists []; simpl; now rewrite Hsp|].
    simpl in Hlen. cbn [app trimLeftRev].
    destruct (asciiSpace c0); [apply IH; lia|].
    destruct r0 as [|c1 r1]; cbn [app].
    { rewrite (plainByte_no_space2 x c0 Hx). now exists [c0]. }
    simpl in Hlen. destruct (space2 c1 c0); [apply IH; lia|].
    destruct r1 as [|c2 r2]; cbn [app].
    { rewrite (plainByte_no_space3 x c1 c0 Hx). now exists [c0; c1]. }
    simpl in Hlen. destruct (space3 c2 c1 c0); [apply IH; lia|].
    now exists (c0 :: c1 :: c2 :: r2).
Qed.

(** Trimming keeps a plain first byte in place. *)
Lemma TrimSpace_plain_head (x : ascii) (s : string) :
  plainByte x = true -> exists s', TrimSpace (String x s) = String x s'.
Proof.
  intros Hx. unfold TrimSpace. cbn [list_ascii_of_string].
  rewrite (trimLeft_plain x _ Hx). cbn [rev].
  destruct (trimLeftRev_plain_aux x _ Hx (rev (list_ascii_of_string s)) (le_n _))
    as [p Hp].
  rewrite Hp, rev_app_distr. simpl. now eexists.
Qed.

Lemma isCommentedOut_head (x : ascii) (s : string) :
  plainByte x = true ->
  isCommentedOut (String x s) = Ascii.eqb "#" x.
Proof.
  intros Hx. unfold isCommentedOut.
  destruct (TrimSpace_plain_head x s Hx) as [s' ->]. simpl.
  now rewrite andb_true_r.
Qed.

Lemma appendComment_head (x : ascii) (s comment : string) :
  exists s', appendComment (String x s) comment = String x s'.
Proof.
  unfold appendComment.
  destruct (String.eqb comment EmptyString); [now eexists|].
  destruct (HasPrefix comment "#"); simpl; now eexists.
Qed.

Lemma isCommentedOut_appendComment (x : ascii) (s comment : string) :
  plainByte x = true ->
  isCommentedOut (appendComment (String x s) comment) = Ascii.eqb "#" x.
Proof.
  intros Hx. destruct (appendComment_head x s comment) as [s' ->].
  now apply isCommentedOut_head.
Qed.

(** Every line of the Mihomo dialect is an enabled rule line. *)
Lemma renderMihomoRule_enabled (rule : Rule) :
  isCommentedOut (renderMihomoRule rule) = false.
Proof.
  unfold renderMihomoRule.
  destruct (Rule_Kind rule);
    exact (isCommentedOut_appendComment "D" _ _ eq_refl).
Qed.

(** *** The loop *)

Section Loop.
Variable renderRule : Rule -> string.

Lemma renderLoop_app (l1 l2 : list Item) (st : renderState) :
  renderLoop renderRule (l1 ++ l2) st
  = renderLoop renderRule l2 (renderLoop renderRule l1 st).
Proof. apply fold_left_app. Qed.

(** A Comment item leaves the lines written so far as they are. *)
Lemma renderStep_comment_lines (st : renderState) (item : Item) :
  Item_Kind item = ItemComment ->
  result_lines (renderStep renderRule st item) = result_lines st.
Proof.
  intros Hk. unfold renderStep. rewrite Hk.
  now destruct (HasPrefix (TrimSpace (Item_Comment item)) "# include:").
Qed.

Lemma renderLoop_comments_lines (items : list Item) (st : renderState) :
  Forall (fun item => Item_Kind item = ItemComment) items ->
  result_lines (renderLoop renderRule items st) = result_lines st.
Proof.
  intros H. revert st. induction H as [|item items Hk _ IH]; intros st;
    [reflexivity|].
  simpl. rewrite IH. now apply renderStep_comment_lines.
Qed.

(** A rule whose line is taken for a comment leaves the lines written so
    far as they are. *)
Lemma renderStep_disabled_lines (st : renderState) (rule : Rule) :
  isCommentedOut (renderRule rule) = true ->
  result_lines (renderStep renderRule st (ruleItem rule)) = result_lines st.
Proof.
  intros Hd. unfold renderStep, ruleItem. cbn [Item_Kind Item_Rule].
  unfold isCommentedOut in Hd. now rewrite Hd.
Qed.

(** Of two ordinary comments in a row, the first leaves no trace. *)
Lemma renderStep_comment_overwritten (st : renderState) (c1 c2 : Item) :
  ordinaryComment c1 -> ordinaryComment c2 ->
  renderStep renderRule (renderStep renderRule st c1) c2
  = renderStep renderRule st c2.
Proof.
  intros [Hk1 He1] [Hk2 He2]. unfold renderStep, isIncludeEcho in *.
  now rewrite Hk1, Hk2, He1, He2.
Qed.

Lemma renderLoop_comments_overwritten (cs : list Item) (c : Item) (st : renderState) :
  Forall ordinaryComment cs -> ordinaryComment c ->
  renderLoop renderRule (cs ++ [c]) st = renderStep renderRule st c.
Proof.
  intros Hcs Hc. revert st. induction Hcs as [|c1 cs Hc1 Hcs IH]; intros st;
    [reflexivity|].
  simpl. change (fold_left (renderStep renderRule) (cs ++ [c]) ?s)
    with (renderLoop renderRule (cs ++ [c]) s).
  rewrite IH. now apply renderStep_comment_overwritten.
Qed.

(** An ordinary comment with a text, then a rule whose line is enabled:
    the pending include echoes, the comment and the rule line are
    written, in this order. *)
Lemma renderStep_comment_then_rule (st : renderState) (c : Item) (rule : Rule) :
  ordinaryComment c -> Item_Comment c <> EmptyString ->
  isCommentedOut (renderRule rule) = false ->
  renderStep renderRule (renderStep renderRule st c) (ruleItem rule)
  = mkRenderState
      (result_lines st ++ pendingIncludeComments st
         ++ [Item_Comment c; renderRule rule])
      [] EmptyString.
Proof.
  intros [Hk He] Hne Hen.
  unfold renderStep, ruleItem, isIncludeEcho, isCommentedOut in *.
  rewrite Hk, He.
  cbn [Item_Kind Item_Rule result_lines pendingIncludeComments pendingComment].
  rewrite Hen. apply String.eqb_neq in Hne. rewrite Hne. cbn [negb]. f_equal.
  destruct (pendingIncludeComments st) as [|e es].
  - change (0 <? Z.of_nat (List.length (@nil string))) with false.
    cbv iota. now rewrite <- app_assoc.
  - replace (0 <? Z.of_nat (List.length (e :: es))) with true
      by (symmetry; apply Z.ltb_lt; simpl List.length; lia).
    now rewrite <- !app_assoc.
Qed.

End Loop.

Lemma renderLoop_drop_overwritten (renderRule : Rule -> string)
    (before cs : list Item) (c : Item) (after : list Item) :
  Forall ordinaryComment cs -> ordinaryComment c ->
  renderLoop renderRule (before ++ cs ++ c :: after) renderInit
  = renderLoop renderRule (before ++ c :: after) renderInit.
Proof.
  intros Hcs Hc.
  change (c :: after) with ([c] ++ after).
  rewrite (app_assoc cs [c] after).
  rewrite (renderLoop_app _ before ((cs ++ [c]) ++ after)).
  rewrite (renderLoop_app _ (cs ++ [c]) after).
  rewrite (renderLoop_comments_overwritten renderRule cs c _ Hcs Hc).
  now rewrite (renderLoop_app _ before ([c] ++ after)).
Qed.

Lemma linesOf_comment_then_rule (renderRule : Rule -> string)
    (before cs : list Item) (c : Item) (rule : Rule) :
  Forall ordinaryComment cs -> ordinaryComment c ->
  Item_Comment c <> EmptyString ->
  isCommentedOut (renderRule rule) = false ->
  linesOf renderRule (before ++ cs ++ [c; ruleItem rule])
  = linesOf renderRule before
      ++ pendingIncludeComments (renderLoop renderRule before renderInit)
      ++ [Item_Comment c; renderRule rule].
Proof.
  intros Hcs Hc Hne Hen. unfold linesOf.
  change [c; ruleItem rule] with ([c] ++ [ruleItem rule]).
  rewrite (app_assoc cs [c] _).
  rewrite (renderLoop_app _ before ((cs ++ [c]) ++ [ruleItem rule])).
  rewrite (renderLoop_app _ (cs ++ [c]) [ruleItem rule]).
  rewrite (renderLoop_comments_overwritten renderRule cs c _ Hcs Hc).
  cbn [renderLoop fold_left].
  now rewrite (renderStep_comment_then_rule renderRule _ c rule Hc Hne Hen).
Qed.

Lemma linesOf_trailing_comments (renderRule : Rule -> string)
    (items trailing : list Item) :
  Forall (fun item => Item_Kind item = ItemComment) trailing ->
  linesOf renderRule (items ++ trailing) = linesOf renderRule items.
Proof.
  intros H. unfold linesOf. rewrite renderLoop_app.
  now apply renderLoop_comments_lines.
Qed.

(** *** Regex rules in the two dialects *)

Section WithRegexParser.
Variable syntaxParse : string -> option Regexp.

Lemma renderSurgeRule_regex_disabled (value comment : string) :
  IsDangerousRegex syntaxParse value = true
  \/ skipPattern_MatchString (RegexToWildcard syntaxParse value) = true ->
  (renderSurgeRule syntaxParse (mkRule RuleDomainRegex value comment)
   = appendComment ("# DANGEROUS-REGEX," +:+ value) comment
   \/ renderSurgeRule syntaxParse (mkRule RuleDomainRegex value comment)
      = appendComment
          ("# SKIPPED-DOMAIN-WILDCARD," +:+ RegexToWildcard syntaxParse value) comment)
  /\ isCommentedOut (renderSurgeRule syntaxParse (mkRule RuleDomainRegex value comment))
     = true.
Proof.
  intros H. unfold renderSurgeRule. cbn [Rule_Kind Rule_Value Rule_Comment].
  destruct (IsDangerousRegex syntaxParse value).
  - split; [now left|]. exact (isCommentedOut_appendComment "#" _ _ eq_refl).
  - destruct H as [H|H]; [discriminate|]. rewrite H.
    split; [now right|]. exact (isCommentedOut_appendComment "#" _ _ eq_refl).
Qed.

(** C6. A regex rule that is judged dangerous, or whose translation is
    made of wildcard characters only, is rendered by [renderSurgeRule] as
    a commented-out line with its diagnostic tag; [RenderSurge] takes that
    line for a pending comment, so that the rule leaves no line in the
    output when only Comment items follow it, and an input made of this
    rule alone renders as the empty text.  [RenderMihomo] renders the rule
    as [DOMAIN-REGEX,] followed by its value. *)
Theorem C6_disabled_regex_rule_dropped (value comment : string)
    (before after : list Item) :
  IsDangerousRegex syntaxParse value = true
  \/ skipPattern_MatchString (RegexToWildcard syntaxParse value) = true ->
  Forall (fun item => Item_Kind item = ItemComment) after ->
  let rule := mkRule RuleDomainRegex value comment in
  (renderSurgeRule syntaxParse rule
   = appendComment ("# DANGEROUS-REGEX," +:+ value) comment
   \/ renderSurgeRule syntaxParse rule
      = appendComment
          ("# SKIPPED-DOMAIN-WILDCARD," +:+ RegexToWildcard syntaxParse value) comment)
  /\ RenderSurge syntaxParse (before ++ ruleItem rule :: after)
     = RenderSurge syntaxParse before
  /\ RenderSurge syntaxParse [ruleItem rule] = EmptyString
  /\ RenderMihomo [ruleItem rule] = appendComment ("DOMAIN-REGEX," +:+ value) comment.
Proof.
  intros Hbad Hafter rule.
  destruct (renderSurgeRule_regex_disabled value comment Hbad) as [Hform Hdis].
  fold rule in Hform, Hdis.
  assert (Hdrop : forall items,
             linesOf (renderSurgeRule syntaxParse) (items ++ [ruleItem rule])
             = linesOf (renderSurgeRule syntaxParse) items).
  { intros items. unfold linesOf. rewrite renderLoop_app. cbn [renderLoop fold_left].
    now apply renderStep_disabled_lines. }
  split; [exact Hform|]. split; [|split].
  - unfold RenderSurge. f_equal.
    change (linesOf (renderSurgeRule syntaxParse) (before ++ [ruleItem rule] ++ after)
            = linesOf (renderSurgeRule syntaxParse) before).
    now rewrite app_assoc, linesOf_trailing_comments, Hdrop.
  - unfold RenderSurge.
    change (Join (linesOf (renderSurgeRule syntaxParse) ([] ++ [ruleItem rule]))
              (String Parser.newline EmptyString) = EmptyString).
    now rewrite Hdrop.
  - unfold RenderMihomo, renderLoop, renderInit. cbn [fold_left].
    unfold renderStep, ruleItem. cbn [Item_Kind Item_Rule].
    pose proof (renderMihomoRule_enabled rule) as Hen. unfold isCommentedOut in Hen.
    rewrite Hen. reflexivity.
Qed.

(** C10, as the code has it.  One ordinary comment is pending at a time:
    of ordinary Comment items in a row, all but the last leave the output
    as it would be without them, in both dialects.  When the last one has
    a text and the rule that follows is rendered as an enabled line, which
    every rule is in [RenderMihomo], the lines written at that rule are the
    pending include echoes, that comment and the rule line.  Comment items
    after the last rule leave the output as it would be without them. *)
Theorem C10_pending_comment_buffer :
  (forall before cs c after,
      Forall ordinaryComment cs -> ordinaryComment c ->
      RenderSurge syntaxParse (before ++ cs ++ c :: after)
      = RenderSurge syntaxParse (before ++ c :: after)
      /\ RenderMihomo (before ++ cs ++ c :: after)
         = RenderMihomo (before ++ c :: after))
  /\ (forall before cs c rule,
        Forall ordinaryComment cs -> ordinaryComment c ->
        Item_Comment c <> EmptyString ->
        linesOf renderMihomoRule (before ++ cs ++ [c; ruleItem rule])
        = linesOf renderMihomoRule before
            ++ pendingIncludeComments (renderLoop renderMihomoRule before renderInit)
            ++ [Item_Comment c; renderMihomoRule rule]
        /\ (isCommentedOut (renderSurgeRule syntaxParse rule) = false ->
            linesOf (renderSurgeRule syntaxParse) (before ++ cs ++ [c; ruleItem rule])
            = linesOf (renderSurgeRule syntaxParse) before
                ++ pendingIncludeComments
                     (renderLoop (renderSurgeRule syntaxParse) before renderInit)
                ++ [Item_Comment c; renderSurgeRule syntaxParse rule]))
  /\ (forall items trailing,
        Forall (fun item => Item_Kind item = ItemComment) trailing ->
        RenderSurge syntaxParse (items ++ trailing) = RenderSurge syntaxParse items
        /\ RenderMihomo (items ++ trailing) = RenderMihomo items).
Proof.
  split; [|split].
  - intros before cs c after Hcs Hc. unfold RenderSurge, RenderMihomo.
    now rewrite !(renderLoop_drop_overwritten _ before cs c after Hcs Hc).
  - intros before cs c rule Hcs Hc Hne. split.
    + apply linesOf_comment_then_rule; auto using renderMihomoRule_enabled.
    + intros Hen. now apply linesOf_comment_then_rule.
  - intros items trailing Htr. unfold RenderSurge, RenderMihomo.
    fold (linesOf (renderSurgeRule syntaxParse) (items ++ trailing)).
    fold (linesOf renderMihomoRule (items ++ trailing)).
    now rewrite !linesOf_trailing_comments.
Qed.

End WithRegexParser.

Lemma C6_disabled_regex_rule_dropped_witness :
  RenderSurge sampleParse [ruleItem (mkRule RuleDomainRegex "[a-z]+\.example\.com" EmptyString)]
  = EmptyString.
Proof.
  refine (proj1 (proj2 (proj2 (C6_disabled_regex_rule_dropped sampleParse
            "[a-z]+\.example\.com" EmptyString [] [] _ _)))).
  - left. reflexivity.
  - constructor.
Defined.

Lemma C10_pending_comment_buffer_witness :
  linesOf renderMihomoRule
    [commentItem "# first"; commentItem "# second";
     ruleItem (mkRule RuleDomainSuffix "example.com" EmptyString)]
  = ["# second"; "DOMAIN-SUFFIX,example.com"].
Proof.
  refine (proj1 (proj1 (proj2 (C10_pending_comment_buffer sampleParse))
            [] [commentItem "# first"] (commentItem "# second")
            (mkRule RuleDomainSuffix "example.com" EmptyString) _ _ _)).
  - constructor; [split; reflexivity|constructor].
  - split; reflexivity.
  - discriminate.
Defined.

(** C10, as stated, fails in [RenderSurge]: when the rule that follows
    the comments is a regex rendered commented-out, that line takes the
    place of the pending comment and the last comment is not written
    either. *)
Lemma C10_comment_before_disabled_regex_counterexample :
  linesOf (renderSurgeRule sampleParse)
    [commentItem "# first"; commentItem "# second";
     ruleItem (mkRule RuleDomainRegex "[a-z]+\.example\.com" EmptyString);
     ruleItem (mkRule RuleDomainSuffix "example.com" EmptyString)]
  = ["# DANGEROUS-REGEX,[a-z]+\.example\.com"; "DOMAIN-SUFFIX,example.com"]
  /\ ~ In "# second"
       (linesOf (renderSurgeRule sampleParse)
          [commentItem "# first"; commentItem "# second";
           ruleItem (mkRule RuleDomainRegex "[a-z]+\.example\.com" EmptyString);
           ruleItem (mkRule RuleDomainSuffix "example.com" EmptyString)]).
Proof.
  split; [reflexivity|].
  intros [H|[H|[]]]; discriminate.
Qed.

End RenderFacts.

(** ** Laws of the caches *)

Module CacheLaws.
Import Cache.

(** [Time.Sub] grows with its first argument. *)
Lemma Sub_monotone (t t' u : Z) : t <= t' -> Sub t u <= Sub t' u.
Proof.
  intros H. unfold Sub, maxDuration, minDuration.
  repeat match goal with
         | |- context [if ?b then _ else _] => destruct b eqn:?
         end;
    rewrite ?Z.ltb_lt, ?Z.ltb_ge in *; lia.
Qed.

(** X1. [Get] after [Set] of the same key and fingerprint returns the
    stored value as long as the age of the entry does not exceed the TTL,
    and misses afterwards.  A second [Set] of the key replaces the first
    whatever its fingerprint: one entry is kept per key. *)
Theorem ResultCache_Set_Get_round_trip (c : ResultCache)
    (key v f : string) (t now : Z) :
  ResultCache_Get (ResultCache_Set c key v f t) key f now
  = (if ttl c <? Since now t then (EmptyString, false) else (v, true))
  /\ (forall v' f' t',
        ResultCache_Set (ResultCache_Set c key v f t) key v' f' t'
        = ResultCache_Set c key v' f' t').
Proof.
  split.
  - unfold ResultCache_Get, ResultCache_Set. cbn [results ttl].
    rewrite lookup_insert_eq. cbn [etag timestamp value].
    rewrite String.eqb_refl. reflexivity.
  - intros v' f' t'. unfold ResultCache_Set. cbn [results ttl].
    now rewrite insert_insert_eq.
Qed.

(** X2. [Set] of one key leaves the lookups of every other key as they
    were. *)
Theorem ResultCache_Set_other_key (c : ResultCache)
    (key key' v f f' : string) (t now : Z) :
  key <> key' ->
  ResultCache_Get (ResultCache_Set c key v f t) key' f' now
  = ResultCache_Get c key' f' now.
Proof.
  intros Hne. unfold ResultCache_Get, ResultCache_Set. cbn [results ttl].
  now rewrite lookup_insert_ne.
Qed.

Lemma ResultCache_Set_other_key_witness :
  ResultCache_Get
    (ResultCache_Set
       (ResultCache_Set (NewResultCache 100) "geosite:cn" "DOMAIN,a.cn" "etag-1" 5)
       "mihomo:cn" "DOMAIN,b.cn" "etag-1" 6)
    "geosite:cn" "etag-1" 7
  = ("DOMAIN,a.cn", true).
Proof.
  rewrite (ResultCache_Set_other_key _ "mihomo:cn" "geosite:cn"); [reflexivity|].
  discriminate.
Defined.

(** X3. The sweep removes only entries that [Get] no longer returns: at
    the time of the sweep and at any later time, every lookup gives after
    [Cleanup] what it gave before. *)
Theorem ResultCache_Cleanup_keeps_hits (c : ResultCache) (key f : string)
    (now now' : Z) :
  now <= now' ->
  ResultCache_Get (ResultCache_Cleanup c now) key f now'
  = ResultCache_Get c key f now'.
Proof.
  intros Hle. unfold ResultCache_Get, ResultCache_Cleanup. cbn [results ttl].
  rewrite map_lookup_filter.
  destruct (results c !! key) as [e|]; [|reflexivity]. cbn.
  destruct (ttl c <? Sub now (timestamp e)) eqn:Hexp.
  - rewrite option_guard_False by (cbn; tauto). cbn.
    apply Z.ltb_lt in Hexp.
    pose proof (Sub_monotone now now' (timestamp e) Hle) as Hm.
    assert (Hexp' : (ttl c <? Since now' (timestamp e)) = true)
      by (apply Z.ltb_lt; unfold Since; lia).
    rewrite Hexp'. now rewrite orb_true_r.
  - rewrite option_guard_True by (cbn; tauto). reflexivity.
Qed.

Lemma ResultCache_Cleanup_keeps_hits_witness :
  ResultCache_Get
    (ResultCache_Cleanup
       (ResultCache_Set (NewResultCache 100) "geosite:cn" "DOMAIN,a.cn" "etag-1" 5) 50)
    "geosite:cn" "etag-1" 60
  = ("DOMAIN,a.cn", true).
Proof.
  rewrite (ResultCache_Cleanup_keeps_hits _ "geosite:cn" "etag-1" 50 60);
    [reflexivity|lia].
Defined.

Section Zip.
Context {Reader : Type}.
Variable zipNewReader : string -> Reader + error.
Variable persistToFileLocked : ZipCache Reader -> option error.

(** X4. [ZipCache.Set] replaces payload, archive, fingerprint and
    timestamp together or not at all.  Bytes that are no archive leave
    the cache untouched and give the error of the archive reader.  For a
    valid archive the cache holds the new state even when persisting it
    fails: [GetAny] returns the new archive, and [Get] returns it until
    the TTL has elapsed since the store; the error returned is that of
    the persistence, if a path is configured. *)
Theorem ZipCache_Set_all_or_nothing (c : ZipCache Reader) (data f : string)
    (t now : Z) :
  (forall err, zipNewReader data = inr err ->
     ZipCache_Set zipNewReader persistToFileLocked c data f t = (c, Some err))
  /\ (forall r, zipNewReader data = inl r ->
        let c' := mkZipCache data (Some r) f t (zc_ttl c) (zc_persistPath c) in
        ZipCache_Set zipNewReader persistToFileLocked c data f t
        = (c', if String.eqb (zc_persistPath c) EmptyString then None
               else persistToFileLocked c')
        /\ ZipCache_GetAny c' = (Some r, f, true)
        /\ ZipCache_Get c' now
           = (if zc_ttl c <? Since now t then (None, f, false)
              else (Some r, f, true))).
Proof.
  split.
  - intros err H. unfold ZipCache_Set. now rewrite H.
  - intros r H c'. unfold ZipCache_Set. rewrite H. fold c'.
    cbn [zc_persistPath c']. split; [|split; reflexivity].
    now destruct (String.eqb (zc_persistPath c) EmptyString).
Qed.

(** X5. [Get] hands out an archive only together with a hit: on a miss
    the archive returned is nil, also when one is cached; and a hit of
    [Get] is what [GetAny] returns. *)
Theorem ZipCache_Get_miss_has_no_archive (c : ZipCache Reader) (now : Z) :
  (snd (ZipCache_Get c now) = false -> fst (fst (ZipCache_Get c now)) = None)
  /\ (snd (ZipCache_Get c now) = true -> ZipCache_Get c now = ZipCache_GetAny c).
Proof.
  unfold ZipCache_Get, ZipCache_GetAny.
  destruct (zc_reader c) as [r|]; [|split; [reflexivity|discriminate]].
  destruct (zc_ttl c <? Since now (zc_timestamp c)); split;
    reflexivity || discriminate.
Qed.

End Zip.

Lemma ZipCache_Set_all_or_nothing_witness :
  ZipCache_Set (fun _ : string => @inr nat error "zip: not a valid zip file")
    (fun _ => None) (NewZipCache 10) "not a zip" "etag-1" 5
  = (NewZipCache 10, Some "zip: not a valid zip file").
Proof.
  apply (ZipCache_Set_all_or_nothing
           (fun _ : string => @inr nat error "zip: not a valid zip file")
           (fun _ => None) (NewZipCache 10) "not a zip" "etag-1" 5 0).
  reflexivity.
Defined.

Lemma ZipCache_Get_miss_has_no_archive_witness :
  fst (fst (ZipCache_Get Fetcher.staleCache 20)) = None.
Proof.
  apply (ZipCache_Get_miss_has_no_archive Fetcher.staleCache 20). reflexivity.
Defined.

End CacheLaws.

(** ** Laws of the fetcher *)

Module FetcherLaws.
Import Cache Fetcher.

Section WithArchive.
Context {Reader : Type}.
Variable zipNewReader : string -> Reader + error.
Variable persistToFileLocked : ZipCache Reader -> option error.

Local Abbreviation GetZipReader := (GetZipReader zipNewReader persistToFileLocked).
Local Abbreviation RefreshZipReader := (RefreshZipReader zipNewReader persistToFileLocked).

Lemma no_archive_is_none : bool_decide (is_Some (@None Reader)) = false.
Proof. reflexivity. Qed.

(** On a miss [Get] returns the fingerprint of the cache and no archive. *)
Lemma ZipCache_Get_miss (c : ZipCache Reader) (now : Z) :
  snd (ZipCache_Get c now) = false ->
  ZipCache_Get c now
  = (None, match zc_reader c with Some _ => zc_etag c | None => EmptyString end, false).
Proof.
  unfold ZipCache_Get. destruct (zc_reader c); [|reflexivity].
  now destruct (zc_ttl c <? Since now (zc_timestamp c)).
Qed.

(** X6. What [GetZipReader] asks of upstream: nothing on a hit of the
    cache, in which case the cached archive and fingerprint are returned
    and the cache is left alone; the probe alone on a miss when the probe
    fails; the probe and then the download on every miss on which the
    probe answers, whatever fingerprint it answers. *)
Theorem GetZipReader_requests (c : ZipCache Reader) (up : upstream) (clk : clock) :
  (snd (ZipCache_Get c (t_get clk)) = true ->
   GetZipReader c up clk
   = mkOutcome c [] (zc_reader c) (zc_etag c) None)
  /\ (snd (ZipCache_Get c (t_get clk)) = false ->
      sent (GetZipReader c up clk)
      = match snd (GetETag up) with
        | Some _ => [HeadRequest]
        | None => [HeadRequest; DownloadRequest]
        end).
Proof.
  unfold GetZipReader, ZipCache_Get.
  destruct (zc_reader c) as [r|].
  - destruct (zc_ttl c <? Since (t_get clk) (zc_timestamp c));
      (split; [reflexivity || discriminate|]); try discriminate.
    intros _. rewrite no_archive_is_none.
    destruct (GetETag up) as [tag [e|]]; [reflexivity|]. cbn [snd].
    rewrite andb_false_r.
    destruct (downloadZip up) as [data [e|]]; [reflexivity|].
    destruct (ZipCache_Set _ _ c data tag (t_set clk)) as [c' [e|]]; [reflexivity|].
    now destruct (match zc_reader c' with Some _ => _ | None => _ end) as [[? ?] ?].
  - split; [discriminate|]. intros _.
    rewrite no_archive_is_none.
    destruct (GetETag up) as [tag [e|]]; [reflexivity|]. cbn [snd].
    rewrite andb_false_r.
    destruct (downloadZip up) as [data [e|]]; [reflexivity|].
    destruct (ZipCache_Set _ _ c data tag (t_set clk)) as [c' [e|]]; [reflexivity|].
    now destruct (match zc_reader c' with Some _ => _ | None => _ end) as [[? ?] ?].
Qed.

(** The cache after [Set], whatever [Set] returns. *)
Lemma Set_cache (c : ZipCache Reader) (data f : string) (t : Z) :
  fst (ZipCache_Set zipNewReader persistToFileLocked c data f t)
  = match zipNewReader data with
    | inl r => installed c data f r t
    | inr _ => c
    end.
Proof.
  unfold ZipCache_Set, installed. destruct (zipNewReader data) as [r|err];
    [|reflexivity].
  now destruct (String.eqb _ _).
Qed.

(** X7. Neither call populates the cache in part.  After
    [GetZipReader] and after [RefreshZipReader] the cache is the one
    before the call, unless the probe answered, the download succeeded
    and its bytes are a valid archive; then it holds exactly those bytes,
    their archive, the probed fingerprint and the time of the store. *)
Theorem fetch_updates_cache_atomically (c : ZipCache Reader) (up : upstream)
    (clk : clock) :
  let after o :=
    cache_after o = c
    \/ exists r,
         snd (GetETag up) = None /\ snd (downloadZip up) = None
         /\ zipNewReader (fst (downloadZip up)) = inl r
         /\ cache_after o
            = installed c (fst (downloadZip up)) (fst (GetETag up)) r (t_set clk) in
  after (GetZipReader c up clk) /\ after (RefreshZipReader c up clk).
Proof.
  cbv zeta.
  assert (Hset : forall data tag,
    let s := ZipCache_Set zipNewReader persistToFileLocked c data tag (t_set clk) in
    fst s = c \/ exists r, zipNewReader data = inl r
                           /\ fst s = installed c data tag r (t_set clk)).
  { intros data tag. cbv zeta. rewrite Set_cache.
    destruct (zipNewReader data) as [r|err]; [right; now exists r|now left]. }
  split.
  - unfold GetZipReader.
    destruct (ZipCache_Get c (t_get clk)) as [[rd tg] ok].
    destruct ok; [now left|].
    destruct (GetETag up) as [tag [e|]]; [destruct rd; now left|].
    destruct (String.eqb tg tag && bool_decide (is_Some rd)); [now left|].
    destruct (downloadZip up) as [data [e|]]; [now left|].
    specialize (Hset data tag). cbv zeta in Hset.
    destruct (ZipCache_Set _ _ c data tag (t_set clk)) as [c' [e|]]; cbn [fst] in Hset.
    + destruct Hset as [->|(r & Hr & ->)]; [now left|right; now exists r].
    + destruct (ZipCache_Get c' (t_reget clk)) as [[rd' tg'] ok'].
      destruct Hset as [->|(r & Hr & ->)]; [now left|right; now exists r].
  - unfold RefreshZipReader.
    destruct (ZipCache_GetAny c) as [[rd tg] ok].
    destruct (GetETag up) as [tag [e|]]; [destruct rd; now left|].
    destruct (String.eqb tg tag && bool_decide (is_Some rd)); [now left|].
    destruct (downloadZip up) as [data [e|]]; [now left|].
    specialize (Hset data tag). cbv zeta in Hset.
    destruct (ZipCache_Set _ _ c data tag (t_set clk)) as [c' [e|]]; cbn [fst] in Hset.
    + destruct Hset as [->|(r & Hr & ->)]; [now left|right; now exists r].
    + destruct (ZipCache_GetAny c') as [[rd' tg'] ok'].
      destruct Hset as [->|(r & Hr & ->)]; [now left|right; now exists r].
Qed.

Lemma fetch_pair_agrees (c : ZipCache Reader) (up : upstream) (clk : clock) :
  let agrees o :=
    ret_err o = None ->
    ret_etag o = zc_etag (cache_after o)
    /\ forall r, ret_reader o = Some r -> zc_reader (cache_after o) = Some r in
  agrees (GetZipReader c up clk) /\ agrees (RefreshZipReader c up clk).
Proof.
  cbv zeta.
  assert (Hset : forall data tag c',
    ZipCache_Set zipNewReader persistToFileLocked c data tag (t_set clk) = (c', None) ->
    exists r, c' = installed c data tag r (t_set clk)).
  { intros data tag c' H. pose proof (Set_cache c data tag (t_set clk)) as Hc.
    rewrite H in Hc. cbn [fst] in Hc. unfold ZipCache_Set in H.
    destruct (zipNewReader data) as [r|err]; [now exists r|discriminate]. }
  split.
  - unfold GetZipReader, ZipCache_Get.
    destruct (zc_reader c) as [r0|] eqn:Hr0.
    + destruct (zc_ttl c <? Since (t_get clk) (zc_timestamp c)).
      * rewrite no_archive_is_none.
        destruct (GetETag up) as [tag [e|]]; [discriminate|]. rewrite andb_false_r.
        destruct (downloadZip up) as [data [e|]]; [discriminate|].
        destruct (ZipCache_Set _ _ c data tag (t_set clk)) as [c' [e|]] eqn:Hs;
          [discriminate|].
        destruct (Hset _ _ _ Hs) as [r ->]. cbn [zc_reader installed].
        destruct (zc_ttl _ <? _); cbn; intros _; split; try reflexivity;
          congruence.
      * cbn. intros _. split; [reflexivity|congruence].
    + rewrite no_archive_is_none.
      destruct (GetETag up) as [tag [e|]]; [discriminate|]. rewrite andb_false_r.
      destruct (downloadZip up) as [data [e|]]; [discriminate|].
      destruct (ZipCache_Set _ _ c data tag (t_set clk)) as [c' [e|]] eqn:Hs;
        [discriminate|].
      destruct (Hset _ _ _ Hs) as [r ->]. cbn [zc_reader installed].
      destruct (zc_ttl _ <? _); cbn; intros _; split; try reflexivity;
        congruence.
  - unfold RefreshZipReader, ZipCache_GetAny.
    destruct (zc_reader c) as [r0|] eqn:Hr0.
    + destruct (GetETag up) as [tag [e|]].
      { cbn. intros _. split; [reflexivity|congruence]. }
      destruct (String.eqb (zc_etag c) tag && bool_decide (is_Some (Some r0))).
      { cbn. intros _. split; [reflexivity|congruence]. }
      destruct (downloadZip up) as [data [e|]]; [discriminate|].
      destruct (ZipCache_Set _ _ c data tag (t_set clk)) as [c' [e|]] eqn:Hs;
        [discriminate|].
      destruct (Hset _ _ _ Hs) as [r ->]. cbn. intros _.
      split; [reflexivity|congruence].
    + rewrite no_archive_is_none.
      destruct (GetETag up) as [tag [e|]]; [discriminate|]. rewrite andb_false_r.
      destruct (downloadZip up) as [data [e|]]; [discriminate|].
      destruct (ZipCache_Set _ _ c data tag (t_set clk)) as [c' [e|]] eqn:Hs;
        [discriminate|].
      destruct (Hset _ _ _ Hs) as [r ->]. cbn. intros _.
      split; [reflexivity|congruence].
Qed.


(** A hit of the cache is returned as it is. *)
Lemma GetZipReader_hit (c : ZipCache Reader) (up : upstream) (clk : clock) :
  snd (ZipCache_Get c (t_get clk)) = true ->
  GetZipReader c up clk = mkOutcome c [] (zc_reader c) (zc_etag c) None.
Proof.
  unfold GetZipReader, ZipCache_Get. destruct (zc_reader c); [|discriminate].
  now destruct (zc_ttl c <? Since (t_get clk) (zc_timestamp c)).
Qed.

(** X9. [RefreshZipReader] never returns a nil archive without an
    error. *)
Theorem RefreshZipReader_success_has_archive (c : ZipCache Reader)
    (up : upstream) (clk : clock) :
  ret_err (RefreshZipReader c up clk) = None ->
  is_Some (ret_reader (RefreshZipReader c up clk)).
Proof.
  unfold RefreshZipReader, ZipCache_GetAny.
  destruct (zc_reader c) as [r0|] eqn:Hr0.
  - destruct (GetETag up) as [tag [e|]]; [cbn; eauto|].
    destruct (String.eqb (zc_etag c) tag && bool_decide (is_Some (Some r0)));
      [cbn; eauto|].
    destruct (downloadZip up) as [data [e|]]; [discriminate|].
    unfold ZipCache_Set. destruct (zipNewReader data) as [r|err]; [|discriminate].
    destruct (String.eqb _ _); [cbn; eauto|].
    destruct (persistToFileLocked _); [discriminate|cbn; eauto].
  - rewrite no_archive_is_none.
    destruct (GetETag up) as [tag [e|]]; [discriminate|]. rewrite andb_false_r.
    destruct (downloadZip up) as [data [e|]]; [discriminate|].
    unfold ZipCache_Set. destruct (zipNewReader data) as [r|err]; [|discriminate].
    destruct (String.eqb _ _); [cbn; eauto|].
    destruct (persistToFileLocked _); [discriminate|cbn; eauto].
Qed.

(** A miss on which probe, download, archive reader and persistence all
    succeed. *)
Lemma GetZipReader_fresh_download (c : ZipCache Reader) (up : upstream)
    (clk : clock) (tag data : string) (r : Reader) :
  snd (ZipCache_Get c (t_get clk)) = false ->
  GetETag up = (tag, None) ->
  downloadZip up = (data, None) ->
  zipNewReader data = inl r ->
  (zc_persistPath c = EmptyString
   \/ persistToFileLocked (installed c data tag r (t_set clk)) = None) ->
  GetZipReader c up clk
  = mkOutcome (installed c data tag r (t_set clk)) [HeadRequest; DownloadRequest]
      (if zc_ttl c <? Since (t_reget clk) (t_set clk) then None else Some r)
      tag None.
Proof.
  intros Hmiss Hprobe Hdl Hzip Hpersist.
  pose proof (ZipCache_Get_miss c (t_get clk) Hmiss) as Hget.
  unfold GetZipReader. rewrite Hget, Hprobe, no_archive_is_none, andb_false_r, Hdl.
  unfold ZipCache_Set. rewrite Hzip. fold (installed c data tag r (t_set clk)).
  assert (Hp : (if String.eqb (zc_persistPath (installed c data tag r (t_set clk)))
                     EmptyString
                then (installed c data tag r (t_set clk), None)
                else (installed c data tag r (t_set clk),
                      persistToFileLocked (installed c data tag r (t_set clk))))
               = (installed c data tag r (t_set clk), None)).
  { cbn [zc_persistPath installed].
    destruct Hpersist as [ -> | -> ]; [reflexivity|now destruct (String.eqb _ _)]. }
  rewrite Hp. unfold ZipCache_Get. cbn [zc_reader zc_ttl zc_timestamp zc_etag installed].
  now destruct (zc_ttl c <? Since (t_reget clk) (t_set clk)).
Qed.

(** X10. After a download that succeeds, [GetZipReader] reads the cache
    again with [Get]: when the TTL has already elapsed at that reading
    (always so when the TTL is negative, and when it is zero as soon as
    the clock has advanced), it returns a nil archive together with the
    new fingerprint and no error. *)
Theorem GetZipReader_nil_archive_without_error (c : ZipCache Reader)
    (up : upstream) (clk : clock) (tag data : string) (r : Reader) :
  snd (ZipCache_Get c (t_get clk)) = false ->
  GetETag up = (tag, None) ->
  downloadZip up = (data, None) ->
  zipNewReader data = inl r ->
  (zc_persistPath c = EmptyString
   \/ persistToFileLocked (installed c data tag r (t_set clk)) = None) ->
  let o := GetZipReader c up clk in
  ret_err o = None /\ ret_etag o = tag
  /\ (ret_reader o = None <-> zc_ttl c < Since (t_reget clk) (t_set clk))
  /\ (ret_reader o = Some r <-> Since (t_reget clk) (t_set clk) <= zc_ttl c).
Proof.
  intros Hmiss Hprobe Hdl Hzip Hpersist. cbv zeta.
  rewrite (GetZipReader_fresh_download c up clk tag data r Hmiss Hprobe Hdl Hzip Hpersist).
  cbn [ret_err ret_etag ret_reader]. split; [reflexivity|]. split; [reflexivity|].
  destruct (zc_ttl c <? Since (t_reget clk) (t_set clk)) eqn:E.
  - apply Z.ltb_lt in E. split; split; intros; try reflexivity; try discriminate; lia.
  - apply Z.ltb_ge in E. split; split; intros; try reflexivity; try discriminate; lia.
Qed.

(** X11. After a call that downloaded and stored an archive, a second
    [GetZipReader] whose first reading of the clock is within the TTL of
    that store asks nothing of upstream and returns the stored archive
    with the fingerprint of the first call, leaving the cache as it is. *)
Theorem GetZipReader_second_call_is_served_from_cache (c : ZipCache Reader)
    (up up' : upstream) (clk clk' : clock) (tag data : string) (r : Reader) :
  snd (ZipCache_Get c (t_get clk)) = false ->
  GetETag up = (tag, None) ->
  downloadZip up = (data, None) ->
  zipNewReader data = inl r ->
  (zc_persistPath c = EmptyString
   \/ persistToFileLocked (installed c data tag r (t_set clk)) = None) ->
  Since (t_get clk') (t_set clk) <= zc_ttl c ->
  let o := GetZipReader c up clk in
  GetZipReader (cache_after o) up' clk'
  = mkOutcome (cache_after o) [] (Some r) (ret_etag o) None.
Proof.
  intros Hmiss Hprobe Hdl Hzip Hpersist Hfresh. cbv zeta.
  rewrite (GetZipReader_fresh_download c up clk tag data r Hmiss Hprobe Hdl Hzip Hpersist).
  cbn [cache_after ret_etag]. unfold GetZipReader, ZipCache_Get.
  cbn [zc_reader zc_ttl zc_timestamp zc_etag installed].
  apply Z.ltb_ge in Hfresh. now rewrite Hfresh.
Qed.

End WithArchive.

Lemma GetZipReader_requests_witness :
  sent (GetZipReader anyReader noPersist staleCache
          (mkUpstream ("etag-2", None) ("PK", None)) lateClock)
  = [HeadRequest; DownloadRequest].
Proof.
  apply (proj2 (GetZipReader_requests anyReader noPersist staleCache
                  (mkUpstream ("etag-2", None) ("PK", None)) lateClock)).
  reflexivity.
Defined.


Lemma RefreshZipReader_success_has_archive_witness :
  is_Some (ret_reader (RefreshZipReader noReader noPersist staleCache
                         (mkUpstream ("etag-1", None) (EmptyString, None)) lateClock)).
Proof.
  apply (RefreshZipReader_success_has_archive noReader noPersist staleCache
           (mkUpstream ("etag-1", None) (EmptyString, None)) lateClock).
  reflexivity.
Defined.

Lemma GetZipReader_nil_archive_without_error_witness :
  ret_err (GetZipReader anyReader noPersist (NewZipCache 0)
             (mkUpstream ("etag-2", None) ("PK", None)) lateClock) = None
  /\ ret_reader (GetZipReader anyReader noPersist (NewZipCache 0)
                   (mkUpstream ("etag-2", None) ("PK", None)) lateClock) = None.
Proof.
  destruct (GetZipReader_nil_archive_without_error anyReader noPersist (NewZipCache 0)
              (mkUpstream ("etag-2", None) ("PK", None)) lateClock "etag-2" "PK" 2%nat
              eq_refl eq_refl eq_refl eq_refl (or_introl eq_refl))
    as (Herr & _ & Hnil & _).
  split; [exact Herr|]. apply Hnil. vm_compute. reflexivity.
Defined.

Lemma GetZipReader_second_call_is_served_from_cache_witness :
  GetZipReader anyReader noPersist
    (cache_after (GetZipReader anyReader noPersist staleCache
                    (mkUpstream ("etag-2", None) ("PK", None)) lateClock))
    (mkUpstream (EmptyString, Some "dial tcp: timeout") (EmptyString, None))
    (mkClock 25 26 27)
  = mkOutcome
      (cache_after (GetZipReader anyReader noPersist staleCache
                      (mkUpstream ("etag-2", None) ("PK", None)) lateClock))
      [] (Some 2%nat) "etag-2" None.
Proof.
  apply (GetZipReader_second_call_is_served_from_cache anyReader noPersist staleCache
           (mkUpstream ("etag-2", None) ("PK", None))
           (mkUpstream (EmptyString, Some "dial tcp: timeout") (EmptyString, None))
           lateClock (mkClock 25 26 27) "etag-2" "PK" 2%nat
           eq_refl eq_refl eq_refl eq_refl (or_introl eq_refl)).
  vm_compute. discriminate.
Defined.

End FetcherLaws.

(** ** Laws of the rule parser *)

Module ParserLaws.
Import GoStrings GoStringsFacts Parser ParserFacts.

(** *** Pieces of a string hold no byte the string does not hold *)

Lemma occurs_skip (ch : ascii) (n : nat) (s : string) :
  occurs ch (skip n s) -> occurs ch s.
Proof.
  unfold occurs. revert s. induction n as [|n IH]; intros s; [tauto|].
  destruct s as [|d s]; simpl; [tauto|]. intros H. right. now apply IH.
Qed.

Lemma occurs_TrimPrefix (ch : ascii) (s p : string) :
  occurs ch (TrimPrefix s p) -> occurs ch s.
Proof.
  unfold TrimPrefix. destruct (HasPrefix s p); [apply occurs_skip|tauto].
Qed.

Lemma trimLeft_incl_aux (n : nat) :
  forall l, (List.length l <= n)%nat -> incl (trimLeft l) l.
Proof.
  induction n as [|n IH]; intros l Hlen.
  - destruct l; simpl in *; [apply incl_refl|lia].
  - destruct l as [|c0 r0]; [apply incl_refl|]. simpl in Hlen. simpl.
    destruct (asciiSpace c0); [apply incl_tl, IH; lia|].
    destruct r0 as [|c1 r1]; [apply incl_refl|]. simpl in Hlen.
    destruct (space2 c0 c1); [do 2 apply incl_tl; apply IH; lia|].
    destruct r1 as [|c2 r2]; [apply incl_refl|]. simpl in Hlen.
    destruct (space3 c0 c1 c2); [do 3 apply incl_tl; apply IH; lia|].
    apply incl_refl.
Qed.

Lemma trimLeftRev_incl (l : list ascii) : incl (trimLeftRev l) l.
Proof.
  destruct (trimLeftRev_suffix_aux _ l (le_n _)) as [p Hp].
  rewrite Hp at 2. now apply incl_appr, incl_refl.
Qed.

Lemma occurs_TrimSpace (ch : ascii) (s : string) :
  occurs ch (TrimSpace s) -> occurs ch s.
Proof.
  unfold occurs, TrimSpace. rewrite list_ascii_of_string_of_list_ascii.
  intros H. apply in_rev in H. apply trimLeftRev_incl in H. apply in_rev in H.
  exact (trimLeft_incl_aux _ _ (le_n _) _ H).
Qed.

Lemma SplitN2_parts (s : string) (sep ch : ascii) (part : string) :
  In part (SplitN2 s sep) -> occurs ch part -> occurs ch s.
Proof.
  unfold occurs. revert part. induction s as [|d s IH]; intros part; simpl.
  - intros [<-|[]]. tauto.
  - destruct (Ascii.eqb d sep).
    + intros [<-|[<-|[]]]; simpl; tauto.
    + destruct (SplitN2 s sep) as [|hd tl] eqn:E.
      * intros [<-|[]]. simpl. tauto.
      * intros [<-|Hin]; simpl.
        -- intros [->|H]; [now left|]. right. apply (IH hd); [now left|exact H].
        -- intros H. right. apply (IH part); [now right|exact H].
Qed.

Lemma SplitN2_head_no_sep (s : string) (sep : ascii) :
  ~ occurs sep (hd EmptyString (SplitN2 s sep)).
Proof.
  unfold occurs. induction s as [|d s IH]; simpl; [tauto|].
  destruct (Ascii.eqb d sep) eqn:E; [simpl; tauto|].
  apply Ascii.eqb_neq in E.
  destruct (SplitN2 s sep) as [|hd tl]; simpl in *; intuition congruence.
Qed.

Lemma Split_no_sep (s : string) (sep : ascii) (part : string) :
  In part (Split s sep) -> ~ occurs sep part.
Proof.
  unfold occurs. revert part. induction s as [|d s IH]; intros part; simpl.
  - intros [<-|[]]. simpl. tauto.
  - destruct (Ascii.eqb d sep) eqn:E.
    + intros [<-|Hin]; [simpl; tauto|now apply IH].
    + apply Ascii.eqb_neq in E. destruct (Split s sep) as [|hd tl] eqn:Es.
      * intros [<-|[]]. simpl. intuition congruence.
      * intros [<-|Hin].
        -- simpl. intros [H|H]; [congruence|]. apply (IH hd); [now left|exact H].
        -- apply IH. now right.
Qed.

Lemma restOf_part (parts : list string) :
  restOf parts = EmptyString \/ In (restOf parts) parts.
Proof.
  destruct parts as [|a [|b l]]; simpl; tauto.
Qed.

Lemma hd_part (parts : list string) :
  hd EmptyString parts = EmptyString \/ In (hd EmptyString parts) parts.
Proof. destruct parts; simpl; tauto. Qed.

(** The rule of a rule line. *)
Lemma parseRuleLine_rule (line p : string) (kind : RuleKind) (filter : string) :
  snd (parseRuleLine line p kind filter) = true ->
  let r := fst (parseRuleLine line p kind filter) in
  matchesFilter (Rule_Comment r) filter = true
  /\ r = fst (parseRuleLine line p kind EmptyString)
  /\ (forall ch, occurs ch (Rule_Value r) -> occurs ch line)
  /\ (forall ch, occurs ch (Rule_Comment r) -> occurs ch line)
  /\ ~ occurs space (Rule_Value r).
Proof.
  unfold parseRuleLine.
  destruct (matchesFilter (restOf (SplitN2 line space)) filter) eqn:Hm;
    [|discriminate].
  intros _. cbn [negb fst Rule_Comment Rule_Value matchesFilter].
  split; [exact Hm|]. split; [reflexivity|].
  assert (Hval : forall ch,
    occurs ch (if negb (String.eqb p EmptyString)
               then TrimPrefix (hd EmptyString (SplitN2 line space)) p
               else hd EmptyString (SplitN2 line space)) ->
    occurs ch (hd EmptyString (SplitN2 line space))).
  { intros ch. destruct (negb _); [apply occurs_TrimPrefix|tauto]. }
  split; [|split].
  - intros ch H. apply Hval in H.
    destruct (hd_part (SplitN2 line space)) as [E|Hin].
    + rewrite E in H. destruct H.
    + exact (SplitN2_parts _ _ _ _ Hin H).
  - intros ch H. destruct (restOf_part (SplitN2 line space)) as [E|Hin].
    + rewrite E in H. destruct H.
    + exact (SplitN2_parts _ _ _ _ Hin H).
  - intros H. apply Hval in H. exact (SplitN2_head_no_sep _ _ H).
Qed.

(** *** Invariants of the parse *)

Section WithArchive.
Context {Reader : Type}.
Variable c : Converter Reader.

Lemma parseLines_invariant (P : Item -> Prop)
    (subParse : string -> string -> result (list Item)) (filter : string)
    (lines : list string) :
  (forall raw, oneLine raw -> admits P filter raw) ->
  (forall s its, subParse s filter = Ok its -> Forall P its) ->
  Forall oneLine lines ->
  forall items its,
    Forall P items ->
    parseLines c subParse lines filter items = Ok its ->
    Forall P its.
Proof.
  intros Hadm Hsub Hlines. induction Hlines as [|raw lines Hraw _ IH];
    intros items its Hitems H.
  - simpl in H. now injection H as <-.
  - destruct (Hadm raw Hraw) as (Hcomment & Hrule & Hecho).
    cbn [parseLines] in H. set (line := TrimSpace raw) in *.
    assert (Happend : forall p kind,
               Forall P (appendRule items (parseRuleLine line p kind filter))).
    { intros p kind. unfold appendRule.
      destruct (snd (parseRuleLine line p kind filter)) eqn:E; [|exact Hitems].
      apply Forall_app. split; [exact Hitems|].
      constructor; [now apply Hrule|constructor]. }
    destruct (String.eqb line EmptyString); [exact (IH _ _ Hitems H)|].
    destruct (HasPrefix line "#") eqn:Hhash.
    { refine (IH _ _ _ H). apply Forall_app. split; [exact Hitems|].
      constructor; [now apply Hcomment|constructor]. }
    destruct (HasPrefix line "domain:"); [exact (IH _ _ (Happend _ _) H)|].
    destruct (HasPrefix line "full:"); [exact (IH _ _ (Happend _ _) H)|].
    destruct (HasPrefix line "keyword:"); [exact (IH _ _ (Happend _ _) H)|].
    destruct (HasPrefix line "regexp:"); [exact (IH _ _ (Happend _ _) H)|].
    destruct (HasPrefix line "include:"); [|exact (IH _ _ (Happend _ _) H)].
    unfold parseInclude in H.
    destruct (fileGetter c (zipReader c) _) as [content [err|]]; [discriminate|].
    destruct (subParse content filter) as [subItems| |] eqn:Hp; try discriminate.
    pose proof (Hsub _ _ Hp) as HsubItems.
    destruct (negb (hasRules subItems)).
    + rewrite app_nil_r in H. exact (IH _ _ Hitems H).
    + refine (IH _ _ _ H). apply Forall_app. split; [exact Hitems|].
      constructor; [exact Hecho|exact HsubItems].
Qed.

Lemma Split_oneLine (content : string) : Forall oneLine (Split content newline).
Proof.
  apply List.Forall_forall. intros part Hin. exact (Split_no_sep _ _ _ Hin).
Qed.

Lemma Parse_invariant (P : Item -> Prop) (filter : string) :
  (forall raw, oneLine raw -> admits P filter raw) ->
  forall fuel content items,
    Parse fuel c content filter = Ok items -> Forall P items.
Proof.
  intros Hadm. induction fuel as [|fuel IH]; intros content items H.
  - simpl in H.
    refine (parseLines_invariant P _ filter _ Hadm _ (Split_oneLine content)
              [] items (List.Forall_nil _) H).
    intros; discriminate.
  - rewrite Parse_succ in H.
    exact (parseLines_invariant P _ filter _ Hadm (fun s its => IH s its)
             (Split_oneLine content) [] items (List.Forall_nil _) H).
Qed.

Lemma oneLine_TrimSpace (raw : string) : oneLine raw -> oneLine (TrimSpace raw).
Proof. intros H Hocc. now apply H, occurs_TrimSpace. Qed.

(** The texts of the items of a parse have no line break. *)
Lemma Parse_oneLine (fuel : nat) (content filter : string) (items : list Item) :
  Parse fuel c content filter = Ok items -> Forall oneLineItem items.
Proof.
  apply Parse_invariant. intros raw Hraw.
  pose proof (oneLine_TrimSpace raw Hraw) as Hline.
  split; [|split].
  - intros _. split; [exact Hline|]. intros r [=].
  - intros p kind Hok.
    destruct (parseRuleLine_rule _ p kind filter Hok) as (_ & _ & Hv & Hc & Hsp).
    split; [unfold oneLine, occurs; simpl; tauto|].
    intros r [= <-]. split; [|split].
    + intros H. now apply Hline, Hv.
    + intros H. now apply Hline, Hc.
    + exact Hsp.
  - split; [|intros r [=]]. intros H.
    change (occurs newline (String "#" (String " " (TrimSpace raw)))) in H.
    unfold occurs in H. simpl in H.
    destruct H as [H|[H|H]]; [discriminate|discriminate|now apply Hline].
Qed.

(** X12. Every item of a parse is well formed: a Rule item carries a
    rule, and the trailing region of that rule passes the filter of the
    parse; a Comment item carries no rule and a text that starts with
    [#]. *)
Theorem Parse_items_well_formed (fuel : nat) (content filter : string)
    (items : list Item) :
  Parse fuel c content filter = Ok items ->
  Forall (wellFormed filter) items.
Proof.
  apply Parse_invariant. intros raw _. split; [|split].
  - intros Hhash. unfold wellFormed. simpl. now split.
  - intros p kind Hok.
    destruct (parseRuleLine_rule _ p kind filter Hok) as (Hm & _).
    unfold wellFormed. simpl. eexists. split; [reflexivity|]. now split.
  - unfold wellFormed. simpl. now split.
Qed.

(** *** The filter only removes *)

Lemma hasRules_sublist (a a0 : list Item) :
  sublist a a0 -> hasRules a = true -> hasRules a0 = true.
Proof.
  unfold hasRules. intros Hs H. apply existsb_exists in H as (x & Hin & Hx).
  apply existsb_exists. exists x. split; [|exact Hx].
  apply list_elem_of_In. apply list_elem_of_In in Hin.
  exact (elem_of_sublist _ _ _ Hin Hs).
Qed.

Lemma appendRule_filter_sublist (line p : string) (kind : RuleKind)
    (filter : string) :
  sublist (appendRule [] (parseRuleLine line p kind filter))
    (appendRule [] (parseRuleLine line p kind EmptyString)).
Proof.
  unfold parseRuleLine, appendRule. cbn [matchesFilter String.eqb negb snd fst].
  destruct (matchesFilter _ filter); cbn [negb snd fst app].
  - reflexivity.
  - apply sublist_nil_l.
Qed.

Lemma lineItems_filter_sublist
    (subF sub0 : string -> string -> result (list Item)) (filter raw : string)
    (a : list Item) :
  (forall s its, subF s filter = Ok its ->
     exists its0, sub0 s EmptyString = Ok its0 /\ sublist its its0) ->
  lineItems c subF filter raw = Ok a ->
  exists a0, lineItems c sub0 EmptyString raw = Ok a0 /\ sublist a a0.
Proof.
  intros Hsub. unfold lineItems. cbn [parseLines]. set (line := TrimSpace raw).
  assert (Hrule : forall p kind,
    Ok (appendRule [] (parseRuleLine line p kind filter)) = Ok a ->
    exists a0, Ok (appendRule [] (parseRuleLine line p kind EmptyString)) = Ok a0
               /\ sublist a a0).
  { intros p kind [= <-]. eexists. split; [reflexivity|].
    apply appendRule_filter_sublist. }
  destruct (String.eqb line EmptyString).
  { intros [= <-]. now exists []. }
  destruct (HasPrefix line "#").
  { intros [= <-]. eexists. split; reflexivity. }
  destruct (HasPrefix line "domain:"); [apply Hrule|].
  destruct (HasPrefix line "full:"); [apply Hrule|].
  destruct (HasPrefix line "keyword:"); [apply Hrule|].
  destruct (HasPrefix line "regexp:"); [apply Hrule|].
  destruct (HasPrefix line "include:"); [|apply Hrule].
  unfold parseInclude.
  destruct (fileGetter c (zipReader c) _) as [content [err|]]; [discriminate|].
  destruct (subF content filter) as [subItems| |] eqn:Hp; try discriminate.
  destruct (Hsub _ _ Hp) as (subItems0 & -> & Hs).
  destruct (hasRules subItems) eqn:Hr; cbn [negb].
  - rewrite (hasRules_sublist _ _ Hs Hr). cbn [negb app]. intros [= <-].
    eexists. split; [reflexivity|]. now apply sublist_skip.
  - cbn [app]. intros [= <-].
    destruct (negb (hasRules subItems0)); eexists; (split; [reflexivity|]);
      apply sublist_nil_l.
Qed.

Lemma concat_sublist (chunks chunks0 : list (list Item)) :
  Forall2 sublist chunks chunks0 -> sublist (concat chunks) (concat chunks0).
Proof.
  induction 1; simpl; [constructor|now apply sublist_app].
Qed.

Lemma parseLines_filter_sublist
    (subF sub0 : string -> string -> result (list Item)) (filter : string)
    (lines : list string) (items : list Item) :
  (forall s its, subF s filter = Ok its ->
     exists its0, sub0 s EmptyString = Ok its0 /\ sublist its its0) ->
  parseLines c subF lines filter [] = Ok items ->
  exists items0,
    parseLines c sub0 lines EmptyString [] = Ok items0 /\ sublist items items0.
Proof.
  intros Hsub H. apply parseLines_concat in H as (chunks & HF & ->).
  assert (Hch : exists chunks0,
    Forall2 (fun raw its => lineItems c sub0 EmptyString raw = Ok its) lines chunks0
    /\ Forall2 sublist chunks chunks0).
  { induction HF as [|raw a lines chunks Ha _ IH].
    - exists []. split; constructor.
    - destruct IH as (chunks0 & H1 & H2).
      destruct (lineItems_filter_sublist subF sub0 filter raw a Hsub Ha)
        as (a0 & Ha0 & Hs).
      exists (a0 :: chunks0). split; now constructor. }
  destruct Hch as (chunks0 & H1 & H2). exists (concat chunks0).
  split; [|now apply concat_sublist].
  apply parseLines_concat. now exists chunks0.
Qed.

(** X13. A filter only removes: when a parse with a filter returns,
    the parse of the same text with the empty filter returns too, and the
    filtered items are among the unfiltered ones, in the same order. *)
Theorem Parse_filter_sublist (fuel : nat) (content filter : string)
    (items : list Item) :
  Parse fuel c content filter = Ok items ->
  exists items0,
    Parse fuel c content EmptyString = Ok items0 /\ sublist items items0.
Proof.
  revert content items. induction fuel as [|fuel IH]; intros content items H.
  - simpl in *.
    apply (parseLines_filter_sublist (fun _ _ => OutOfFuel) (fun _ _ => OutOfFuel)
             filter _ _ ltac:(intros; discriminate) H).
  - rewrite Parse_succ in *.
    exact (parseLines_filter_sublist _ _ filter _ _ (fun s its => IH s its) H).
Qed.

End WithArchive.

Lemma Parse_items_well_formed_witness :
  Forall (wellFormed "cn")
    [commentItem "# include:google";
     ruleItem (mkRule RuleDomain "www.google.cn" "@cn")].
Proof.
  exact (Parse_items_well_formed sampleArchive 1 "include:google" "cn" _ eq_refl).
Defined.

Lemma Parse_filter_sublist_witness :
  exists items0,
    Parse 1 sampleArchive "include:google" EmptyString = Ok items0
    /\ sublist [commentItem "# include:google";
                ruleItem (mkRule RuleDomain "www.google.cn" "@cn")] items0.
Proof.
  exact (Parse_filter_sublist sampleArchive 1 "include:google" "cn" _ eq_refl).
Defined.

End ParserLaws.

(** ** Laws of the renderers *)

Module RenderLaws.
Import GoStrings GoStringsFacts Parser Wildcard Render RenderFacts.

(** *** Lines and line breaks *)

Lemma Split_oneLine_text (a : string) : oneLine a -> Split a newline = [a].
Proof.
  unfold oneLine, occurs. induction a as [|ch a IH]; simpl; [reflexivity|].
  intros H. destruct (Ascii.eqb ch newline) eqn:E.
  - apply Ascii.eqb_eq in E. tauto.
  - rewrite IH by tauto. reflexivity.
Qed.

Lemma Split_first_line (a rest : string) :
  oneLine a -> Split (a +:+ String newline rest) newline = a :: Split rest newline.
Proof.
  unfold oneLine, occurs. induction a as [|ch a IH]; simpl; intros H.
  - reflexivity.
  - destruct (Ascii.eqb ch newline) eqn:E.
    + apply Ascii.eqb_eq in E. tauto.
    + rewrite IH by tauto. reflexivity.
Qed.

(** Joining lines with line breaks and splitting the text again. *)
Lemma Split_Join (lines : list string) :
  Forall oneLine lines -> lines <> [] ->
  Split (Join lines (String newline EmptyString)) newline = lines.
Proof.
  induction 1 as [|a lines Ha Hl IH]; [congruence|]. intros _.
  destruct lines as [|b lines].
  - simpl. now apply Split_oneLine_text.
  - change (Join (a :: b :: lines) (String newline EmptyString))
      with (a +:+ String newline (Join (b :: lines) (String newline EmptyString))).
    rewrite (Split_first_line _ _ Ha), IH by discriminate. reflexivity.
Qed.

Lemma oneLine_append (a b : string) : oneLine a -> oneLine b -> oneLine (a +:+ b).
Proof. unfold oneLine. intros Ha Hb H. apply occurs_append in H. tauto. Qed.

Lemma oneLine_appendComment (line comment : string) :
  oneLine line -> oneLine comment -> oneLine (appendComment line comment).
Proof.
  intros Hl Hc. unfold appendComment.
  destruct (String.eqb comment EmptyString); [exact Hl|].
  destruct (HasPrefix comment "#"); repeat apply oneLine_append; auto;
    unfold oneLine, occurs; simpl; intuition discriminate.
Qed.

Lemma oneLine_renderMihomoRule (rule : Rule) :
  oneLine (Rule_Value rule) -> oneLine (Rule_Comment rule) ->
  oneLine (renderMihomoRule rule).
Proof.
  intros Hv Hc. unfold renderMihomoRule.
  destruct (Rule_Kind rule); apply oneLine_appendComment; auto;
    apply oneLine_append; auto; unfold oneLine, occurs; simpl;
    intuition discriminate.
Qed.

Lemma renderStep_oneLine (renderRule : Rule -> string) (st : renderState)
    (item : Item) :
  (forall r, Item_Rule item = Some r -> oneLine (renderRule r)) ->
  oneLine (Item_Comment item) ->
  oneLineState st -> oneLineState (renderStep renderRule st item).
Proof.
  intros Hrule Hcomment (Hres & Hinc & Hpen). unfold renderStep, oneLineState.
  destruct (Item_Kind item).
  - destruct (Item_Rule item) as [rule|]; [|now repeat split].
    specialize (Hrule rule eq_refl).
    destruct (HasPrefix (TrimSpace (renderRule rule)) "#"); cbn; [now repeat split|].
    repeat split; try (unfold oneLine, occurs; simpl; tauto).
    + apply Forall_app. split; [|now repeat constructor].
      destruct (negb _); [apply Forall_app; split; [|now repeat constructor]|];
        destruct (_ <? _); try apply Forall_app; auto.
    + constructor.
  - destruct (HasPrefix _ "# include:"); cbn; repeat split; auto.
    apply Forall_app. split; [exact Hinc|now repeat constructor].
Qed.

Lemma linesOf_oneLine (renderRule : Rule -> string) (items : list Item) :
  (forall r, oneLine (Rule_Value r) -> oneLine (Rule_Comment r) ->
             oneLine (renderRule r)) ->
  Forall oneLineItem items ->
  Forall oneLine (linesOf renderRule items).
Proof.
  intros Hrule Hitems. unfold linesOf.
  assert (H : forall st, oneLineState st ->
                oneLineState (renderLoop renderRule items st)).
  { induction Hitems as [|item items [Hc Hr] _ IH]; intros st Hst; [exact Hst|].
    simpl. apply IH. apply renderStep_oneLine; auto.
    intros r Hsome. destruct (Hr r Hsome) as (Hv & Hcm & _). now apply Hrule. }
  apply H. repeat split; try constructor. unfold oneLine, occurs. simpl. tauto.
Qed.

(** X14. The Mihomo text of a parse has one line for every comment and
    every rule the renderer writes: splitting the text at its line breaks
    gives back the lines written, since no value, trailing region or
    comment of a parse holds a line break. *)
Theorem RenderMihomo_lines_round_trip {Reader : Type} (c : Converter Reader)
    (fuel : nat) (content filter : string) (items : list Item) :
  Parse fuel c content filter = Ok items ->
  linesOf renderMihomoRule items <> [] ->
  Split (RenderMihomo items) newline = linesOf renderMihomoRule items.
Proof.
  intros Hparse Hne. unfold RenderMihomo. apply Split_Join; [|exact Hne].
  apply linesOf_oneLine; [apply oneLine_renderMihomoRule|].
  exact (ParserLaws.Parse_oneLine c fuel content filter items Hparse).
Qed.

Lemma RenderMihomo_lines_round_trip_witness :
  Split (RenderMihomo
           [commentItem "# include:google";
            ruleItem (mkRule RuleDomainSuffix "google.com" EmptyString);
            ruleItem (mkRule RuleDomain "www.google.cn" "@cn")]) newline
  = ["# include:google"; "DOMAIN-SUFFIX,google.com"; "DOMAIN,www.google.cn # @cn"].
Proof.
  refine (RenderMihomo_lines_round_trip sampleArchive 1 "include:google"
            EmptyString _ eq_refl _).
  discriminate.
Defined.

(** *** The two dialects *)

Lemma renderLoop_ext (r1 r2 : Rule -> string) (items : list Item)
    (st : renderState) :
  Forall (fun item => forall r, Item_Rule item = Some r -> r1 r = r2 r) items ->
  renderLoop r1 items st = renderLoop r2 items st.
Proof.
  intros H. revert st. induction H as [|item items Hi _ IH]; intros st;
    [reflexivity|].
  simpl. change (fold_left (renderStep ?r) items ?s) with (renderLoop r items s).
  rewrite IH. f_equal. unfold renderStep.
  destruct (Item_Kind item); [|reflexivity].
  destruct (Item_Rule item) as [r|]; [|reflexivity]. now rewrite (Hi r eq_refl).
Qed.

(** X15. The Surge and the Mihomo dialect differ in regex rules only:
    a sequence of items none of whose rules is of the regex kind renders
    to the same text in both, whatever the regex parser does. *)
Theorem RenderSurge_is_RenderMihomo_without_regex
    (syntaxParse : string -> option Regexp) (items : list Item) :
  Forall (fun item => forall r, Item_Rule item = Some r ->
                                Rule_Kind r <> RuleDomainRegex) items ->
  RenderSurge syntaxParse items = RenderMihomo items.
Proof.
  intros H. unfold RenderSurge, RenderMihomo. f_equal. f_equal.
  apply renderLoop_ext. eapply Forall_impl; [exact H|].
  intros item Hi r Hr. specialize (Hi r Hr). cbn in Hi.
  unfold renderSurgeRule, renderMihomoRule. destruct (Rule_Kind r); congruence.
Qed.

Lemma RenderSurge_is_RenderMihomo_without_regex_witness :
  RenderSurge sampleParse
    [commentItem "# list"; ruleItem (mkRule RuleDomainKeyword "google" "@ads")]
  = RenderMihomo
      [commentItem "# list"; ruleItem (mkRule RuleDomainKeyword "google" "@ads")].
Proof.
  apply RenderSurge_is_RenderMihomo_without_regex.
  repeat constructor; intros r [= <-]; discriminate.
Defined.

(** *** No enabled rule is lost *)

Lemma enabledLines_cons (renderRule : Rule -> string) (item : Item)
    (items : list Item) :
  enabledLines renderRule (item :: items)
  = match Item_Kind item, Item_Rule item with
    | ItemRule, Some rule =>
        if isCommentedOut (renderRule rule) then [] else [renderRule rule]
    | _, _ => []
    end ++ enabledLines renderRule items.
Proof.
  destruct item as [[|] [rule|] text]; try reflexivity.
  unfold enabledLines, rulesOf.
  change (omap ?f (?x :: ?l)) with (match f x with Some y => y :: omap f l | None => omap f l end).
  cbn [Item_Kind Item_Rule map List.filter].
  now destruct (isCommentedOut (renderRule rule)).
Qed.

Lemma renderStep_lines (renderRule : Rule -> string) (st : renderState)
    (item : Item) :
  exists written,
    result_lines (renderStep renderRule st item) = result_lines st ++ written
    /\ sublist (enabledLines renderRule [item]) written.
Proof.
  rewrite enabledLines_cons. change (enabledLines renderRule []) with (@nil string).
  rewrite app_nil_r. unfold renderStep, isCommentedOut.
  destruct (Item_Kind item).
  - destruct (Item_Rule item) as [rule|].
    + destruct (HasPrefix (TrimSpace (renderRule rule)) "#").
      * exists []. now rewrite app_nil_r.
      * cbn [result_lines].
        destruct (0 <? _); destruct (negb _); rewrite <- ?app_assoc;
          eexists; (split; [reflexivity|]);
          repeat (apply sublist_inserts_l); reflexivity.
    + exists []. now rewrite app_nil_r.
  - exists []. destruct (HasPrefix _ "# include:"); now rewrite app_nil_r.
Qed.

Lemma renderLoop_lines (renderRule : Rule -> string) (items : list Item)
    (st : renderState) :
  exists written,
    result_lines (renderLoop renderRule items st) = result_lines st ++ written
    /\ sublist (enabledLines renderRule items) written.
Proof.
  revert st. induction items as [|item items IH]; intros st.
  - exists []. split; [now rewrite app_nil_r|constructor].
  - simpl. change (fold_left (renderStep ?r) items ?s) with (renderLoop r items s).
    destruct (IH (renderStep renderRule st item)) as (w2 & -> & Hs2).
    destruct (renderStep_lines renderRule st item) as (w1 & -> & Hs1).
    exists (w1 ++ w2). split; [now rewrite app_assoc|].
    rewrite enabledLines_cons. rewrite enabledLines_cons in Hs1.
    change (enabledLines renderRule []) with (@nil string) in Hs1.
    rewrite app_nil_r in Hs1. now apply sublist_app.
Qed.

Lemma enabledLines_Mihomo (items : list Item) :
  enabledLines renderMihomoRule items = map renderMihomoRule (rulesOf items).
Proof.
  unfold enabledLines. induction (rulesOf items) as [|r rs IH]; [reflexivity|].
  simpl. now rewrite renderMihomoRule_enabled, IH.
Qed.

(** X16. No enabled rule is lost or moved.  The lines [RenderMihomo]
    writes contain the line of every rule of the input, in the order of
    the rules; the lines [RenderSurge] writes contain, in that order, the
    line of every rule that is not rendered commented-out. *)
Theorem rendered_rules_are_kept (syntaxParse : string -> option Regexp)
    (items : list Item) :
  sublist (map renderMihomoRule (rulesOf items)) (linesOf renderMihomoRule items)
  /\ sublist (enabledLines (renderSurgeRule syntaxParse) items)
       (linesOf (renderSurgeRule syntaxParse) items).
Proof.
  unfold linesOf. split.
  - destruct (renderLoop_lines renderMihomoRule items renderInit) as (w & -> & Hs).
    now rewrite <- enabledLines_Mihomo.
  - now destruct (renderLoop_lines (renderSurgeRule syntaxParse) items renderInit)
      as (w & -> & Hs).
Qed.

(** *** [RenderEgern] *)

Lemma valuesOf_cons (kind : RuleKind) (item : Item) (items : list Item) :
  valuesOf kind (item :: items)
  = match Item_Kind item, Item_Rule item with
    | ItemRule, Some rule =>
        if RuleKind_eqb (Rule_Kind rule) kind then [Rule_Value rule] else []
    | _, _ => []
    end ++ valuesOf kind items.
Proof.
  destruct item as [[|] [rule|] text]; try reflexivity.
  unfold valuesOf, rulesOf.
  change (omap ?f (?x :: ?l)) with (match f x with Some y => y :: omap f l | None => omap f l end).
  cbn [Item_Kind Item_Rule map List.filter].
  now destruct (RuleKind_eqb (Rule_Kind rule) kind).
Qed.

Lemma egernSets_values (items : list Item) (sets : egernSets) :
  fold_left egernStep items sets
  = mkEgernSets (domainSet sets ++ valuesOf RuleDomain items)
      (domainSuffixSet sets ++ valuesOf RuleDomainSuffix items)
      (domainKeywordSet sets ++ valuesOf RuleDomainKeyword items)
      (domainRegexSet sets ++ valuesOf RuleDomainRegex items).
Proof.
  revert sets. induction items as [|item items IH]; intros sets.
  - simpl. unfold valuesOf. simpl. rewrite !app_nil_r. now destruct sets.
  - simpl. rewrite IH, !valuesOf_cons. unfold egernStep.
    destruct (Item_Kind item); [|reflexivity].
    destruct (Item_Rule item) as [rule|]; [|reflexivity].
    destruct (Rule_Kind rule); cbn; now rewrite <- ?app_assoc.
Qed.

Lemma rulesOf_values (items : list Item) :
  rulesOf items = []
  <-> forall kind, valuesOf kind items = [].
Proof.
  unfold valuesOf. split.
  - intros -> kind. reflexivity.
  - intros H. destruct (rulesOf items) as [|r rs]; [reflexivity|].
    specialize (H (Rule_Kind r)). simpl in H.
    destruct (Rule_Kind r); discriminate.
Qed.

Section WithQuote.
Variable Quote : string -> string.

Lemma startsWithD_append (b x : string) : startsWithD b -> startsWithD (b +:+ x).
Proof. intros [b' ->]. now exists (b' +:+ x). Qed.

Lemma appendSet_startsWithD (b name' : string) (values : list string) :
  (startsWithD b \/ (b = EmptyString /\ values <> [])) ->
  startsWithD (appendSet Quote b (String "d" name') values).
Proof.
  intros Hb. unfold appendSet.
  destruct values as [|v values].
  - destruct Hb as [Hb|[_ Hv]]; [exact Hb|congruence].
  - change (Z.of_nat (List.length (v :: values)) =? 0) with false. cbv iota.
    assert (Hstart : startsWithD ((b +:+ String "d" name') +:+ (":" +:+ lf))).
    { destruct Hb as [Hb|[-> _]];
        [now do 2 apply startsWithD_append|now eexists]. }
    revert Hstart. generalize ((b +:+ String "d" name') +:+ (":" +:+ lf)).
    clear Hb. generalize (v :: values). clear v values.
    intros values. induction values as [|w ws IH]; intros s Hs; [exact Hs|].
    simpl. apply IH. now do 3 apply startsWithD_append.
Qed.

Lemma dropLeading_keeps (c d : ascii) (l : list ascii) :
  d <> c -> dropLeading c (l ++ [d]) <> [].
Proof.
  intros Hd. induction l as [|x l IH]; simpl.
  - apply Ascii.eqb_neq in Hd. now rewrite Hd.
  - destruct (Ascii.eqb x c); [exact IH|discriminate].
Qed.

Lemma TrimRight_startsWithD (b : string) :
  startsWithD b -> TrimRight b newline <> EmptyString.
Proof.
  intros [b' ->]. unfold TrimRight. cbn [list_ascii_of_string rev].
  pose proof (dropLeading_keeps newline "d" (rev (list_ascii_of_string b'))
                ltac:(discriminate)) as H.
  destruct (dropLeading _ _) as [|x l] eqn:E; [congruence|].
  intros Hs. apply (f_equal list_ascii_of_string) in Hs.
  rewrite list_ascii_of_string_of_list_ascii in Hs. simpl in Hs.
  apply (f_equal (@List.length ascii)) in Hs.
  rewrite length_app in Hs. simpl in Hs. lia.
Qed.

(** X17. [RenderEgern] reads nothing but the values of the rules, kind
    by kind: two sequences of items that hold, for every kind, the same
    values in the same order render to the same text, however the kinds
    are interleaved and whatever comments and trailing regions they
    carry.  The text is empty exactly when the sequence has no rule. *)
Theorem RenderEgern_reads_values_by_kind (items items' : list Item) :
  ((forall kind, valuesOf kind items = valuesOf kind items') ->
   RenderEgern Quote items = RenderEgern Quote items')
  /\ (RenderEgern Quote items = EmptyString <-> rulesOf items = []).
Proof.
  split.
  - intros H. unfold RenderEgern. rewrite !egernSets_values.
    cbn [domainSet domainSuffixSet domainKeywordSet domainRegexSet app].
    now rewrite !H.
  - unfold RenderEgern. rewrite egernSets_values.
    cbn [domainSet domainSuffixSet domainKeywordSet domainRegexSet app].
    split.
    + intros Hempty. apply rulesOf_values. intros kind.
      destruct (valuesOf RuleDomain items) as [|v1 l1] eqn:E1.
      2:{ exfalso. revert Hempty. apply TrimRight_startsWithD.
          do 3 (apply appendSet_startsWithD; left).
          apply appendSet_startsWithD. right. now split. }
      destruct (valuesOf RuleDomainSuffix items) as [|v2 l2] eqn:E2.
      2:{ exfalso. revert Hempty. apply TrimRight_startsWithD.
          do 2 (apply appendSet_startsWithD; left).
          apply appendSet_startsWithD. right. now split. }
      destruct (valuesOf RuleDomainKeyword items) as [|v3 l3] eqn:E3.
      2:{ exfalso. revert Hempty. apply TrimRight_startsWithD.
          apply appendSet_startsWithD; left.
          apply appendSet_startsWithD. right. now split. }
      destruct (valuesOf RuleDomainRegex items) as [|v4 l4] eqn:E4.
      2:{ exfalso. revert Hempty. apply TrimRight_startsWithD.
          apply appendSet_startsWithD. right. now split. }
      now destruct kind.
    + intros Hnone. pose proof (proj1 (rulesOf_values items) Hnone) as Hv.
      now rewrite !Hv.
Qed.

End WithQuote.

Lemma RenderEgern_reads_values_by_kind_witness :
  RenderEgern (fun v => v)
    [commentItem "# list"; ruleItem (mkRule RuleDomain "a.com" "@cn");
     ruleItem (mkRule RuleDomainSuffix "b.com" EmptyString);
     ruleItem (mkRule RuleDomain "c.com" EmptyString)]
  = RenderEgern (fun v => v)
      [ruleItem (mkRule RuleDomainSuffix "b.com" "# note");
       ruleItem (mkRule RuleDomain "a.com" EmptyString);
       ruleItem (mkRule RuleDomain "c.com" EmptyString)].
Proof.
  apply (RenderEgern_reads_values_by_kind (fun v => v)).
  intros kind. now destruct kind.
Defined.

End RenderLaws.

(** ** Laws of the wildcard translator *)

Module WildcardLaws.
Import GoStrings GoStringsFacts Wildcard WildcardFacts Render RenderFacts.

Lemma forallb_isWildcard (w : string) :
  forallb isWildcard (list_ascii_of_string w) = true
  <-> forall ch, occurs ch w -> ch = "*"%char \/ ch = "?"%char.
Proof.
  unfold occurs. rewrite forallb_forall. unfold isWildcard.
  split; intros H ch Hin; specialize (H ch Hin).
  - apply orb_prop in H as [H|H]; apply Ascii.eqb_eq in H; tauto.
  - destruct H as [->| ->]; reflexivity.
Qed.

(** X18. [isBroadPattern] holds of a pattern exactly when the pattern
    is not empty and made of [*] and [?] only, or holds three or more
    [?]; a dot counts as a literal, and the empty pattern is not broad. *)
Theorem isBroadPattern_exactly (w : string) :
  isBroadPattern w = true
  <-> (w <> EmptyString
       /\ forall ch, occurs ch w -> ch = "*"%char \/ ch = "?"%char)
      \/ (3 <= countQuestion w)%nat.
Proof.
  rewrite isBroadPattern_spec, orb_true_iff, andb_true_iff, negb_true_iff,
    String.eqb_neq, Nat.leb_le, forallb_isWildcard.
  reflexivity.
Qed.

Lemma occurs_concatStrings (ch : ascii) (piece : string) (pieces : list string) :
  In piece pieces -> occurs ch piece -> occurs ch (concatStrings pieces).
Proof.
  induction pieces as [|p pieces IH]; simpl; [tauto|].
  intros [->|Hin] Hocc; apply occurs_append; [now left|right; now apply IH].
Qed.

(** X19. A construct that the structural check reaches leaves a
    wildcard character in the translation: the translation of a tree in
    which a char-class, an alternation or a bounded repeat is reached
    holds a [*] or a [?]. *)
Theorem reached_construct_translates_to_wildcard (re : Regexp) :
  reachesLossy re ->
  exists ch, occurs ch (convertNode re) /\ (ch = "*"%char \/ ch = "?"%char).
Proof.
  induction 1 as [op sub rune Hl|op sub rune s Hop Hin Hs IH].
  - destruct op; try discriminate; cbn [convertNode].
    + exists "?"%char. split; [now left|now right].
    + exists "*"%char. split; [now left|now left].
    + exists "*"%char. split; [now left|now left].
  - destruct IH as (ch & Hocc & Hch).
    destruct Hop as [ -> | [ -> | [ -> | -> ] ] ]; cbn [convertNode].
    + exists "*"%char. split; [now left|now left].
    + exists "*"%char. split; [now left|now left].
    + exists ch. split; [|exact Hch].
      apply (occurs_concatStrings ch (convertNode s)); [|exact Hocc].
      now apply in_map.
    + exists ch. split; [|exact Hch].
      apply (occurs_concatStrings ch (convertNode s)); [|exact Hocc].
      now apply in_map.
Qed.

Lemma reached_construct_translates_to_wildcard_witness :
  exists ch,
    occurs ch (convertNode
                 (Re OpConcat [Re OpPlus [charRange "a" "z"] []; literal ".example.com"] []))
    /\ (ch = "*"%char \/ ch = "?"%char).
Proof.
  apply reached_construct_translates_to_wildcard.
  apply (reaches_below _ _ _ (Re OpPlus [charRange "a" "z"] []));
    [tauto|simpl; tauto|].
  apply (reaches_below _ _ _ (charRange "a" "z")); [tauto|simpl; tauto|].
  now apply reaches_here.
Defined.

Section WithRegexParser.
Variable syntaxParse : string -> option Regexp.

(** X20. A regex rule that [renderSurgeRule] renders as an enabled line
    was vetted: its pattern parsed, the structural check reached no
    char-class, alternation or bounded repeat, and the line is
    [DOMAIN-WILDCARD,] followed by a translation that has fewer than
    three [?] and is empty or holds a byte other than [*] and [?]. *)
Theorem enabled_wildcard_line_is_vetted (value comment : string) :
  isCommentedOut (renderSurgeRule syntaxParse (mkRule RuleDomainRegex value comment))
  = false ->
  exists re,
    syntaxParse (unslashed value) = Some re
    /\ ~ reachesLossy re
    /\ (countQuestion (convertNode re) < 3)%nat
    /\ (convertNode re = EmptyString
        \/ exists ch, occurs ch (convertNode re)
                      /\ ch <> "*"%char /\ ch <> "?"%char)
    /\ renderSurgeRule syntaxParse (mkRule RuleDomainRegex value comment)
       = appendComment ("DOMAIN-WILDCARD," +:+ convertNode re) comment.
Proof.
  intros Hen.
  assert (Hd : IsDangerousRegex syntaxParse value = false).
  { destruct (IsDangerousRegex syntaxParse value) eqn:E; [|reflexivity].
    destruct (renderSurgeRule_regex_disabled syntaxParse value comment
                (or_introl E)) as [_ H]. congruence. }
  assert (Hk : skipPattern_MatchString (RegexToWildcard syntaxParse value) = false).
  { destruct (skipPattern_MatchString _) eqn:E; [|reflexivity].
    destruct (renderSurgeRule_regex_disabled syntaxParse value comment
                (or_intror E)) as [_ H]. congruence. }
  assert (Hline : renderSurgeRule syntaxParse (mkRule RuleDomainRegex value comment)
                  = appendComment
                      ("DOMAIN-WILDCARD," +:+ RegexToWildcard syntaxParse value) comment).
  { unfold renderSurgeRule. cbn [Rule_Kind Rule_Value Rule_Comment].
    now rewrite Hd, Hk. }
  unfold IsDangerousRegex in Hd. unfold RegexToWildcard in Hline.
  fold (unslashed value) in Hd, Hline.
  destruct (syntaxParse (unslashed value)) as [re|]; [|discriminate].
  exists re. split; [reflexivity|].
  destruct (containsDangerousNode re) eqn:Hc; [discriminate|].
  split.
  { intros Hr. apply containsDangerousNode_reaches in Hr. congruence. }
  rewrite isBroadPattern_spec in Hd. apply orb_false_iff in Hd as [Hw Hq].
  split; [now apply Nat.leb_gt in Hq|]. split; [|exact Hline].
  destruct (String.eqb (convertNode re) EmptyString) eqn:Hempty.
  - left. now apply String.eqb_eq.
  - right. cbn [negb andb] in Hw.
    assert (Hex : existsb (fun ch => negb (isWildcard ch))
                    (list_ascii_of_string (convertNode re)) = true).
    { clear -Hw. induction (list_ascii_of_string (convertNode re)) as [|x l IH];
        [discriminate|].
      simpl in *. destruct (isWildcard x); [now apply IH|reflexivity]. }
    apply existsb_exists in Hex as (ch & Hin & Hch). exists ch.
    split; [exact Hin|]. unfold isWildcard in Hch.
    apply negb_true_iff, orb_false_iff in Hch as [H1 H2].
    apply Ascii.eqb_neq in H1, H2. now split.
Qed.

End WithRegexParser.

Lemma enabled_wildcard_line_is_vetted_witness :
  exists re,
    sampleParse (unslashed "^ab\.com$") = Some re
    /\ ~ reachesLossy re
    /\ (countQuestion (convertNode re) < 3)%nat
    /\ (convertNode re = EmptyString
        \/ exists ch, occurs ch (convertNode re)
                      /\ ch <> "*"%char /\ ch <> "?"%char)
    /\ renderSurgeRule sampleParse (mkRule RuleDomainRegex "^ab\.com$" "@cn")
       = appendComment ("DOMAIN-WILDCARD," +:+ convertNode re) "@cn".
Proof.
  apply enabled_wildcard_line_is_vetted. reflexivity.
Defined.

End WildcardLaws.

(** ** Laws of the request handler *)

Module ServerFacts.
Import GoStrings GoStringsFacts Cache Fetcher Parser Render Server.

(** The name read off a text that is not empty is empty exactly when the
    text starts with [@]. *)
Lemma name_empty (nwf : string) :
  nwf <> EmptyString ->
  String.eqb
    (fst (if negb (Index nwf "@" =? -1)
          then (nth 0 (SplitN2 nwf "@") EmptyString, nth 1 (SplitN2 nwf "@") EmptyString)
          else (nwf, EmptyString))) EmptyString
  = HasPrefix nwf "@".
Proof.
  intros Hne. destruct nwf as [|ch rest]; [contradiction|].
  cbn [HasPrefix Index]. rewrite andb_true_r.
  destruct (Ascii.eqb "@" ch) eqn:E.
  - apply Ascii.eqb_eq in E. subst ch. reflexivity.
  - assert (E' : Ascii.eqb ch "@" = false)
      by (apply Ascii.eqb_neq; apply Ascii.eqb_neq in E; congruence).
    destruct (negb _); cbn [fst]; [|reflexivity].
    cbn [SplitN2]. rewrite E'. now destruct (SplitN2 rest "@").
Qed.

Section WithLibraries.
Variable ToLower : string -> string.
Variable zipNewReader : string -> zipArchive + error.
Variable persistToFileLocked : ZipCache zipArchive -> option error.
Variable syntaxParse : string -> option Wildcard.Regexp.
Variable Quote : string -> string.

Local Abbreviation handle :=
  (handleRuleset ToLower zipNewReader persistToFileLocked syntaxParse Quote).
Local Abbreviation fetch := (GetZipReader zipNewReader persistToFileLocked).

(** X21. A path without a name is refused before anything else
    happens.  The answer is the status 400 exactly when the text after
    the prefix, trimmed and in lower case, is empty or starts with [@];
    the server is then left as it was. *)
Theorem handleRuleset_refuses_missing_name (s : server) (up : upstream)
    (tm : times) (fuel : nat) (urlPath prefix format : string) :
  (snd (handle s up tm fuel urlPath prefix format)
   = httpError "Invalid name parameter" 400
   <-> hasName ToLower urlPath prefix = false)
  /\ (hasName ToLower urlPath prefix = false ->
      fst (handle s up tm fuel urlPath prefix format) = s).
Proof.
  unfold handleRuleset, hasName.
  set (nwf := nameWithFilterOf ToLower urlPath prefix).
  destruct (String.eqb nwf EmptyString) eqn:Hnwf; cbn [negb andb].
  { repeat split; reflexivity. }
  apply String.eqb_neq in Hnwf. pose proof (name_empty nwf Hnwf) as Hname.
  destruct (if negb (Index nwf "@" =? -1) then _ else _) as [name filter].
  cbn [fst] in Hname. rewrite Hname.
  destruct (HasPrefix nwf "@"); cbn [negb].
  { repeat split; reflexivity. }
  split; [|discriminate]. split; [|discriminate].
  destruct (ret_err _); [discriminate|].
  destruct (ResultCache_Get _ _ _ _) as [result [|]]; [discriminate|].
  destruct (ret_reader _); [|discriminate].
  destruct (GetFileContent _ _) as [content [err|]]; [discriminate|].
  destruct (if String.eqb format "mihomo" then _ else _); discriminate.
Qed.

(** What an answer with the status 200 tells: the fetch returned
    without error, and afterwards the result cache holds the body under
    the key of the request, with the fingerprint the fetch returned. *)
Lemma answered_200 (s s' : server) (up : upstream) (tm : times) (fuel : nat)
    (urlPath prefix format ct body : string) :
  handle s up tm fuel urlPath prefix format = (s', Response 200 ct body) ->
  let o := fetch (zipCache s) up (t_fetch tm) in
  hasName ToLower urlPath prefix = true
  /\ ret_err o = None
  /\ zipCache s' = cache_after o
  /\ ttl (resultCache s') = ttl (resultCache s)
  /\ Response 200 ct body = writeRulesetResponse format body
  /\ exists e,
       results (resultCache s') !! cacheKeyOf ToLower urlPath prefix format = Some e
       /\ etag e = ret_etag o /\ value e = body.
Proof.
  unfold handleRuleset, hasName, cacheKeyOf.
  set (nwf := nameWithFilterOf ToLower urlPath prefix).
  destruct (String.eqb nwf EmptyString) eqn:Hnwf; [discriminate|].
  pose proof (name_empty nwf (proj1 (String.eqb_neq _ _) Hnwf)) as Hname.
  destruct (if negb (Index nwf "@" =? -1) then _ else _) as [name filter].
  cbn [fst] in Hname. rewrite Hname.
  destruct (HasPrefix nwf "@"); [discriminate|]. cbn [negb andb].
  set (o := fetch (zipCache s) up (t_fetch tm)).
  destruct (ret_err o); [discriminate|]. cbn [resultCache].
  destruct (ResultCache_Get (resultCache s) _ (ret_etag o) (t_lookup tm))
    as [result [|]] eqn:Hget.
  - intros [= <- <- <-]. repeat (split; [reflexivity|]).
    apply CacheFacts.Get_hit_entry in Hget as (e & He & Hf & _ & Hv).
    now exists e.
  - destruct (ret_reader o) as [zr|]; [|discriminate].
    destruct (GetFileContent zr name) as [content [err|]]; [discriminate|].
    destruct (if String.eqb format "mihomo" then _ else _) as [output|err|];
      try discriminate.
    intros [= <- <- <-]. cbn [zipCache resultCache ResultCache_Set ttl results].
    repeat (split; [reflexivity|]).
    eexists. rewrite lookup_insert_eq. split; [reflexivity|]. now split.
Qed.

(** X22. A request that was answered with the status 200 is answered
    from the caches when it comes again: if at the second request the
    archive cache still hits and no entry of the result cache is older
    than its TTL, the second answer is the first one, nothing is asked of
    upstream or converted, and the server is left as it is. *)
Theorem handleRuleset_repeat_is_served_from_cache (s s' : server)
    (up up' : upstream) (tm tm' : times) (fuel fuel' : nat)
    (urlPath prefix format ct body : string) :
  handle s up tm fuel urlPath prefix format = (s', Response 200 ct body) ->
  snd (ZipCache_Get (zipCache s') (t_get (t_fetch tm'))) = true ->
  (forall k e, results (resultCache s') !! k = Some e ->
               Since (t_lookup tm') (timestamp e) <= ttl (resultCache s')) ->
  handle s' up' tm' fuel' urlPath prefix format = (s', Response 200 ct body).
Proof.
  intros Hfirst Hzip Hfresh.
  destruct (answered_200 _ _ _ _ _ _ _ _ _ _ Hfirst)
    as (Hname & Herr & Hcache & _ & Hreply & e & He & Hf & Hv).
  destruct (proj1 (FetcherLaws.fetch_pair_agrees zipNewReader persistToFileLocked
                     (zipCache s) up (t_fetch tm)) Herr) as [Htag _].
  unfold handleRuleset. unfold hasName in Hname.
  apply andb_prop in Hname as [Hnwf Hat].
  apply negb_true_iff in Hnwf. apply negb_true_iff in Hat.
  set (nwf := nameWithFilterOf ToLower urlPath prefix) in *. rewrite Hnwf.
  pose proof (name_empty nwf (proj1 (String.eqb_neq _ _) Hnwf)) as Hn.
  destruct (if negb (Index nwf "@" =? -1) then _ else _) as [name filter].
  cbn [fst] in Hn. rewrite Hn, Hat.
  rewrite (FetcherLaws.GetZipReader_hit zipNewReader persistToFileLocked _ up' _ Hzip).
  cbn [ret_err ret_etag cache_after resultCache zipCache].
  assert (Hhit : ResultCache_Get (resultCache s') (format +:+ ":" +:+ nwf)
                   (zc_etag (zipCache s')) (t_lookup tm') = (body, true)).
  { apply CacheFacts.Get_hit_entry. exists e. split; [exact He|].
    split; [now rewrite Hcache, <- Htag|]. split; [exact (Hfresh _ _ He)|exact Hv]. }
  rewrite Hhit, Hreply. now destruct s'.
Qed.

(** X23. The result cache is written by an answer with the status 200
    only, and under the key of the request only: every other answer
    leaves the result cache as it was, and no request changes what is
    stored under the key of another one or the TTL. *)
Theorem handleRuleset_writes_own_key_only (s : server) (up : upstream)
    (tm : times) (fuel : nat) (urlPath prefix format : string) :
  let after := handle s up tm fuel urlPath prefix format in
  ((forall ct body, snd after <> Response 200 ct body) ->
   resultCache (fst after) = resultCache s)
  /\ (forall k, k <> cacheKeyOf ToLower urlPath prefix format ->
        results (resultCache (fst after)) !! k = results (resultCache s) !! k)
  /\ ttl (resultCache (fst after)) = ttl (resultCache s).
Proof.
  cbv zeta. unfold handleRuleset, cacheKeyOf.
  set (nwf := nameWithFilterOf ToLower urlPath prefix).
  destruct (String.eqb nwf EmptyString); [now repeat split|].
  destruct (if negb (Index nwf "@" =? -1) then _ else _) as [name filter].
  destruct (String.eqb name EmptyString); [now repeat split|].
  set (o := fetch (zipCache s) up (t_fetch tm)).
  destruct (ret_err o); [now repeat split|]. cbn [resultCache].
  destruct (ResultCache_Get (resultCache s) _ (ret_etag o) (t_lookup tm))
    as [result [|]]; [now repeat split|].
  destruct (ret_reader o) as [zr|]; [|now repeat split].
  destruct (GetFileContent zr name) as [content [err|]]; [now repeat split|].
  destruct (if String.eqb format "mihomo" then _ else _) as [output|err|];
    try (now repeat split).
  cbn [fst snd resultCache ResultCache_Set results ttl]. split; [|split].
  - intros H. exfalso. eapply H. reflexivity.
  - intros k Hk. now rewrite lookup_insert_ne.
  - reflexivity.
Qed.

(** X24. When [GetZipReader] returns a nil archive without error (the
    TTL of the archive cache has elapsed between the store of a fresh
    download and the reading that follows it) and the result cache
    misses, [handleRuleset] passes the nil archive to [GetFileContent],
    which dereferences it. *)
Theorem handleRuleset_nil_archive (s : server) (up : upstream) (tm : times)
    (fuel : nat) (urlPath prefix format tag data : string) (r : zipArchive) :
  hasName ToLower urlPath prefix = true ->
  snd (ZipCache_Get (zipCache s) (t_get (t_fetch tm))) = false ->
  GetETag up = (tag, None) ->
  downloadZip up = (data, None) ->
  zipNewReader data = inl r ->
  (zc_persistPath (zipCache s) = EmptyString
   \/ persistToFileLocked (installed (zipCache s) data tag r (t_set (t_fetch tm)))
      = None) ->
  zc_ttl (zipCache s) < Since (t_reget (t_fetch tm)) (t_set (t_fetch tm)) ->
  snd (ResultCache_Get (resultCache s) (cacheKeyOf ToLower urlPath prefix format)
         tag (t_lookup tm)) = false ->
  snd (handle s up tm fuel urlPath prefix format) = NilDereference.
Proof.
  intros Hname Hmiss Hprobe Hdl Hzip Hpersist Hexp Hres.
  unfold handleRuleset. unfold hasName in Hname. unfold cacheKeyOf in Hres.
  apply andb_prop in Hname as [Hnwf Hat].
  apply negb_true_iff in Hnwf. apply negb_true_iff in Hat.
  set (nwf := nameWithFilterOf ToLower urlPath prefix) in *. rewrite Hnwf.
  pose proof (name_empty nwf (proj1 (String.eqb_neq _ _) Hnwf)) as Hn.
  destruct (if negb (Index nwf "@" =? -1) then _ else _) as [name filter].
  cbn [fst] in Hn. rewrite Hn, Hat.
  rewrite (FetcherLaws.GetZipReader_fresh_download zipNewReader persistToFileLocked
             _ up _ tag data r Hmiss Hprobe Hdl Hzip Hpersist).
  cbn [ret_err ret_etag ret_reader cache_after resultCache].
  destruct (ResultCache_Get (resultCache s) _ tag (t_lookup tm)) as [result ok].
  cbn [snd] in Hres. subst ok.
  apply Z.ltb_lt in Hexp. now rewrite Hexp.
Qed.

End WithLibraries.

Lemma handleRuleset_refuses_missing_name_witness :
  fst (handleRuleset idLower sampleReader neverPersist neverParse idQuote
         (emptyServer 100 100) sampleUpstream firstTimes 3
         "/geosite/@cn" "/geosite/" "geosite")
  = emptyServer 100 100.
Proof.
  apply (proj2 (handleRuleset_refuses_missing_name idLower sampleReader
                  neverPersist neverParse idQuote (emptyServer 100 100)
                  sampleUpstream firstTimes 3 "/geosite/@cn" "/geosite/" "geosite")).
  reflexivity.
Defined.

Lemma handleRuleset_repeat_is_served_from_cache_witness :
  snd (handleRuleset idLower sampleReader neverPersist neverParse idQuote
         (fst (handleRuleset idLower sampleReader neverPersist neverParse idQuote
                 (emptyServer 100 100) sampleUpstream firstTimes 3
                 "/geosite/cn@cn" "/geosite/" "geosite"))
         (mkUpstream (EmptyString, Some "dial tcp: timeout") (EmptyString, None))
         secondTimes 0 "/geosite/cn@cn" "/geosite/" "geosite")
  = Response 200 "text/plain; charset=utf-8"
      (Join ["# include:google"; "DOMAIN,www.google.cn # @cn";
             "DOMAIN-SUFFIX,qq.com # @cn"] Render.lf).
Proof.
  rewrite (handleRuleset_repeat_is_served_from_cache idLower sampleReader
             neverPersist neverParse idQuote (emptyServer 100 100)
             (fst (handleRuleset idLower sampleReader neverPersist neverParse
                     idQuote (emptyServer 100 100) sampleUpstream firstTimes 3
                     "/geosite/cn@cn" "/geosite/" "geosite"))
             sampleUpstream
             (mkUpstream (EmptyString, Some "dial tcp: timeout") (EmptyString, None))
             firstTimes secondTimes 3 0 "/geosite/cn@cn" "/geosite/" "geosite"
             "text/plain; charset=utf-8"
             (Join ["# include:google"; "DOMAIN,www.google.cn # @cn";
                    "DOMAIN-SUFFIX,qq.com # @cn"] Render.lf)).
  - reflexivity.
  - vm_compute. reflexivity.
  - reflexivity.
  - intros k e.
    replace (results _)
      with (<["geosite:cn@cn" :=
                mkCacheEntry
                  (Join ["# include:google"; "DOMAIN,www.google.cn # @cn";
                         "DOMAIN-SUFFIX,qq.com # @cn"] Render.lf) 5 "etag-1"]>
              (∅ : gmap string cacheEntry))
      by (vm_compute; reflexivity).
    intros H. apply lookup_insert_Some in H as [[_ <-]|[_ H]];
      [vm_compute; discriminate|].
    rewrite lookup_empty in H. discriminate.
Defined.

Lemma handleRuleset_writes_own_key_only_witness :
  resultCache
    (fst (handleRuleset idLower sampleReader neverPersist neverParse idQuote
            (emptyServer 100 100) sampleUpstream firstTimes 3
            "/geosite/nope" "/geosite/" "geosite"))
  = NewResultCache 100.
Proof.
  apply (handleRuleset_writes_own_key_only idLower sampleReader neverPersist
           neverParse idQuote (emptyServer 100 100) sampleUpstream firstTimes 3
           "/geosite/nope" "/geosite/" "geosite").
  intros ct body. vm_compute. discriminate.
Defined.

Lemma handleRuleset_nil_archive_witness :
  snd (handleRuleset idLower sampleReader neverPersist neverParse idQuote
         (emptyServer 0 100) sampleUpstream firstTimes 3
         "/geosite/cn" "/geosite/" "geosite")
  = NilDereference.
Proof.
  apply (handleRuleset_nil_archive idLower sampleReader neverPersist neverParse
           idQuote (emptyServer 0 100) sampleUpstream firstTimes 3
           "/geosite/cn" "/geosite/" "geosite" "etag-1" "PK" sampleZip);
    try reflexivity.
  left. reflexivity.
Defined.

End ServerFacts.

(* ===================================================================== *)
(** ** The address rules of the monitored servers *)
(* ===================================================================== *)

Module KomariFacts.
Import GoStrings Parser Komari GoStringsFacts.

Lemma generateStep_app (filter : string) (getPing : option (string -> Z))
    (result : list IPCIDR) (client : KomariClient) :
  generateStep filter getPing result client
  = result ++ (if skipsClient filter getPing client then [] else rulesOfClient client).
Proof.
  unfold generateStep, rulesOfClient.
  destruct (skipsClient filter getPing client); [now rewrite app_nil_r|].
  destruct (String.eqb (IPv4 client) EmptyString),
    (String.eqb (IPv6 client) EmptyString); cbn [negb app];
    rewrite ?app_nil_r, <- ?app_assoc; reflexivity.
Qed.

Lemma GenerateIPCIDR_concat (clients : list KomariClient) (filter : string)
    (getPing : option (string -> Z)) :
  GenerateIPCIDR clients filter getPing
  = concat (map (fun client => if skipsClient filter getPing client then []
                               else rulesOfClient client) clients).
Proof.
  unfold GenerateIPCIDR.
  enough (H : forall acc,
             fold_left (generateStep filter getPing) clients acc
             = acc ++ concat (map (fun client =>
                                     if skipsClient filter getPing client then []
                                     else rulesOfClient client) clients))
    by apply (H []).
  induction clients as [|client clients IH]; intros acc; simpl.
  - now rewrite app_nil_r.
  - rewrite IH, generateStep_app, <- app_assoc. reflexivity.
Qed.

Lemma meetThreshold_lowLatency (getPing : string -> Z) (client : KomariClient) :
  (0 <? getThreshold (Region client)) && (0 <? getPing (UUID client))
  && (getPing (UUID client) <=? getThreshold (Region client)) = true
  <-> lowLatency getPing client.
Proof.
  unfold lowLatency. rewrite !andb_true_iff, !Z.ltb_lt, Z.leb_le. lia.
Qed.

Lemma skipsClient_false (filter : string) (getPing : option (string -> Z))
    (client : KomariClient) :
  rulesOfClient client <> [] ->
  skipsClient filter getPing client = false
  <-> Region client <> regionCN /\ admitted filter getPing client.
Proof.
  intros Hrules. unfold skipsClient, isChinaRegion, admitted.
  destruct (String.eqb_spec (Region client) regionCN) as [Hcn|Hcn];
    [intuition congruence|].
  destruct (String.eqb (IPv4 client) EmptyString && String.eqb (IPv6 client) EmptyString)
    eqn:Hip.
  { exfalso. apply Hrules. apply andb_prop in Hip as [H4 H6].
    unfold rulesOfClient. now rewrite H4, H6. }
  destruct getPing as [getPing|]; [|tauto].
  pose proof (meetThreshold_lowLatency getPing client) as Hmeet.
  destruct (_ && _ && _) eqn:Em in Hmeet |- *.
  - pose proof (proj1 Hmeet eq_refl) as Hlow. cbn [negb]. rewrite andb_false_r, andb_true_r.
    destruct (String.eqb_spec filter FilterNone) as [->|Hnone]; cbn [negb].
    + split; [|reflexivity]. intros _. split; [exact Hcn|]. split; [tauto|discriminate].
    + destruct (String.eqb_spec filter FilterProxy) as [->|Hp].
      * split; [discriminate|]. intros [_ [_ H]]. now destruct H.
      * split; [|reflexivity]. intros _. split; [exact Hcn|]. tauto.
  - assert (Hhigh : ~ lowLatency getPing client) by (intros H; apply Hmeet in H; discriminate).
    cbn [negb]. rewrite andb_false_r, andb_true_r.
    destruct (String.eqb_spec filter FilterNone) as [->|Hnone]; cbn [negb].
    + split; [|reflexivity]. intros _. split; [exact Hcn|]. split; [discriminate|tauto].
    + destruct (String.eqb_spec filter FilterDirect) as [->|Hd].
      * split; [discriminate|]. intros [_ [H _]]. now destruct Hhigh; apply H.
      * split; [|reflexivity]. intros _. split; [exact Hcn|]. tauto.
Qed.

(** X25. [GenerateIPCIDR] lists exactly the rules of the clients that
    are outside mainland China and that the filter admits: under DIRECT
    those whose latency is positive and within the threshold of their
    region, under PROXY the others, and every client when the filter is
    empty or no latency function is given. *)
Theorem GenerateIPCIDR_membership (clients : list KomariClient) (filter : string)
    (getPing : option (string -> Z)) (cidr : IPCIDR) :
  In cidr (GenerateIPCIDR clients filter getPing)
  <-> exists client,
        In client clients /\ In cidr (rulesOfClient client)
        /\ Region client <> regionCN /\ admitted filter getPing client.
Proof.
  rewrite GenerateIPCIDR_concat, in_concat. split.
  - intros (rules & Hrules & Hin). apply in_map_iff in Hrules as (client & <- & Hc).
    destruct (skipsClient filter getPing client) eqn:Hskip; [destruct Hin|].
    exists client. split; [exact Hc|]. split; [exact Hin|].
    apply (skipsClient_false filter getPing client); [|exact Hskip].
    intros Hnil. now rewrite Hnil in Hin.
  - intros (client & Hc & Hin & Hadm). eexists. split.
    + apply in_map_iff. exists client. split; [reflexivity|exact Hc].
    + cbv beta.
      rewrite (proj2 (skipsClient_false filter getPing client
                        ltac:(intros Hnil; now rewrite Hnil in Hin)) Hadm).
      exact Hin.
Qed.

Lemma skipsClient_cases (getPing : string -> Z) (other : option (string -> Z))
    (filter : string) (client : KomariClient) :
  skipsClient filter None client = skipsClient FilterNone other client
  /\ (if skipsClient FilterNone other client
      then skipsClient FilterDirect (Some getPing) client = true
           /\ skipsClient FilterProxy (Some getPing) client = true
      else skipsClient FilterDirect (Some getPing) client
           = negb (skipsClient FilterProxy (Some getPing) client)).
Proof.
  unfold skipsClient.
  change (String.eqb FilterNone FilterNone) with true.
  change (String.eqb FilterDirect FilterNone) with false.
  change (String.eqb FilterProxy FilterNone) with false.
  change (String.eqb FilterDirect FilterDirect) with true.
  change (String.eqb FilterProxy FilterProxy) with true.
  change (String.eqb FilterDirect FilterProxy) with false.
  change (String.eqb FilterProxy FilterDirect) with false.
  cbn [negb andb].
  destruct (isChinaRegion (Region client)); [now destruct other|].
  destruct (_ && _); [now destruct other|].
  destruct (_ && _ && _); now destruct other.
Qed.

(** X26. The DIRECT and the PROXY list split the unfiltered list: each
    is a subsequence of it, and together they hold its rules, each as
    often as it does.  Without a latency function the filter has no
    effect. *)
Theorem GenerateIPCIDR_partition (clients : list KomariClient)
    (getPing : string -> Z) (other : option (string -> Z)) :
  let all := GenerateIPCIDR clients FilterNone other in
  let direct := GenerateIPCIDR clients FilterDirect (Some getPing) in
  let proxy := GenerateIPCIDR clients FilterProxy (Some getPing) in
  sublist direct all /\ sublist proxy all /\ all ≡ₚ direct ++ proxy
  /\ forall filter, GenerateIPCIDR clients filter None = all.
Proof.
  cbv zeta. rewrite !GenerateIPCIDR_concat.
  induction clients as [|client clients (IHd & IHp & IHperm & IHnone)]; simpl.
  - do 3 (split; [constructor|]). reflexivity.
  - destruct (skipsClient_cases getPing other EmptyString client) as [_ Hcase].
    assert (Hnone : forall filter,
              GenerateIPCIDR (client :: clients) filter None
              = (if skipsClient FilterNone other client then []
                 else rulesOfClient client)
                ++ concat (map (fun client => if skipsClient FilterNone other client
                                              then [] else rulesOfClient client)
                             clients)).
    { intros filter. rewrite <- (IHnone filter), !GenerateIPCIDR_concat. simpl.
      now rewrite (proj1 (skipsClient_cases getPing other filter client)). }
    destruct (skipsClient FilterNone other client).
    + destruct Hcase as [-> ->]. simpl. auto.
    + rewrite Hcase.
      destruct (skipsClient FilterProxy (Some getPing) client); cbn [negb app].
      * split; [now apply sublist_app|]. split; [now apply sublist_inserts_l|].
        split; [|exact Hnone]. rewrite <- app_assoc. now apply Permutation_app_head.
      * split; [now apply sublist_inserts_l|]. split; [now apply sublist_app|].
        split; [|exact Hnone]. rewrite IHperm. apply Permutation_app_swap_app.
Qed.

(** *** [normalizeIPv6] *)

Lemma occurs_before_Index (s : string) (c ch : ascii) :
  Index s (String c EmptyString) <> -1 ->
  occurs ch (substring 0 (Z.to_nat (Index s (String c EmptyString))) s) ->
  ch <> c /\ occurs ch s.
Proof.
  unfold occurs. induction s as [|d s IH].
  - simpl. tauto.
  - cbn [Index HasPrefix]. rewrite andb_true_r.
    destruct (Ascii.eqb c d) eqn:E; [simpl; tauto|].
    pose proof (Index_lower s (String c EmptyString)) as Hlow.
    destruct (Index s (String c EmptyString) =? -1) eqn:Ei; [congruence|].
    apply Z.eqb_neq in Ei. intros _.
    replace (Z.to_nat (Index s (String c EmptyString) + 1))
      with (S (Z.to_nat (Index s (String c EmptyString)))) by lia.
    cbn [substring list_ascii_of_string]. intros [<-|H].
    + split; [|now left]. apply Ascii.eqb_neq in E. congruence.
    + destruct (IH Ei H) as [Hc Ho]. split; [exact Hc|now right].
Qed.

Lemma Index_none_occurs (s : string) (c : ascii) :
  Index s (String c EmptyString) = -1 -> ~ occurs c s.
Proof.
  unfold occurs. induction s as [|d s IH].
  - simpl. tauto.
  - cbn [Index HasPrefix]. rewrite andb_true_r.
    destruct (Ascii.eqb c d) eqn:E; [discriminate|].
    destruct (Index s (String c EmptyString) =? -1) eqn:Ei.
    + apply Z.eqb_eq in Ei. intros _ [H|H]; [|now apply IH].
      apply Ascii.eqb_neq in E. congruence.
    + pose proof (Index_lower s (String c EmptyString)). lia.
Qed.

Lemma Split_parts (s : string) (sep ch : ascii) (part : string) :
  In part (Split s sep) -> occurs ch part -> occurs ch s.
Proof.
  unfold occurs. revert part. induction s as [|d s IH]; intros part; simpl.
  - intros [<-|[]]. tauto.
  - destruct (Ascii.eqb d sep).
    + intros [<-|Hin]; [simpl; tauto|]. intros H. right. now apply (IH part).
    + destruct (Split s sep) as [|hd tl] eqn:E.
      * intros [<-|[]]. simpl. tauto.
      * intros [<-|Hin]; simpl.
        -- intros [->|H]; [now left|]. right. apply (IH hd); [now left|exact H].
        -- intros H. right. apply (IH part); [now right|exact H].
Qed.

Lemma expandLoop_elements (len : Z) (rest : list string) :
  forall (i : Z) (expanded : list string) (part : string),
    In part (expandLoop len i rest expanded) ->
    In part expanded \/ part = "0" \/ In part rest.
Proof.
  induction rest as [|p rest IH]; intros i expanded part; simpl; [tauto|].
  intros H. apply IH in H as [H|[H|H]]; [|tauto|tauto].
  destruct (String.eqb p EmptyString && (0 <? i) && (i <? len - 1)).
  { apply in_app_or in H as [H|H]; [tauto|]. apply repeat_spec in H. tauto. }
  destruct (negb (String.eqb p EmptyString)).
  { apply in_app_or in H as [H|[<-|[]]]; tauto. }
  destruct ((i =? 0) || (i =? len - 1)); [|tauto].
  apply in_app_or in H as [H|[<-|[]]]; tauto.
Qed.

Lemma In_firstn {A : Type} (n : nat) (l : list A) (x : A) :
  In x (firstn n l) -> In x l.
Proof.
  revert l. induction n as [|n IH]; intros [|y l]; simpl; try tauto.
  intros [->|H]; [now left|right; now apply IH].
Qed.

Lemma occurs_Join (elems : list string) (sep : string) (ch : ascii) :
  occurs ch (Join elems sep) ->
  occurs ch sep \/ exists e, In e elems /\ occurs ch e.
Proof.
  induction elems as [|e elems IH]; [intros []|].
  destruct elems as [|e' elems].
  - intros H. right. exists e. split; [now left|exact H].
  - change (Join (e :: e' :: elems) sep) with (e +:+ sep +:+ Join (e' :: elems) sep).
    intros H. apply occurs_append in H as [H|H].
    + right. exists e. split; [now left|exact H].
    + apply occurs_append in H as [H|H]; [now left|].
      apply IH in H as [H|(x & Hx & Hc)]; [now left|].
      right. exists x. split; [now right|exact Hc].
Qed.

(** X27. The prefix [normalizeIPv6] returns is made of bytes of the
    address other than the slash, of zeros and of colons: it holds no
    slash, so that the only slash of an IPv6 rule is the one of the
    prefix length that [GenerateIPCIDR] appends. *)
Theorem normalizeIPv6_characters (ipv6 : string) (ch : ascii) :
  occurs ch (normalizeIPv6 ipv6) ->
  ch <> "/"%char
  /\ (ch = "0"%char \/ ch = ":"%char \/ occurs ch ipv6).
Proof.
  unfold normalizeIPv6.
  set (addr := if negb (Index ipv6 "/" =? -1)
               then substring 0 (Z.to_nat (Index ipv6 "/")) ipv6 else ipv6).
  assert (Haddr : forall c, occurs c addr -> c <> "/"%char /\ occurs c ipv6).
  { intros c. unfold addr. destruct (Index ipv6 "/" =? -1) eqn:E; cbn [negb].
    - apply Z.eqb_eq in E. intros H. split; [|exact H]. intros ->.
      exact (Index_none_occurs ipv6 "/" E H).
    - apply Z.eqb_neq in E. now apply occurs_before_Index. }
  set (parts := if Contains addr "::"
                then expandLoop (Z.of_nat (List.length (Split addr ":"))) 0
                       (Split addr ":") []
                else Split addr ":").
  assert (Hparts : forall part c, In part parts -> occurs c part ->
                     c = "0"%char \/ occurs c addr).
  { intros part c. unfold parts. destruct (Contains addr "::").
    - intros H. apply expandLoop_elements in H as [[]|[->|H]].
      + intros [<-|[]]. now left.
      + intros Hc. right. exact (Split_parts _ _ _ _ H Hc).
    - intros H Hc. right. exact (Split_parts _ _ _ _ H Hc). }
  destruct (4 <=? Z.of_nat (List.length parts)).
  - intros H. apply occurs_append in H as [H|H].
    + apply occurs_Join in H as [H|(e & He & Hc)].
      * destruct H as [<-|[]]. split; [discriminate|tauto].
      * apply In_firstn in He. destruct (Hparts e ch He Hc) as [->|Ha].
        -- split; [discriminate|tauto].
        -- destruct (Haddr ch Ha). tauto.
    + destruct H as [<-|[<-|[]]]; (split; [discriminate|tauto]).
  - intros H. destruct (Haddr ch H). tauto.
Qed.

Lemma normalizeIPv6_characters_witness :
  "8"%char <> "/"%char
  /\ ("8"%char = "0"%char \/ "8"%char = ":"%char \/ occurs "8" "2001:db8::1/128").
Proof.
  apply (normalizeIPv6_characters "2001:db8::1/128" "8").
  vm_compute. tauto.
Defined.

(** *** The renderers *)

Lemma list_ascii_append (a b : string) :
  list_ascii_of_string (a +:+ b) = list_ascii_of_string a ++ list_ascii_of_string b.
Proof. induction a as [|c a IH]; simpl; [reflexivity|now rewrite IH]. Qed.

Lemma TrimRight_text (s : string) :
  endsWithText s -> Render.TrimRight (s +:+ Render.lf) newline = s.
Proof.
  intros (s' & ch & -> & Hch). unfold Render.TrimRight, Render.lf.
  rewrite !list_ascii_append. cbn [list_ascii_of_string].
  rewrite !rev_app_distr. cbn [rev app Render.dropLeading].
  rewrite Ascii.eqb_refl. cbn [Render.dropLeading].
  apply Ascii.eqb_neq in Hch. rewrite Hch. cbn [rev]. rewrite rev_involutive.
  change [ch] with (list_ascii_of_string (String ch EmptyString)).
  now rewrite <- list_ascii_append, string_of_list_ascii_of_string.
Qed.

Lemma endsWithText_line (line : string) :
  oneLine line -> line <> EmptyString -> endsWithText line.
Proof.
  unfold oneLine, occurs. induction line as [|c line IH]; [congruence|].
  intros Hone _. destruct line as [|d line].
  - exists EmptyString, c. split; [reflexivity|]. simpl in Hone. tauto.
  - destruct IH as (s' & ch & Heq & Hch); [simpl in *; tauto|discriminate|].
    exists (String c s'), ch. split; [|exact Hch]. simpl. now rewrite <- Heq.
Qed.

Lemma endsWithText_prefix (p s : string) : endsWithText s -> endsWithText (p +:+ s).
Proof.
  intros (s' & ch & -> & Hch). exists (p +:+ s'), ch.
  split; [now rewrite append_assoc|exact Hch].
Qed.

Lemma endsWithText_Join (lines : list string) :
  Forall (fun line => oneLine line /\ line <> EmptyString) lines -> lines <> [] ->
  endsWithText (Join lines Render.lf).
Proof.
  induction 1 as [|line lines [Hone Hne] Hl IH]; [congruence|]. intros _.
  destruct lines as [|line' lines]; [now apply endsWithText_line|].
  change (Join (line :: line' :: lines) Render.lf)
    with (line +:+ Render.lf +:+ Join (line' :: lines) Render.lf).
  do 2 apply endsWithText_prefix. now apply IH.
Qed.

Lemma linesText_app (a b : list string) :
  linesText (a ++ b) = linesText a +:+ linesText b.
Proof.
  induction a as [|line a IH]; simpl; [reflexivity|].
  now rewrite IH, !append_assoc.
Qed.

Lemma linesText_Join (lines : list string) :
  lines <> [] -> linesText lines = Join lines Render.lf +:+ Render.lf.
Proof.
  induction lines as [|line lines IH]; [congruence|]. intros _.
  destruct lines as [|line' lines].
  - simpl. now rewrite append_nil_r.
  - change (linesText (line :: line' :: lines))
      with ((line +:+ Render.lf) +:+ linesText (line' :: lines)).
    rewrite IH by discriminate.
    change (Join (line :: line' :: lines) Render.lf)
      with (line +:+ Render.lf +:+ Join (line' :: lines) Render.lf).
    now rewrite !append_assoc.
Qed.

(** The lines of a text that was written line by line and trimmed. *)
Lemma Split_TrimRight_linesText (lines : list string) :
  Forall (fun line => oneLine line /\ line <> EmptyString) lines -> lines <> [] ->
  Split (Render.TrimRight (linesText lines) newline) newline = lines.
Proof.
  intros Hl Hne. rewrite linesText_Join by exact Hne.
  rewrite TrimRight_text by now apply endsWithText_Join.
  apply RenderLaws.Split_Join; [|exact Hne].
  eapply List.Forall_impl; [|exact Hl]. now intros line [H _].
Qed.

Lemma builder_linesText {A : Type} (f : A -> string) (xs : list A) (b : string) :
  fold_left (fun b x => b +:+ (f x +:+ Render.lf)) xs b
  = b +:+ linesText (map f xs).
Proof.
  revert b. induction xs as [|x xs IH]; intros b; simpl.
  - now rewrite append_nil_r.
  - now rewrite IH, !append_assoc.
Qed.

Lemma oneLine_literal (prefix text : string) :
  forallb (fun c => negb (Ascii.eqb c newline)) (list_ascii_of_string prefix) = true ->
  oneLine text -> oneLine (prefix +:+ text).
Proof.
  intros Hp Ht. apply RenderLaws.oneLine_append; [|exact Ht].
  unfold oneLine, occurs. intros Hin.
  rewrite forallb_forall in Hp. specialize (Hp _ Hin).
  now rewrite Ascii.eqb_refl in Hp.
Qed.

(** X28. The text of [RenderSurge] has one line for every rule, in
    order: its lines are those of the rules, provided no address holds
    a line break.  Of no rule it is the empty text. *)
Theorem RenderSurge_lines (cidrs : list IPCIDR) :
  Forall (fun cidr => oneLine (IP cidr)) cidrs ->
  (cidrs <> [] -> Split (RenderSurge cidrs) newline = map surgeLine cidrs)
  /\ (cidrs = [] -> RenderSurge cidrs = EmptyString)
  /\ RenderMihomo cidrs = RenderSurge cidrs.
Proof.
  intros Hone. split; [|split; [now intros ->|reflexivity]].
  intros Hne. unfold RenderSurge.
  rewrite (builder_linesText surgeLine cidrs EmptyString).
  change (EmptyString +:+ linesText (map surgeLine cidrs))
    with (linesText (map surgeLine cidrs)).
  apply Split_TrimRight_linesText; [|now destruct cidrs].
  apply List.Forall_map. eapply List.Forall_impl; [|exact Hone].
  intros cidr Hip. unfold surgeLine.
  destruct (IsIPv6 cidr); (split; [now apply oneLine_literal|discriminate]).
Qed.

Lemma RenderSurge_lines_witness :
  Split (RenderSurge (GenerateIPCIDR sampleClients FilterDirect (Some samplePing)))
    newline
  = ["IP-CIDR,192.0.2.1/32"; "IP-CIDR6,2001:db8:0:0::/64"].
Proof.
  apply (RenderSurge_lines
           (GenerateIPCIDR sampleClients FilterDirect (Some samplePing))).
  - repeat constructor; vm_compute; intuition discriminate.
  - discriminate.
Defined.

Lemma egernStep_lists (cidrs : list IPCIDR) (a b : list string) :
  fold_left egernStep cidrs (a, b)
  = (a ++ addressesOf false cidrs, b ++ addressesOf true cidrs).
Proof.
  revert a b. induction cidrs as [|cidr cidrs IH]; intros a b.
  - simpl. now rewrite !app_nil_r.
  - cbn [fold_left]. unfold egernStep at 2, addressesOf. cbn [List.filter fst snd].
    destruct (IsIPv6 cidr); cbn [Bool.eqb map]; rewrite IH; unfold addressesOf;
      now rewrite <- app_assoc.
Qed.

Lemma writeList_linesText (b name : string) (ips : list string) :
  writeList b (name +:+ Render.lf) ips = b +:+ linesText (setLines name ips).
Proof.
  unfold writeList, setLines. destruct ips as [|ip ips].
  - simpl. now rewrite append_nil_r.
  - replace (0 <? Z.of_nat (List.length (ip :: ips))) with true
      by (symmetry; apply Z.ltb_lt; simpl; lia).
    enough (H : forall b0,
               fold_left (fun b ip => ((b +:+ "  - ") +:+ ip) +:+ Render.lf)
                 (ip :: ips) b0
               = b0 +:+ linesText (map (fun ip => "  - " +:+ ip) (ip :: ips))).
    { rewrite H. change (linesText (name :: ?l)) with ((name +:+ Render.lf) +:+ linesText l).
      now rewrite !append_assoc. }
    generalize (ip :: ips). clear. intros ips.
    induction ips as [|ip ips IH]; intros b0.
    + simpl. now rewrite append_nil_r.
    + cbn [fold_left map]. rewrite IH.
      change (linesText (?x :: ?l)) with ((x +:+ Render.lf) +:+ linesText l).
      now rewrite !append_assoc.
Qed.

Lemma addressesOf_oneLine (v6 : bool) (cidrs : list IPCIDR) :
  Forall (fun cidr => oneLine (IP cidr)) cidrs ->
  Forall oneLine (addressesOf v6 cidrs).
Proof.
  intros H. unfold addressesOf. apply List.Forall_map.
  apply List.Forall_forall. intros cidr Hin. apply filter_In in Hin as [Hin _].
  rewrite List.Forall_forall in H. now apply H.
Qed.

Lemma setLines_good (name : string) (ips : list string) :
  oneLine name -> name <> EmptyString -> Forall oneLine ips ->
  Forall (fun line => oneLine line /\ line <> EmptyString) (setLines name ips).
Proof.
  intros Hn Hne Hips. unfold setLines. destruct ips as [|ip ips]; [constructor|].
  constructor; [now split|]. apply List.Forall_map.
  eapply List.Forall_impl; [|exact Hips]. intros a Ha.
  split; [now apply oneLine_literal|discriminate].
Qed.

(** X29. The text of [RenderEgern] lists the IPv4 addresses under
    [ip_cidr_set] and the IPv6 addresses under [ip_cidr6_set], each
    family in the order of the rules and a family without address left
    out, provided no address holds a line break.  Of no rule it is the
    empty text. *)
Theorem RenderEgern_lines (cidrs : list IPCIDR) :
  Forall (fun cidr => oneLine (IP cidr)) cidrs ->
  (cidrs <> [] ->
   Split (RenderEgern cidrs) newline
   = setLines "ip_cidr_set:" (addressesOf false cidrs)
     ++ setLines "ip_cidr6_set:" (addressesOf true cidrs))
  /\ (cidrs = [] -> RenderEgern cidrs = EmptyString).
Proof.
  intros Hone. split; [|now intros ->].
  intros Hne. unfold RenderEgern. rewrite egernStep_lists. cbn [fst snd app].
  rewrite !writeList_linesText.
  change (EmptyString +:+ ?x) with x. rewrite <- linesText_app.
  apply Split_TrimRight_linesText.
  - apply Forall_app. split; apply setLines_good;
      try (now apply addressesOf_oneLine); try discriminate;
      unfold oneLine, occurs; simpl; intuition discriminate.
  - destruct cidrs as [|cidr cidrs]; [congruence|].
    unfold addressesOf. cbn [List.filter].
    destruct (IsIPv6 cidr); cbn [Bool.eqb map setLines].
    + intros H. apply app_eq_nil in H as [_ H]. discriminate.
    + discriminate.
Qed.

Lemma RenderEgern_lines_witness :
  Split (RenderEgern (GenerateIPCIDR sampleClients FilterNone None)) newline
  = ["ip_cidr_set:"; "  - 192.0.2.1/32"; "  - 192.0.2.3/32"; "  - 192.0.2.4/32";
     "ip_cidr6_set:"; "  - 2001:db8:0:0::/64"].
Proof.
  apply (RenderEgern_lines (GenerateIPCIDR sampleClients FilterNone None)).
  - repeat constructor; vm_compute; intuition discriminate.
  - discriminate.
Defined.

End KomariFacts.
